(** * DiskANN streaming driver: embedding and verified properties

    The development follows the sources
    - [include/utils.h]: [ROUND_UP] and the other rounding macros,
      [alloc_aligned], [GenRandom], [get_bin_metadata], [load_bin],
      [load_truthset], [open_file_to_write], [save_bin], [load_aligned_bin],
      [prepare_base_for_inner_products], [save_data_in_base_dimensions],
      [copy_aligned_data_from_file];
    - the streaming scenario driver: [load_aligned_bin_part],
      [get_save_filename], [insert_next_batch], [delete_and_consolidate],
      [build_incremental_index], [main].

    Machine integers ([size_t], [uint32_t]) are integers of [Z] with their
    wrap-around written out; files and buffers are lists of bytes; [float]
    is binary32 with the operations of [SpecFloat].  The index and its
    consolidator are not among the sources: the index is modelled from the
    specification, and what the consolidator does on each call (a report,
    an exception, no return) is an input of the driver, as is the order in
    which the runtime runs the iterations of the parallel insertion loop. *)

From Stdlib Require Import ZArith Lia List.
From Stdlib.Strings Require Import Byte.
From Stdlib Require String Ascii DecimalString DecimalN SpecFloat QArith.
Import String.StringSyntax Ascii.AsciiSyntax.
Delimit Scope string_scope with string.
Delimit Scope char_scope with char.
From stdpp Require Import base tactics option list list_numbers gmap sets sorting.

Open Scope Z_scope.

(** ** Machine arithmetic *)

Module SizeT.
(** [size_t] and [uint64_t] on the 64-bit targets the driver is built for. *)
Definition modulus : Z := 2 ^ 64.
Definition wrap (x : Z) : Z := x mod modulus.
Definition add (a b : Z) : Z := wrap (a + b).
Definition sub (a b : Z) : Z := wrap (a - b).
Definition mul (a b : Z) : Z := wrap (a * b).
Definition min (a b : Z) : Z := if b <? a then b else a.
Definition max (a b : Z) : Z := if a <? b then b else a.
End SizeT.

Module U32.
Definition modulus : Z := 2 ^ 32.
Definition wrap (x : Z) : Z := x mod modulus.
End U32.

(** [#define ROUND_UP(X, Y) ((((uint64_t) (X) / (Y)) + ((uint64_t) (X) % (Y) != 0)) * (Y))] *)
Definition ROUND_UP (X Y : Z) : Z :=
  SizeT.mul (SizeT.add (SizeT.wrap X / Y) (if SizeT.wrap X mod Y =? 0 then 0 else 1)) Y.

(** ** Files and buffers *)

(** A file is its sequence of bytes; a stream position is an offset in it. *)
Definition file := list byte.

Definition file_size (f : file) : Z := Z.of_nat (length f).

(** The bytes an [istream::read] of [n] bytes at position [pos] can deliver:
    all [n] of them, or fewer when the file ends first. *)
Definition read_at (f : file) (pos n : Z) : list byte :=
  take (Z.to_nat n) (drop (Z.to_nat pos) f).

(** Little-endian value of a byte string (the hosts are little-endian). *)
Definition le_value (bs : list byte) : Z :=
  fold_right (fun b acc => Z.of_N (Byte.to_N b) + 256 * acc) 0 bs.

(** A [read] of [sizeof(int)] bytes into an [int] at [pos]: the raw 32-bit
    word, or nothing when fewer than four bytes are left. *)
Definition read_word (f : file) (pos : Z) : option Z :=
  let bs := read_at f pos 4 in
  if decide (length bs = 4%nat) then Some (le_value bs) else None.

(** The two header words, as raw 32-bit patterns. *)
Definition read_header (f : file) : option (Z * Z) :=
  match read_word f 0, read_word f 4 with
  | Some n, Some d => Some (n, d)
  | _, _ => None
  end.

(** [(uint32_t) x_i32] widened to [size_t]. *)
Definition of_int_as_unsigned (raw : Z) : Z := U32.wrap raw.

(** [size_t x = x_i32] for an [int]: sign extension to 64 bits. *)
Definition of_int_sign_extended (raw : Z) : Z :=
  if U32.wrap raw <? 2 ^ 31 then U32.wrap raw
  else SizeT.wrap (U32.wrap raw - 2 ^ 32).

(** A write of [bs] at byte offset [off] of a buffer; writing outside the
    allocation has no defined behaviour and is reported as [None]. *)
Definition write_bytes (off : Z) (bs : list byte) (data : list byte) : option (list byte) :=
  if decide (0 <= off /\ off + Z.of_nat (length bs) <= Z.of_nat (length data)) then
    Some (take (Z.to_nat off) data ++ bs ++ drop (Z.to_nat off + length bs) data)
  else None.

(** ** [load_aligned_bin_part] *)

Inductive load_status : Type :=
| Loaded                 (* normal return *)
| FileSizeMismatch       (* ANNException "File size mismatch" *)
| NotEnoughPoints        (* ANNException "Not enough points in file" *)
| StreamFailure          (* std::ios_base::failure from the reader *)
| BufferOverrun.         (* write outside [data]: undefined behaviour *)

(** The loop [for (size_t i = 0; i < points_to_read; i++)], [n] iterations
    left, the reader at position [pos]. *)
Fixpoint read_points (sz dim rounded_dim : Z) (f : file) (n : nat) (i pos : Z)
    (data : list byte) : load_status * list byte :=
  match n with
  | O => (Loaded, data)
  | S n' =>
      let want := SizeT.mul dim sz in
      let got := read_at f pos want in
      match write_bytes (SizeT.mul i rounded_dim * sz) got data with
      | None => (BufferOverrun, data)
      | Some data1 =>
          if Z.of_nat (length got) <? want then (StreamFailure, data1)
          else
            let pad := SizeT.mul (SizeT.sub rounded_dim dim) sz in
            match write_bytes ((SizeT.mul i rounded_dim + dim) * sz)
                    (replicate (Z.to_nat pad) x00) data1 with
            | None => (BufferOverrun, data1)
            | Some data2 =>
                read_points sz dim rounded_dim f n' (i + 1) (pos + want) data2
            end
      end
  end.

(** [sz] is [sizeof(T)]; the value is the way the call ends and the
    destination buffer as the call leaves it. *)
Definition load_aligned_bin_part (sz : Z) (bin_file : file) (data : list byte)
    (offset_points points_to_read : Z) : load_status * list byte :=
  let actual_file_size := file_size bin_file in
  match read_header bin_file with
  | None => (StreamFailure, data)
  | Some (npts_i32, dim_i32) =>
      let npts := of_int_as_unsigned npts_i32 in
      let dim := of_int_as_unsigned dim_i32 in
      let expected_actual_file_size :=
        SizeT.add (SizeT.mul (SizeT.mul npts dim) sz) (2 * 4) in
      if negb (actual_file_size =? expected_actual_file_size) then
        (FileSizeMismatch, data)
      else if SizeT.add offset_points points_to_read >? npts then
        (NotEnoughPoints, data)
      else
        let pos := SizeT.add (2 * 4) (SizeT.mul (SizeT.mul offset_points dim) sz) in
        let rounded_dim := ROUND_UP dim 8 in
        read_points sz dim rounded_dim bin_file (Z.to_nat points_to_read) 0 pos data
  end.

(** ** [get_bin_metadata]

    The two header [int]s are widened to [size_t] by plain assignment, which
    sign-extends them.  The stream has no exception mask: on a file without
    a full header the [int]s keep no defined value ([None]). *)
Definition get_bin_metadata (bin_file : file) : option (Z * Z) :=
  match read_header bin_file with
  | Some (nrows_32, ncols_32) =>
      Some (of_int_sign_extended nrows_32, of_int_sign_extended ncols_32)
  | None => None
  end.

(** ** [load_truthset] *)

Definition PTRDIFF_MAX : Z := 2 ^ 63 - 1.

(** [new T[n]] with elements of [elt] bytes: the array-new expression throws
    [std::bad_array_new_length] when the byte size passes the largest object
    size.  Memory is otherwise taken to be available. *)
Definition new_array_ok (n elt : Z) : bool := n * elt <=? PTRDIFF_MAX.

Inductive truthset_result : Type :=
| TruthsetLoaded (ids : list byte) (dists : option (list byte)) (npts dim : Z)
| TruthsetSizeMismatch   (* ANNException "File size mismatch" *)
| TruthsetReadPastEnd    (* the reader is asked for bytes the file lacks *)
| TruthsetBadAlloc.      (* std::bad_array_new_length *)

(** Modelled from the spec: [cached_ifstream] (cached_io.h) is absent from the
    sources; its [get_file_size] is the size of the file and its [read]
    delivers the next bytes of the file, failing with an exception when the
    file ends first ("FileFormat ... fatal"). *)
Definition cached_read (f : file) (pos n : Z) : option (list byte) :=
  let bs := read_at f pos n in
  if Z.of_nat (length bs) <? n then None else Some bs.

Definition load_truthset (bin_file : file) : truthset_result :=
  let actual_file_size := file_size bin_file in
  match read_header bin_file with
  | None => TruthsetReadPastEnd
  | Some (npts_i32, dim_i32) =>
      let npts := of_int_as_unsigned npts_i32 in
      let dim := of_int_as_unsigned dim_i32 in
      let truthset_type := -1 in
      let expected_file_size_with_dists :=
        SizeT.add (SizeT.mul (SizeT.mul (SizeT.mul 2 npts) dim) 4) (2 * 4) in
      let truthset_type :=
        if actual_file_size =? expected_file_size_with_dists then 1 else truthset_type in
      let expected_file_size_just_ids :=
        SizeT.add (SizeT.mul (SizeT.mul npts dim) 4) (2 * 4) in
      let truthset_type :=
        if actual_file_size =? expected_file_size_just_ids then 2 else truthset_type in
      if truthset_type =? -1 then TruthsetSizeMismatch
      else if negb (new_array_ok (SizeT.mul npts dim) 4) then TruthsetBadAlloc
      else
        let nbytes := SizeT.mul (SizeT.mul npts dim) 4 in
        match cached_read bin_file 8 nbytes with
        | None => TruthsetReadPastEnd
        | Some ids =>
            if truthset_type =? 1 then
              match cached_read bin_file (8 + nbytes) nbytes with
              | None => TruthsetReadPastEnd
              | Some dists => TruthsetLoaded ids (Some dists) npts dim
              end
            else TruthsetLoaded ids None npts dim
        end
  end.

(** ** The index, as far as the driver observes it *)

(** Modelled from the spec: the statuses of a [consolidation_report]
    (index.h is absent from the sources); the driver names three of them and
    treats every other value alike. *)
Inductive status_code : Type :=
| SUCCESS
| LOCK_FAIL
| INCONSISTENT_COUNT_ERROR
| OTHER_STATUS.   (* any further value of the enumeration *)

(** Modelled from the spec: the results of [insert_point],
    [0 | DuplicateTagError | CapacityError]. *)
Inductive insert_result : Type :=
| InsertOk
| DuplicateTagError
| CapacityError.

(** The [int] that [insert_point] returns: 0 on success. *)
Definition insert_code (r : insert_result) : Z :=
  match r with InsertOk => 0 | _ => -1 end.

Record point : Type := mkPoint {
  point_vector : list byte;
  point_labels : option (list Z)
}.

(** Modelled from the spec: [diskann::Index] (index.h) is absent from the
    sources.  Points are keyed by tag.  A point is live from its insertion
    to its lazy deletion, tombstoned from then to the next successful
    consolidation, which returns its slot; live and tombstoned points
    together never exceed the capacity. *)
Record Index : Type := mkIndex {
  max_points : Z;
  live : gmap Z point;
  tombstoned : gmap Z point
}.

Definition new_index (capacity : Z) : Index :=
  {| max_points := capacity; live := ∅; tombstoned := ∅ |}.

Definition live_tags (idx : Index) : gset Z := dom (live idx).

Definition live_size (idx : Index) : Z := Z.of_nat (size (live idx)).

(** Modelled from the spec: [insert_point(v, tag, labels?)] reserves a slot
    (CapacityError when live + tombstoned = capacity) and registers the tag
    (DuplicateTagError when the registry has it). *)
Definition insert_point (idx : Index) (v : list byte) (tag : Z)
    (labels : option (list Z)) : insert_result * Index :=
  match live idx !! tag, tombstoned idx !! tag with
  | None, None =>
      if max_points idx <=? Z.of_nat (size (live idx)) + Z.of_nat (size (tombstoned idx))
      then (CapacityError, idx)
      else (InsertOk,
            {| max_points := max_points idx;
               live := <[tag := mkPoint v labels]> (live idx);
               tombstoned := tombstoned idx |})
  | _, _ => (DuplicateTagError, idx)
  end.

(** Modelled from the spec: [lazy_delete(tag)] tombstones the slot of the
    tag; an unknown tag is ignored. *)
Definition lazy_delete (idx : Index) (tag : Z) : Index :=
  match live idx !! tag with
  | Some p =>
      {| max_points := max_points idx;
         live := delete tag (live idx);
         tombstoned := <[tag := p]> (tombstoned idx) |}
  | None => idx
  end.

(** Modelled from the spec: a call of [consolidate_deletes] whose report has
    status [st].  Only a successful pass frees the tombstoned slots and
    removes their tags; the status itself is decided by the environment
    (lock contention). *)
Definition consolidate_deletes (st : status_code) (idx : Index) : Index :=
  match st with
  | SUCCESS =>
      {| max_points := max_points idx; live := live idx; tombstoned := ∅ |}
  | _ => idx
  end.

(** ** The driver's world: the index, what the consolidator does on the
    driver's next calls, and the log of what the driver did. *)

(** What a call of [consolidate_deletes] does: it returns a report, it
    throws (a [std::system_error] or an exception of another type), or it
    has not returned.  A call for which the list of answers is used up has
    not returned. *)
Inductive answer : Type :=
| Reports (st : status_code)
| Throws (system_error : bool)
| Pending.

Inductive event : Type :=
| EvLoad (offset_points points_to_read : Z) (st : load_status)
| EvInsert (tag : Z) (r : insert_result)
| EvLazyDelete (tag : Z)
| EvConsolidate (a : answer)
| EvSleep (seconds : Z).

Record World : Type := mkWorld {
  index : Index;
  script : list answer;
  log : list event
}.

Definition emit (e : event) (w : World) : World :=
  {| index := index w; script := script w; log := log w ++ [e] |}.

Definition with_index (idx : Index) (w : World) : World :=
  {| index := idx; script := script w; log := log w |}.

(** Modelled from the spec: the index after a call of [consolidate_deletes]
    that was answered with [a]; a call that throws or has not returned
    frees no slot. *)
Definition answered (a : answer) (idx : Index) : Index :=
  match a with
  | Reports st => consolidate_deletes st idx
  | _ => idx
  end.

(** ** [insert_next_batch] *)

(** [(int64_t) x] for a [size_t]. *)
Definition to_int64 (x : Z) : Z :=
  if SizeT.wrap x <? 2 ^ 63 then SizeT.wrap x else SizeT.wrap x - 2 ^ 64.

(** [1 + static_cast<TagT>(j)], in [uint32_t]. *)
Definition insert_tag (j : Z) : Z := U32.wrap (1 + U32.wrap j).

(** [static_cast<TagT>(1 + i)], the sum taken in [size_t]. *)
Definition delete_tag (i : Z) : Z := U32.wrap (SizeT.add 1 i).

(** The [aligned_dim] elements that start at element [k] of [data]. *)
Definition vector_at (sz : Z) (data : list byte) (k aligned_dim : Z) : list byte :=
  take (Z.to_nat (aligned_dim * sz)) (drop (Z.to_nat (k * sz)) data).

(** The argument [labels[j - start]] of [insert_point], when the vector of
    labels is not empty; an index outside the vector has no defined
    behaviour ([None]). *)
Definition label_argument (labels : list (list Z)) (rel : Z)
    : option (option (list Z)) :=
  if 0 <? Z.of_nat (length labels) then
    if rel <? Z.of_nat (length labels) then Some (Some (nth (Z.to_nat rel) labels []))
    else None
  else Some None.

(** The loop [#pragma omp parallel for schedule(dynamic) reduction(+ :
    num_failed)] over [for (int64_t j = start; j < (int64_t)end; j++)].  The
    iterations run on several threads; [insert_point] is taken as atomic, so
    that a run of the loop is the run of its iterations in some order:
    [order] is that order. *)
Fixpoint insert_loop (sz : Z) (data : list byte) (aligned_dim : Z)
    (labels : list (list Z)) (start : Z) (order : list Z) (w : World)
    (num_failed : Z) : option (World * Z) :=
  match order with
  | [] => Some (w, num_failed)
  | j :: order' =>
      let rel := SizeT.wrap (j - start) in
      let v := vector_at sz data (SizeT.mul rel aligned_dim) aligned_dim in
      match label_argument labels rel with
      | None => None
      | Some lbl =>
          let '(r, idx) := insert_point (index w) v (insert_tag j) lbl in
          let w' := emit (EvInsert (insert_tag j) r) (with_index idx w) in
          insert_loop sz data aligned_dim labels start order' w'
            (if insert_code r =? 0 then num_failed else num_failed + 1)
      end
  end.

(** [schedule] gives the order in which the runtime runs the iterations
    [start, ..., end - 1] of the loop. *)
Definition insert_next_batch (sz : Z) (schedule : list Z -> list Z) (w : World)
    (start end_ : Z) (data : list byte) (aligned_dim : Z) (labels : list (list Z))
    : option (World * Z) :=
  insert_loop sz data aligned_dim labels start
    (schedule (seqZ (to_int64 start) (to_int64 end_ - to_int64 start))) w 0.

(** A schedule runs every iteration once. *)
Definition runs_each_once (schedule : list Z -> list Z) : Prop :=
  forall l : list Z, schedule l ≡ₚ l.

(** ** [delete_and_consolidate] *)

Inductive task_outcome : Type :=
| TaskReturned (w : World)
| TaskExited (code : Z) (w : World)   (* exit(-1) *)
| TaskThrew (w : World)               (* an exception leaves the task *)
| TaskRunning (w : World).            (* a call of the consolidator has not returned *)

(** [for (size_t i = start; i < end; ++i) index.lazy_delete(static_cast<TagT>(1 + i));] *)
Fixpoint lazy_delete_loop (n : nat) (i : Z) (w : World) : World :=
  match n with
  | O => w
  | S n' =>
      let t := delete_tag i in
      lazy_delete_loop n' (i + 1)
        (emit (EvLazyDelete t) (with_index (lazy_delete (index w) t) w))
  end.

(** [int wait_time = 5;] *)
Definition wait_time : Z := 5.

(** The loop [while (report._status != SUCCESS)] inside the [try] block:
    [last] is the answer to the last call, [pending] are the answers to the
    calls to come.  A [std::system_error] is caught by the handler of the
    task, which calls [exit(-1)]; any other exception leaves the task. *)
Fixpoint retry_consolidate (last : answer) (pending : list answer)
    (idx : Index) (lg : list event) : task_outcome :=
  match last with
  | Reports SUCCESS => TaskReturned (mkWorld idx pending lg)
  | Reports LOCK_FAIL | Reports INCONSISTENT_COUNT_ERROR =>
      let slept := lg ++ [EvSleep wait_time] in
      match pending with
      | [] => TaskRunning (mkWorld idx [] (slept ++ [EvConsolidate Pending]))
      | a :: rest =>
          retry_consolidate a rest (answered a idx) (slept ++ [EvConsolidate a])
      end
  | Reports OTHER_STATUS => TaskExited (-1) (mkWorld idx pending lg)
  | Throws true => TaskExited (-1) (mkWorld idx pending lg)
  | Throws false => TaskThrew (mkWorld idx pending lg)
  | Pending => TaskRunning (mkWorld idx pending lg)
  end.

(** [auto report = index.consolidate_deletes(delete_params);] and the loop
    after it, for a consolidator that will give the answers [answers]. *)
Definition consolidate_with_retry (answers : list answer) (idx : Index)
    (lg : list event) : task_outcome :=
  let a := hd Pending answers in
  retry_consolidate a (tl answers) (answered a idx) (lg ++ [EvConsolidate a]).

Definition delete_and_consolidate (w : World) (start end_ : Z) : task_outcome :=
  let w1 := lazy_delete_loop (Z.to_nat (end_ - start)) start w in
  consolidate_with_retry (script w1) (index w1) (log w1).

(** The answers after which the driver sleeps and calls again. *)
Definition retried (a : answer) : bool :=
  match a with
  | Reports LOCK_FAIL | Reports INCONSISTENT_COUNT_ERROR => true
  | _ => false
  end.

(** What the log shows for answers [rs] that are each followed by a retry. *)
Definition backoff_events (rs : list answer) : list event :=
  flat_map (fun r => [EvConsolidate r; EvSleep wait_time]) rs.

(** How the task ends on an answer that is not retried. *)
Definition task_end (a : answer) (w : World) : task_outcome :=
  match a with
  | Reports SUCCESS => TaskReturned w
  | Reports _ | Throws true => TaskExited (-1) w
  | Throws false => TaskThrew w
  | Pending => TaskRunning w
  end.

(** ** [build_incremental_index] *)

Inductive driver_exception : Type :=
| NumPointsTooSmall            (* "num_points(..) < max_points_to_insert(..)" *)
| WindowTooLarge               (* "max_points_to_insert < active_window + consolidate_interval" *)
| ConsolidateIntervalTooSmall. (* "consolidate_interval is too small" *)

Inductive run_outcome : Type :=
| Finished (w : World)                (* the loop is left; the index is saved *)
| Thrown (e : driver_exception)       (* ANNException, caught in main: exit(-1) *)
| Exited (code : Z) (w : World)       (* exit(-1) in the deletion task *)
| Undefined                           (* no defined behaviour *)
| OutOfFuel (w : World).              (* the driver is still running: the bound on
                                         the iterations is reached, or it waits for
                                         a deletion task that has not returned *)

(** The substitution of 0 and the three checks; the value is the number of
    points to insert. *)
Definition check_parameters (num_points max_points_to_insert active_window
    consolidate_interval : Z) : driver_exception + Z :=
  let max_points_to_insert :=
    if max_points_to_insert =? 0 then num_points else max_points_to_insert in
  if num_points <? max_points_to_insert then inl NumPointsTooSmall
  else if max_points_to_insert <? SizeT.add active_window consolidate_interval
  then inl WindowTooLarge
  else if consolidate_interval <? max_points_to_insert / 1000
  then inl ConsolidateIntervalTooSmall
  else inr max_points_to_insert.

(** The capacity the index is constructed with. *)
Definition index_capacity (active_window consolidate_interval : Z) : Z :=
  SizeT.add active_window (SizeT.mul 4 consolidate_interval).

(** [alloc_aligned] of [std::max(consolidate_interval, active_window) *
    aligned_dim * sizeof(T)] bytes; the bytes are written before they are
    read, their initial value (here zero) is immaterial. *)
Definition alloc_data (sz aligned_dim active_window consolidate_interval : Z) : list byte :=
  replicate
    (Z.to_nat (SizeT.mul (SizeT.mul (SizeT.max consolidate_interval active_window)
                            aligned_dim) sz)) x00.

Section Driver.

Variable sz : Z.                       (* sizeof(T) *)
Variable schedule : list Z -> list Z.  (* the order of the parallel iterations *)
Variable data_path : file.
Variable labels : list (list Z).       (* empty when there is no label file *)
Variable has_labels : bool.
Variables active_window consolidate_interval : Z.
Variable aligned_dim : Z.
Variable max_points_to_insert : Z.     (* after the substitution of 0 *)

(** The body of an insertion task: load a batch, insert it.  An exception
    of the loader stays in the task's future, which is only waited for: the
    batch is then not inserted and the driver goes on. *)
Definition insert_task (start end_ : Z) (data : list byte) (w : World)
    : option (list byte * World) :=
  let '(st, data') :=
    load_aligned_bin_part sz data_path data start (SizeT.sub end_ start) in
  let w' := emit (EvLoad start (SizeT.sub end_ start) st) w in
  match st with
  | Loaded =>
      match insert_next_batch sz schedule w' start end_ data' aligned_dim labels with
      | Some (w'', _) => Some (data', w'')
      | None => None
      end
  | BufferOverrun => None
  | _ => Some (data', w')
  end.

(** The loop [for (size_t start = active_window; start + consolidate_interval
    <= max_points_to_insert; start += consolidate_interval)].  The deletion
    task is run when it is spawned: the task and the next insertion touch
    disjoint tags, and the driver waits for the task before it spawns the
    next one and before it saves.  An exception that leaves the task stays
    in its future, which is only waited for. *)
Fixpoint streaming_loop (fuel : nat) (start : Z) (data : list byte) (w : World)
    : run_outcome :=
  if SizeT.add start consolidate_interval <=? max_points_to_insert then
    match fuel with
    | O => OutOfFuel w
    | S fuel' =>
        let end_ := SizeT.min (SizeT.add start consolidate_interval) max_points_to_insert in
        match insert_task start end_ data w with
        | None => Undefined
        | Some (data1, w1) =>
            let next := SizeT.add start consolidate_interval in
            if negb has_labels then
              if start >=? SizeT.add active_window consolidate_interval then
                let start_del := SizeT.sub (SizeT.sub start active_window) consolidate_interval in
                let end_del := SizeT.sub start active_window in
                match delete_and_consolidate w1 start_del end_del with
                | TaskExited code w2 => Exited code w2
                | TaskRunning w2 => OutOfFuel w2
                | TaskReturned w2 | TaskThrew w2 => streaming_loop fuel' next data1 w2
                end
              else streaming_loop fuel' next data1 w1
            else streaming_loop fuel' next data1 w1
        end
    end
  else Finished w.

End Driver.

(** The driver, from the metadata of the data file to the end of the loop.
    The graph parameters ([L], [R], [alpha], the thread counts, the start
    points, the universal label) and the final [save] do not bear on the
    tags and are left out; [parsed_labels] is what the label file parses to
    (it is read only when there is a label file), [answers] is what the
    consolidator will do on the next calls, [fuel] bounds the iterations of
    the loop. *)
Definition build_incremental_index (sz : Z) (schedule : list Z -> list Z)
    (data_path : file) (parsed_labels : list (list Z)) (has_labels : bool)
    (max_points_to_insert active_window consolidate_interval : Z)
    (answers : list answer) (fuel : nat) : run_outcome :=
  let labels := if has_labels then parsed_labels else [] in
  match get_bin_metadata data_path with
  | None => Undefined
  | Some (num_points, dim) =>
      let aligned_dim := ROUND_UP dim 8 in
      match check_parameters num_points max_points_to_insert active_window
              consolidate_interval with
      | inl e => Thrown e
      | inr max_points_to_insert =>
          let idx := new_index (index_capacity active_window consolidate_interval) in
          let data := alloc_data sz aligned_dim active_window consolidate_interval in
          let w := mkWorld idx answers [] in
          match insert_task sz schedule data_path labels aligned_dim 0 active_window
                  data w with
          | None => Undefined
          | Some (data0, w0) =>
              streaming_loop sz schedule data_path labels has_labels active_window
                consolidate_interval aligned_dim max_points_to_insert fuel
                active_window data0 w0
          end
      end
  end.

(** The log an outcome of the deletion task carries. *)
Definition task_log (t : task_outcome) : list event :=
  match t with TaskReturned w | TaskExited _ w | TaskThrew w | TaskRunning w => log w end.

(** A bin file of [npts] points of [dim] elements of [sz] bytes: the header
    holds [npts] and [dim] as non-negative [int]s and the size of the file
    is that of the header and the points. *)
Definition well_formed_bin (sz : Z) (f : file) (npts dim : Z) : Prop :=
  read_header f = Some (npts, dim) /\
  npts < 2 ^ 31 /\ dim < 2 ^ 31 /\
  file_size f = 8 + npts * dim * sz /\
  file_size f < 2 ^ 63.

(** The tags [t] with [a <= t < b]. *)
Definition tag_interval (a b : Z) : gset Z := list_to_set (seqZ a (b - a)).

(** The tags of the insertions and of the lazy deletions of a log. *)
Definition inserted_tags (lg : list event) : list Z :=
  flat_map (fun e => match e with EvInsert t _ => [t] | _ => [] end) lg.

Definition deleted_tags (lg : list event) : list Z :=
  flat_map (fun e => match e with EvLazyDelete t => [t] | _ => [] end) lg.

(** The consolidator answers every call with a report, and with no status
    but the three the driver names. *)
Definition named (a : answer) : bool :=
  match a with
  | Reports SUCCESS | Reports LOCK_FAIL | Reports INCONSISTENT_COUNT_ERROR => true
  | _ => false
  end.

Definition known_statuses (answers : list answer) : Prop :=
  Forall (fun a => named a = true) answers.

(** The number of reports SUCCESS among the answers. *)
Fixpoint successes (answers : list answer) : Z :=
  match answers with
  | [] => 0
  | Reports SUCCESS :: rest => 1 + successes rest
  | _ :: rest => successes rest
  end.

(** The world an outcome of the deletion task or of the driver carries. *)
Definition task_world (t : task_outcome) : World :=
  match t with TaskReturned w | TaskExited _ w | TaskThrew w | TaskRunning w => w end.

Definition outcome_world (r : run_outcome) : option World :=
  match r with
  | Finished w | Exited _ w | OutOfFuel w => Some w
  | Thrown _ | Undefined => None
  end.

(** The log an outcome of the driver carries. *)
Definition outcome_log (r : run_outcome) : list event :=
  match r with
  | Finished w | Exited _ w | OutOfFuel w => log w
  | Thrown _ | Undefined => []
  end.

(** Every timed wait of a log lasts [wait_time] seconds and comes right
    after a report of LOCK_FAIL or INCONSISTENT_COUNT_ERROR;
    [after_retried] tells whether the log follows such a report. *)
Fixpoint backoff_waits_from (after_retried : bool) (lg : list event) : Prop :=
  match lg with
  | [] => True
  | EvSleep seconds :: rest =>
      after_retried = true /\ seconds = wait_time /\ backoff_waits_from false rest
  | EvConsolidate a :: rest => backoff_waits_from (retried a) rest
  | _ :: rest => backoff_waits_from false rest
  end.

Definition only_backoff_waits (lg : list event) : Prop := backoff_waits_from false lg.

(** ** Further macros of [utils.h] *)

(** [#define DIV_ROUND_UP(X, Y) (((uint64_t) (X) / (Y)) + ((uint64_t) (X) % (Y) != 0))] *)
Definition DIV_ROUND_UP (X Y : Z) : Z :=
  SizeT.add (SizeT.wrap X / Y) (if SizeT.wrap X mod Y =? 0 then 0 else 1).

(** [#define ROUND_DOWN(X, Y) (((uint64_t) (X) / (Y)) * (Y))] *)
Definition ROUND_DOWN (X Y : Z) : Z := SizeT.mul (SizeT.wrap X / Y) Y.

(** [#define IS_ALIGNED(X, Y) ((uint64_t) (X) % (uint64_t) (Y) == 0)] *)
Definition IS_ALIGNED (X Y : Z) : bool := SizeT.wrap X mod SizeT.wrap Y =? 0.

(** [alloc_aligned]: the assertion on the size, then the allocation (whose
    bytes are indeterminate; zero here, as in [alloc_data]).  [None] is the
    failed assertion. *)
Definition alloc_aligned (size align : Z) : option (list byte) :=
  if IS_ALIGNED size align then Some (replicate (Z.to_nat size) x00) else None.

(** ** Writing files *)

(** The byte of value [z], for [0 <= z < 256]. *)
Definition byte_of (z : Z) : byte :=
  match Byte.of_N (Z.to_N z) with Some b => b | None => x00 end.

(** The [k] low bytes of [x], least significant first: what a [write] of a
    [k]-byte integer puts into the file. *)
Fixpoint le_bytes (k : nat) (x : Z) : list byte :=
  match k with
  | O => []
  | S k' => byte_of (x mod 256) :: le_bytes k' (x / 256)
  end.

(** [(int) n] for a [size_t], as the raw 32-bit word. *)
Definition to_int_raw (n : Z) : Z := U32.wrap n.

(** A [write] of [bs] at position [pos] of a file opened for writing: the
    bytes replace what is there, the file grows when they pass its end, and a
    gap left by a seek past the end reads as zero. *)
Definition write_at (f : file) (pos : Z) (bs : list byte) : file :=
  let p := Z.to_nat pos in
  take p f ++ replicate (p - length f) x00 ++ bs ++ drop (p + length bs) f.

(** [open_file_to_write]: a file that does not exist is created empty, an
    existing one is opened with [in | out] and keeps its content; [writable]
    tells whether the open succeeds.  The exception mask of the writer is
    set before the open, so a failed open throws [std::ios_base::failure]
    at once ([None]); the test of [writer.fail()] after the open, with its
    ANNException, is never reached with a failed stream. *)
Definition open_file_to_write (existing : option file) (writable : bool) : option file :=
  if writable then Some (default [] existing) else None.

Inductive save_result : Type :=
| Saved (f : file) (bytes_written : Z)
| SaveStreamFailure       (* std::ios_base::failure of the writer *)
| SaveOutOfBounds.        (* read outside [data]: undefined behaviour *)

(** [save_bin<T>(filename, data, npts, ndims, offset)] *)
Definition save_bin (sz : Z) (existing : option file) (writable : bool)
    (data : list byte) (npts ndims offset : Z) : save_result :=
  match open_file_to_write existing writable with
  | None => SaveStreamFailure
  | Some f0 =>
      if to_int64 offset <? 0 then SaveStreamFailure
      else
        let npts_i32 := to_int_raw npts in
        let ndims_i32 := to_int_raw ndims in
        let bytes_written := SizeT.add (SizeT.mul (SizeT.mul npts ndims) sz) (2 * 4) in
        let f1 := write_at f0 offset (le_bytes 4 npts_i32) in
        let f2 := write_at f1 (offset + 4) (le_bytes 4 ndims_i32) in
        let nbytes := SizeT.mul (SizeT.mul npts ndims) sz in
        if Z.of_nat (length data) <? nbytes then SaveOutOfBounds
        else Saved (write_at f2 (offset + 8) (take (Z.to_nat nbytes) data)) bytes_written
  end.

(** The loop [for (size_t i = 0; i < npts; i++)] that writes the
    [ndims * sizeof(T)] bytes at [data + i * aligned_dim]; [n] iterations
    are left, the writer is at position [pos]. *)
Fixpoint save_rows (sz ndims aligned_dim : Z) (data : list byte) (n : nat)
    (i pos : Z) (f : file) : option file :=
  match n with
  | O => Some f
  | S n' =>
      let nbytes := SizeT.mul ndims sz in
      let from := SizeT.mul i aligned_dim * sz in
      if Z.of_nat (length data) <? from + nbytes then None
      else
        save_rows sz ndims aligned_dim data n' (i + 1) (pos + nbytes)
          (write_at f pos (take (Z.to_nat nbytes) (drop (Z.to_nat from) data)))
  end.

(** [save_data_in_base_dimensions<T>(filename, data, npts, ndims, aligned_dim, offset)] *)
Definition save_data_in_base_dimensions (sz : Z) (existing : option file)
    (writable : bool) (data : list byte) (npts ndims aligned_dim offset : Z)
    : save_result :=
  match open_file_to_write existing writable with
  | None => SaveStreamFailure
  | Some f0 =>
      let npts_i32 := to_int_raw npts in
      let ndims_i32 := to_int_raw ndims in
      let bytes_written := SizeT.add (2 * 4) (SizeT.mul (SizeT.mul npts ndims) sz) in
      if to_int64 offset <? 0 then SaveStreamFailure
      else
        let f1 := write_at f0 offset (le_bytes 4 npts_i32) in
        let f2 := write_at f1 (offset + 4) (le_bytes 4 ndims_i32) in
        match save_rows sz ndims aligned_dim data (Z.to_nat npts) 0 (offset + 8) f2 with
        | None => SaveOutOfBounds
        | Some f3 => Saved f3 bytes_written
        end
  end.

(** ** [load_bin] *)

Inductive bin_result : Type :=
| BinLoaded (data : list byte) (npts dim : Z)
| BinFileException        (* the reader's failure, rethrown as FileException *)
| BinBadAlloc.            (* std::bad_array_new_length *)

(** [load_bin_impl<T>(reader, data, npts, dim, file_offset)], the reader
    throwing on failure as [load_bin] sets it up. *)
Definition load_bin (sz : Z) (bin_file : file) (offset : Z) : bin_result :=
  if to_int64 offset <? 0 then BinFileException
  else
    match read_word bin_file offset, read_word bin_file (offset + 4) with
    | Some npts_i32, Some dim_i32 =>
        let npts := of_int_as_unsigned npts_i32 in
        let dim := of_int_as_unsigned dim_i32 in
        if negb (new_array_ok (SizeT.mul npts dim) sz) then BinBadAlloc
        else
          let nbytes := SizeT.mul (SizeT.mul npts dim) sz in
          let got := read_at bin_file (offset + 8) nbytes in
          if Z.of_nat (length got) <? nbytes then BinFileException
          else BinLoaded got npts dim
    | _, _ => BinFileException
    end.

(** ** [copy_aligned_data_from_file] and [load_aligned_bin] *)

Inductive copy_status : Type :=
| Copied (npts dim : Z)
| CopyNullPointer         (* ANNException "Null pointer passed ..." *)
| CopyStreamFailure       (* std::ios_base::failure from the reader *)
| CopyBufferOverrun.      (* write outside [data]: undefined behaviour *)

(** [copy_aligned_data_from_file<T>(bin_file, data, npts, dim, rounded_dim,
    offset)]; [data] is [None] for a null pointer. *)
Definition copy_aligned_data_from_file (sz : Z) (bin_file : file)
    (data : option (list byte)) (rounded_dim offset : Z)
    : copy_status * option (list byte) :=
  match data with
  | None => (CopyNullPointer, None)
  | Some buf =>
      if to_int64 offset <? 0 then (CopyStreamFailure, Some buf)
      else
        match read_word bin_file offset, read_word bin_file (offset + 4) with
        | Some npts_i32, Some dim_i32 =>
            let npts := of_int_as_unsigned npts_i32 in
            let dim := of_int_as_unsigned dim_i32 in
            match read_points sz dim rounded_dim bin_file (Z.to_nat npts) 0
                    (offset + 8) buf with
            | (Loaded, buf') => (Copied npts dim, Some buf')
            | (BufferOverrun, buf') => (CopyBufferOverrun, Some buf')
            | (_, buf') => (CopyStreamFailure, Some buf')
            end
        | _, _ => (CopyStreamFailure, Some buf)
        end
  end.

Inductive aligned_bin_result : Type :=
| AlignedLoaded (data : list byte) (npts dim rounded_dim : Z)
| AlignedSizeMismatch     (* ANNException "File size mismatch" *)
| AlignedFileException    (* the reader's failure, rethrown as FileException *)
| AlignedAssertFailed     (* the assertion of [alloc_aligned] *)
| AlignedBufferOverrun.   (* write outside the allocation: undefined behaviour *)

(** [load_aligned_bin<T>(bin_file, data, npts, dim, rounded_dim)] with
    [load_aligned_bin_impl]. *)
Definition load_aligned_bin (sz : Z) (bin_file : file) : aligned_bin_result :=
  let fsize := file_size bin_file in
  match read_header bin_file with
  | None => AlignedFileException
  | Some (npts_i32, dim_i32) =>
      let npts := of_int_as_unsigned npts_i32 in
      let dim := of_int_as_unsigned dim_i32 in
      let expected_actual_file_size :=
        SizeT.add (SizeT.mul (SizeT.mul npts dim) sz) (2 * 4) in
      if negb (fsize =? expected_actual_file_size) then AlignedSizeMismatch
      else
        let rounded_dim := ROUND_UP dim 8 in
        let allocSize := SizeT.mul (SizeT.mul npts rounded_dim) sz in
        match alloc_aligned allocSize (SizeT.mul 8 sz) with
        | None => AlignedAssertFailed
        | Some data =>
            match read_points sz dim rounded_dim bin_file (Z.to_nat npts) 0 8 data with
            | (Loaded, data') => AlignedLoaded data' npts dim rounded_dim
            | (BufferOverrun, _) => AlignedBufferOverrun
            | (_, _) => AlignedFileException
            end
        end
  end.

(** ** What a log holds *)

(** The events of an insertion task. *)
Definition insertion_event (e : event) : Prop :=
  match e with
  | EvLoad _ _ _ | EvInsert _ _ => True
  | _ => False
  end.

(** The statuses of the loads of a log. *)
Definition load_statuses (lg : list event) : list load_status :=
  flat_map (fun e => match e with EvLoad _ _ st => [st] | _ => [] end) lg.

(** The number of insertions, given as tag and result, that did not
    return 0. *)
Definition failed_insertions (rs : list (Z * insert_result)) : Z :=
  Z.of_nat (length (filter (fun tr => insert_code tr.2 <> 0) rs)).

(** Nothing was ever loaded: no point is live, no insertion was made and
    every load ended in the file-size exception. *)
Definition nothing_loaded (w : World) : Prop :=
  live (index w) = ∅ /\
  inserted_tags (log w) = [] /\
  Forall (eq FileSizeMismatch) (load_statuses (log w)).

(** ** [get_save_filename] *)

(** [std::to_string] of a [size_t]: its decimal digits. *)
Definition to_string (x : Z) : String.string :=
  DecimalString.NilEmpty.string_of_uint (N.to_uint (Z.to_N x)).

Definition get_save_filename (save_path : String.string)
    (active_window consolidate_interval max_points_to_insert : Z) : String.string :=
  let final_path := save_path in
  let final_path :=
    String.append final_path
      (String.append (String.append "act"%string (to_string active_window)) "-"%string) in
  let final_path :=
    String.append final_path
      (String.append (String.append "cons"%string (to_string consolidate_interval)) "-"%string) in
  let final_path :=
    String.append final_path
      (String.append "max"%string (to_string max_points_to_insert)) in
  final_path.

(** The strings without the character [-]. *)
Fixpoint no_dash (s : String.string) : Prop :=
  match s with
  | String.EmptyString => True
  | String.String c s' => c <> "-"%char /\ no_dash s'
  end.

(** ** [main], from the validation of the parsed arguments on *)

Inductive main_outcome : Type :=
| MainReturned (code : Z)      (* [return code;] *)
| MainExited (code : Z)        (* [exit(code)], in a handler or in the deletion task *)
| MainUndefined                (* no defined behaviour *)
| MainRunning.                 (* the driver's loop is still running *)

(** How [main] ends when the call of the driver ends as [r]: an exception
    of the driver is caught and answered with [exit(-1)]. *)
Definition after_driver (r : run_outcome) : main_outcome :=
  match r with
  | Finished _ => MainReturned 0
  | Thrown _ => MainExited (-1)
  | Exited code _ => MainExited code
  | Undefined => MainUndefined
  | OutOfFuel _ => MainRunning
  end.

(** The arguments are the values [boost::program_options] has stored;
    [labels] is what the label file parses to, [schedule] and [answers] are
    those of the driver.  The three instances of the
    driver differ in [sizeof(T)]: 1 for [uint8_t] and [int8_t], 4 for
    [float]. *)
Definition main (schedule : list Z -> list Z)
    (data_type dist_fn label_type label_file : String.string)
    (start_point_norm : SpecFloat.spec_float) (data_path : file)
    (labels : list (list Z))
    (max_points_to_insert active_window consolidate_interval : Z)
    (answers : list answer) (fuel : nat) : main_outcome :=
  let is_zero :=
    match start_point_norm with SpecFloat.S754_zero _ => true | _ => false end in
  if is_zero then MainReturned (-1)
  else if negb (String.eqb label_type "ushort"%string) && negb (String.eqb label_type "uint"%string)
  then MainReturned (-1)
  else if negb (String.eqb data_type "int8"%string) && negb (String.eqb data_type "uint8"%string)
          && negb (String.eqb data_type "float"%string)
  then MainReturned (-1)
  else if negb (String.eqb dist_fn "l2"%string) && negb (String.eqb dist_fn "mips"%string)
  then MainReturned (-1)
  else
    let has_labels := negb (String.eqb label_file String.EmptyString) in
    let build (sz : Z) :=
      after_driver
        (build_incremental_index sz schedule data_path labels has_labels
           max_points_to_insert active_window consolidate_interval answers fuel) in
    if String.eqb data_type "uint8"%string then
      if String.eqb label_type "ushort"%string then build 1
      else if String.eqb label_type "uint"%string then build 1
      else MainReturned 0
    else if String.eqb data_type "int8"%string then
      if String.eqb label_type "ushort"%string then build 1
      else if String.eqb label_type "uint"%string then build 1
      else MainReturned 0
    else if String.eqb data_type "float"%string then
      if String.eqb label_type "ushort"%string then build 4
      else if String.eqb label_type "uint"%string then build 4
      else MainReturned 0
    else MainReturned 0.

(** The arguments [main] accepts. *)
Definition valid_arguments (data_type dist_fn label_type : String.string)
    (start_point_norm : SpecFloat.spec_float) : Prop :=
  (forall s, start_point_norm <> SpecFloat.S754_zero s) /\
  (label_type = "ushort"%string \/ label_type = "uint"%string) /\
  (data_type = "int8"%string \/ data_type = "uint8"%string \/ data_type = "float"%string) /\
  (dist_fn = "l2"%string \/ dist_fn = "mips"%string).

(** ** [GenRandom] *)

(** The loop [for (i = 1; i < size; ++i) if (addr[i] <= addr[i - 1])
    addr[i] = addr[i - 1] + 1;], [prev] being [addr[i - 1]]. *)
Fixpoint spread (prev : Z) (addr : list Z) : list Z :=
  match addr with
  | [] => []
  | x :: rest =>
      let x' := if x <=? prev then U32.wrap (prev + 1) else x in
      x' :: spread x' rest
  end.

(** [rng k] is the [k]-th value the generator returns from the state it has
    at the call; [std::sort] is [merge_sort] (the sorted list of [unsigned]s
    is the same for every sorting algorithm).  [None]: a remainder by 0. *)
Definition GenRandom (rng : nat -> Z) (size N : Z) : option (list Z) :=
  if (0 <? size) && (U32.wrap (N - size) =? 0) then None
  else if N =? 0 then None
  else
    let addr :=
      map (fun i => U32.wrap (rng i) mod U32.wrap (N - size)) (seq 0 (Z.to_nat size)) in
    let addr := merge_sort Z.le addr in
    let addr :=
      match addr with
      | [] => []
      | x :: rest => x :: spread x rest
      end in
    let off := U32.wrap (rng (Z.to_nat size)) mod N in
    Some (map (fun a => U32.wrap (a + off) mod N) addr).

(** ** [prepare_base_for_inner_products] *)

(** [float] is IEEE 754 binary32: the operations of the function are those
    of [SpecFloat] at precision 24 and maximal exponent 128, each rounded
    to nearest, ties to even, as the language evaluates them one by one (no
    fused multiply-add, no wider intermediate format). *)
Module Float32.
Definition prec : Z := 24.
Definition emax : Z := 128.
Definition add : SpecFloat.spec_float -> SpecFloat.spec_float -> SpecFloat.spec_float :=
  SpecFloat.SFadd prec emax.
Definition sub : SpecFloat.spec_float -> SpecFloat.spec_float -> SpecFloat.spec_float :=
  SpecFloat.SFsub prec emax.
Definition mul : SpecFloat.spec_float -> SpecFloat.spec_float -> SpecFloat.spec_float :=
  SpecFloat.SFmul prec emax.
Definition div : SpecFloat.spec_float -> SpecFloat.spec_float -> SpecFloat.spec_float :=
  SpecFloat.SFdiv prec emax.
Definition sqrt : SpecFloat.spec_float -> SpecFloat.spec_float :=
  SpecFloat.SFsqrt prec emax.
Definition zero : SpecFloat.spec_float := SpecFloat.S754_zero false.
Definition one : SpecFloat.spec_float := SpecFloat.S754_finite false 8388608 (-23).

(** The float a 32-bit word stands for. *)
Definition of_bits (w : Z) : SpecFloat.spec_float :=
  let s := Z.testbit w 31 in
  let e := Z.land (Z.shiftr w 23) 255 in
  let m := Z.land w (2 ^ 23 - 1) in
  if e =? 0 then
    match m with
    | Zpos p => SpecFloat.S754_finite s p (-149)
    | _ => SpecFloat.S754_zero s
    end
  else if e =? 255 then
    if m =? 0 then SpecFloat.S754_infinity s else SpecFloat.S754_nan
  else
    match m + 2 ^ 23 with
    | Zpos p => SpecFloat.S754_finite s p (e - 150)
    | _ => SpecFloat.S754_nan
    end.

(** [(float) z] for an integer. *)
Definition of_int (z : Z) : SpecFloat.spec_float :=
  SpecFloat.binary_normalize prec emax z 0 false.

(** The value of a float as a rational, when it has one. *)
Definition exact (x : SpecFloat.spec_float) : option QArith_base.Q :=
  match x with
  | SpecFloat.S754_zero _ => Some (QArith_base.inject_Z 0)
  | SpecFloat.S754_finite s m e =>
      Some (QArith_base.Qmult
              (QArith_base.inject_Z (if s then Z.neg m else Z.pos m))
              (QArith_base.Qpower (QArith_base.inject_Z 2) e))
  | _ => None
  end.

End Float32.

(** What the function needs of its template parameter [T]: the size of an
    element, the conversion [(float) x] of an element and the value that
    [x * x] has when it is added to a [float].  For [float] the product is
    a float product; for [int8_t] and [uint8_t] the operands are promoted
    to [int], the product is exact and is then converted. *)
Record element_type : Type := mkElement {
  sizeof : Z;
  to_float : list byte -> SpecFloat.spec_float;
  square : list byte -> SpecFloat.spec_float
}.

Definition float_elements : element_type :=
  {| sizeof := 4;
     to_float := fun bs => Float32.of_bits (le_value bs);
     square := fun bs =>
       Float32.mul (Float32.of_bits (le_value bs)) (Float32.of_bits (le_value bs)) |}.

Definition uint8_elements : element_type :=
  {| sizeof := 1;
     to_float := fun bs => Float32.of_int (le_value bs);
     square := fun bs => Float32.of_int (le_value bs * le_value bs) |}.

(** The value of a byte read as [int8_t]. *)
Definition int8_value (bs : list byte) : Z :=
  if le_value bs <? 128 then le_value bs else le_value bs - 256.

Definition int8_elements : element_type :=
  {| sizeof := 1;
     to_float := fun bs => Float32.of_int (int8_value bs);
     square := fun bs => Float32.of_int (int8_value bs * int8_value bs) |}.

(** What the function has written: the two header words and, after them,
    the floats in the order of their writes.  (The bytes of a float are
    those of its value; for a NaN the language does not fix them.) *)
Record prepared_file : Type := mkPrepared {
  out_npts : Z;
  out_dims : Z;
  out_values : list SpecFloat.spec_float
}.

Inductive prepare_result : Type :=
| Prepared (max_norm : SpecFloat.spec_float) (out : prepared_file)
| PrepareUndefined   (* the header cannot be read, or [npts] is 0: division by zero *)
| PrepareShortInput. (* the input ends before the points its header announces:
                        a read of a block fails; what the blocks then hold is
                        not followed *)

(** [size_t BLOCK_SIZE = 100000;] *)
Definition BLOCK_SIZE : Z := 100000.

Section Prepare.

Variable T : element_type.

(** [in_block_data[k]]. *)
Definition element_at (block : list byte) (k : Z) : list byte :=
  read_at block (k * sizeof T) (sizeof T).

(** [for (j = 0; j < in_dims; j++) norms[i] += in_block_data[p * in_dims + j] *
    in_block_data[p * in_dims + j];] with [i = start_id + p]. *)
Definition add_squares (block : list byte) (in_dims p i : Z)
    (norms : list SpecFloat.spec_float) : list SpecFloat.spec_float :=
  foldl (fun norms j =>
           <[Z.to_nat i :=
               Float32.add (nth (Z.to_nat i) norms Float32.zero)
                 (square T (element_at block (p * in_dims + j)))]> norms)
        norms (seqZ 0 in_dims).

(** [max_norm > norms[i] ? max_norm : norms[i]]. *)
Definition larger (max_norm n : SpecFloat.spec_float) : SpecFloat.spec_float :=
  if SpecFloat.SFltb n max_norm then max_norm else n.

(** The loop over the points [p] of a block, in the first pass. *)
Definition norms_of_block (block : list byte) (in_dims start_id block_pts : Z)
    (st : list SpecFloat.spec_float * SpecFloat.spec_float)
    : list SpecFloat.spec_float * SpecFloat.spec_float :=
  foldl (fun '(norms, max_norm) p =>
           let norms' := add_squares block in_dims p (start_id + p) norms in
           (norms', larger max_norm (nth (Z.to_nat (start_id + p)) norms' Float32.zero)))
        st (seqZ 0 block_pts).

(** [end_id = (b + 1) * block_size < npts ? (b + 1) * block_size : npts]. *)
Definition block_end (npts block_size b : Z) : Z :=
  if (b + 1) * block_size <? npts then (b + 1) * block_size else npts.

(** The first pass over the blocks [blocks], the reader being at [pos]. *)
Fixpoint norms_pass (in_file : file) (npts in_dims block_size : Z) (blocks : list Z)
    (pos : Z) (st : list SpecFloat.spec_float * SpecFloat.spec_float)
    : option (list SpecFloat.spec_float * SpecFloat.spec_float) :=
  match blocks with
  | [] => Some st
  | b :: blocks' =>
      let start_id := b * block_size in
      let block_pts := block_end npts block_size b - start_id in
      let n := block_pts * in_dims * sizeof T in
      let block := read_at in_file pos n in
      if Z.of_nat (length block) <? n then None
      else norms_pass in_file npts in_dims block_size blocks' (pos + n)
             (norms_of_block block in_dims start_id block_pts st)
  end.

(** The body of the loop over the points [p] of a block, in the second
    pass. *)
Definition scale_point (block : list byte) (in_dims out_dims : Z)
    (norms : list SpecFloat.spec_float) (max_norm : SpecFloat.spec_float)
    (start_id : Z) (out_block : list SpecFloat.spec_float) (p : Z)
    : list SpecFloat.spec_float :=
  let out_block' :=
    foldl (fun out j =>
             <[Z.to_nat (p * out_dims + j) :=
                 Float32.div (to_float T (element_at block (p * in_dims + j)))
                   max_norm]> out)
          out_block (seqZ 0 in_dims) in
  let res :=
    Float32.sub Float32.one
      (Float32.div (nth (Z.to_nat (start_id + p)) norms Float32.zero)
         (Float32.mul max_norm max_norm)) in
  let res := if SpecFloat.SFleb res Float32.zero then Float32.zero else Float32.sqrt res in
  <[Z.to_nat (p * out_dims + out_dims - 1) := res]> out_block'.

(** The second pass; [written] is what [out_writer] has received. *)
Fixpoint scale_pass (in_file : file) (npts in_dims out_dims block_size : Z)
    (norms : list SpecFloat.spec_float) (max_norm : SpecFloat.spec_float)
    (blocks : list Z) (pos : Z) (out_block written : list SpecFloat.spec_float)
    : option (list SpecFloat.spec_float) :=
  match blocks with
  | [] => Some written
  | b :: blocks' =>
      let start_id := b * block_size in
      let block_pts := block_end npts block_size b - start_id in
      let n := block_pts * in_dims * sizeof T in
      let block := read_at in_file pos n in
      if Z.of_nat (length block) <? n then None
      else
        let out_block' :=
          foldl (scale_point block in_dims out_dims norms max_norm start_id)
            out_block (seqZ 0 block_pts) in
        scale_pass in_file npts in_dims out_dims block_size norms max_norm blocks'
          (pos + n) out_block'
          (written ++ take (Z.to_nat (block_pts * out_dims)) out_block')
  end.

(** The function; the sizes are below 2^32 * 100000, so that none of the
    products in [_u64] wraps round.  The input file can be opened and the
    output file written. *)
Definition prepare_base_for_inner_products (in_file : file) : prepare_result :=
  match read_header in_file with
  | None => PrepareUndefined
  | Some (npts32, dims32) =>
      let npts := npts32 in
      let in_dims := dims32 in
      let out_dims := in_dims + 1 in
      let outdims32 := U32.wrap out_dims in
      let block_size := if npts <=? BLOCK_SIZE then npts else BLOCK_SIZE in
      if block_size =? 0 then PrepareUndefined
      else
        let num_blocks := DIV_ROUND_UP npts block_size in
        let norms := replicate (Z.to_nat npts) Float32.zero in
        match norms_pass in_file npts in_dims block_size (seqZ 0 num_blocks)
                (2 * 4) (norms, Float32.zero) with
        | None => PrepareShortInput
        | Some (norms, max_norm) =>
            let max_norm := Float32.sqrt max_norm in
            match scale_pass in_file npts in_dims out_dims block_size norms max_norm
                    (seqZ 0 num_blocks) (2 * 4)
                    (replicate (Z.to_nat (block_size * out_dims)) Float32.zero) [] with
            | None => PrepareShortInput
            | Some written =>
                Prepared max_norm
                  {| out_npts := npts32; out_dims := outdims32; out_values := written |}
            end
        end
  end.

(** The vectors of a base file, each as the list of its elements. *)
Definition base_vectors (in_file : file) (npts in_dims : Z) : list (list (list byte)) :=
  map (fun i =>
         map (fun j => read_at in_file (8 + (i * in_dims + j) * sizeof T) (sizeof T))
             (seqZ 0 in_dims))
      (seqZ 0 npts).

(** The squared norm of a vector as the first pass accumulates it. *)
Definition squared_norm (v : list (list byte)) : SpecFloat.spec_float :=
  foldl (fun n x => Float32.add n (square T x)) Float32.zero v.

(** The largest of the squared norms, as the first pass finds it. *)
Definition largest_norm (vs : list (list (list byte))) : SpecFloat.spec_float :=
  foldl (fun m v => larger m (squared_norm v)) Float32.zero vs.

(** The coordinate the second pass appends to a vector of squared norm [n]. *)
Definition last_coordinate (n max_norm : SpecFloat.spec_float) : SpecFloat.spec_float :=
  let res := Float32.sub Float32.one (Float32.div n (Float32.mul max_norm max_norm)) in
  if SpecFloat.SFleb res Float32.zero then Float32.zero else Float32.sqrt res.

(** A vector divided by [max_norm], with the appended coordinate. *)
Definition augmented (max_norm : SpecFloat.spec_float) (v : list (list byte))
    : list SpecFloat.spec_float :=
  map (fun x => Float32.div (to_float T x) max_norm) v
  ++ [last_coordinate (squared_norm v) max_norm].

(** The norms and the maximum of the first pass once the first [k] vectors
    of [vs] are done, [npts] being their number. *)
Definition norms_after (vs : list (list (list byte))) (npts : Z) (k : nat)
    : list SpecFloat.spec_float * SpecFloat.spec_float :=
  (map squared_norm (take k vs) ++ replicate (Z.to_nat npts - k) Float32.zero,
   largest_norm (take k vs)).

End Prepare.

(** ** Inputs of the examples *)

(** The scenario of the specification: 1000 points of dimension 4 of type
    [int8]. *)
Definition scenario_file : file :=
  [xe8; x03; x00; x00; x04; x00; x00; x00] ++ replicate 4000 x07.

(** Twelve points of dimension 1 of type [uint8]. *)
Definition small_file : file :=
  [x0c; x00; x00; x00; x01; x00; x00; x00] ++ replicate 12 x01.

(** Three points of dimension 2 of type [uint8]. *)
Definition tiny_file : file :=
  [x03; x00; x00; x00; x02; x00; x00; x00; x01; x02; x03; x04; x05; x06].

(** A truthset of one query with one neighbour, id and distance. *)
Definition tiny_truthset : file :=
  [x01; x00; x00; x00; x01; x00; x00; x00; x2a; x00; x00; x00; x00; x00; x80; x3f].


(** Two points of dimension 2 of type [float], all coordinates zero. *)
Definition zero_base_file : file :=
  [x02; x00; x00; x00; x02; x00; x00; x00] ++ replicate 16 x00.

(** * Properties *)
(** ** Machine arithmetic *)

Lemma wrap_small (x : Z) : 0 <= x < 2 ^ 64 -> SizeT.wrap x = x.
Proof. intros H. unfold SizeT.wrap, SizeT.modulus. apply Z.mod_small. exact H. Qed.

Lemma wrap_range (x : Z) : 0 <= SizeT.wrap x < 2 ^ 64.
Proof. unfold SizeT.wrap, SizeT.modulus. apply Z.mod_pos_bound. lia. Qed.

Lemma u32_small (x : Z) : 0 <= x < 2 ^ 32 -> U32.wrap x = x.
Proof. intros H. unfold U32.wrap, U32.modulus. apply Z.mod_small. exact H. Qed.

Lemma u32_range (x : Z) : 0 <= U32.wrap x < 2 ^ 32.
Proof. unfold U32.wrap, U32.modulus. apply Z.mod_pos_bound. lia. Qed.

Lemma add_small (a b : Z) : 0 <= a + b < 2 ^ 64 -> SizeT.add a b = a + b.
Proof. apply wrap_small. Qed.

Lemma sub_small (a b : Z) : 0 <= a - b < 2 ^ 64 -> SizeT.sub a b = a - b.
Proof. apply wrap_small. Qed.

Lemma mul_small (a b : Z) : 0 <= a * b < 2 ^ 64 -> SizeT.mul a b = a * b.
Proof. apply wrap_small. Qed.

(** [ROUND_UP(d, 8)] is the least multiple of 8 that is at least [d]. *)
Lemma ROUND_UP_8 (d : Z) :
  0 <= d < 2 ^ 63 ->
  ROUND_UP d 8 = 8 * ((d + 7) / 8) /\
  ROUND_UP d 8 mod 8 = 0 /\ d <= ROUND_UP d 8 < d + 8.
Proof.
  intros Hd. unfold ROUND_UP.
  rewrite (wrap_small d) by lia.
  assert (Hq : d = 8 * (d / 8) + d mod 8) by (apply Z.div_mod; lia).
  assert (Hr : 0 <= d mod 8 < 8) by (apply Z.mod_pos_bound; lia).
  assert (Hv : (d / 8 + (if d mod 8 =? 0 then 0 else 1)) * 8 = 8 * ((d + 7) / 8)).
  { destruct (Z.eqb_spec (d mod 8) 0) as [E|E].
    - assert ((d + 7) / 8 = d / 8); [|lia].
      symmetry. apply (Z.div_unique (d + 7) 8 (d / 8) 7); lia.
    - assert ((d + 7) / 8 = d / 8 + 1); [|lia].
      symmetry. apply (Z.div_unique (d + 7) 8 (d / 8 + 1) (d mod 8 - 1)); lia. }
  assert (Hb : d <= 8 * ((d + 7) / 8) < d + 8).
  { pose proof (Z.div_mod (d + 7) 8 ltac:(lia)).
    pose proof (Z.mod_pos_bound (d + 7) 8 ltac:(lia)). lia. }
  rewrite add_small, mul_small.
  - rewrite Hv. split; [reflexivity|]. split; [|lia].
    rewrite Z.mul_comm. apply Z.mod_mul. lia.
  - rewrite Hv. lia.
  - destruct (d mod 8 =? 0); lia.
Qed.

(** ** Reads and writes *)

Lemma length_read_at (f : file) (pos n : Z) :
  0 <= pos -> 0 <= n -> pos + n <= file_size f ->
  Z.of_nat (length (read_at f pos n)) = n.
Proof.
  intros Hp Hn Hle. unfold read_at, file_size in *.
  rewrite length_take, length_drop. lia.
Qed.

Lemma lookup_read_at (f : file) (pos n : Z) (q : nat) :
  0 <= pos -> Z.of_nat q < n ->
  read_at f pos n !! q = f !! Z.to_nat (pos + Z.of_nat q).
Proof.
  intros Hp Hq. unfold read_at.
  rewrite lookup_take_lt by lia. rewrite lookup_drop. f_equal. lia.
Qed.

Lemma write_bytes_Some (off : Z) (bs data : list byte) :
  0 <= off -> off + Z.of_nat (length bs) <= Z.of_nat (length data) ->
  exists data', write_bytes off bs data = Some data'.
Proof.
  intros H1 H2. unfold write_bytes. case_decide; [eauto|lia].
Qed.

Lemma write_bytes_spec (off : Z) (bs data data' : list byte) :
  write_bytes off bs data = Some data' ->
  length data' = length data /\
  forall q : nat,
    data' !! q =
      if decide (off <= Z.of_nat q < off + Z.of_nat (length bs))
      then bs !! (q - Z.to_nat off)%nat else data !! q.
Proof.
  unfold write_bytes. case_decide as Hin; [|discriminate].
  intros [= <-]. destruct Hin as [H0 Hle]. split.
  - rewrite !length_app, length_take, length_drop. lia.
  - intros q. case_decide as Hq.
    + rewrite lookup_app_r by (rewrite length_take; lia).
      rewrite length_take.
      replace (q - Nat.min (Z.to_nat off) (length data))%nat with (q - Z.to_nat off)%nat by lia.
      apply lookup_app_l. lia.
    + destruct (decide (Z.of_nat q < off)) as [Hlt|Hge].
      * rewrite lookup_app_l by (rewrite length_take; lia).
        apply lookup_take_lt. lia.
      * rewrite lookup_app_r by (rewrite length_take; lia).
        rewrite lookup_app_r by (rewrite length_take; lia).
        rewrite lookup_drop, length_take. f_equal. lia.
Qed.
Lemma read_points_spec (sz dim rd : Z) (f : file) (n : nat) :
  0 < sz -> 0 <= dim <= rd -> rd * sz < 2 ^ 64 ->
  forall (i pos : Z) (data : list byte),
    0 <= i -> 0 <= pos ->
    pos + Z.of_nat n * (dim * sz) <= file_size f ->
    (i + Z.of_nat n) * (rd * sz) <= Z.of_nat (length data) ->
    (i + Z.of_nat n) * rd < 2 ^ 64 ->
    exists data',
      read_points sz dim rd f n i pos data = (Loaded, data') /\
      length data' = length data /\
      (forall k o : Z, 0 <= k < Z.of_nat n -> 0 <= o < rd * sz ->
         data' !! Z.to_nat ((i + k) * (rd * sz) + o) =
           if o <? dim * sz then f !! Z.to_nat (pos + k * (dim * sz) + o)
           else Some x00) /\
      (forall q : nat,
         Z.of_nat q < i * (rd * sz) \/ (i + Z.of_nat n) * (rd * sz) <= Z.of_nat q ->
         data' !! q = data !! q).
Proof.
  intros Hsz Hdim Hrow.
  assert (HD : 0 <= dim * sz <= rd * sz) by nia.
  induction n as [|n IH]; intros i pos data Hi Hpos Hfile Hbuf Hidx.
  - exists data. simpl.
    split; [reflexivity|]. split; [reflexivity|]. split; [intros; lia|reflexivity].
  - simpl read_points.
    set (D := dim * sz) in *. set (R := rd * sz) in *.
    assert (HnD : 0 <= Z.of_nat n * D) by (apply Z.mul_nonneg_nonneg; lia).
    assert (HnR : 0 <= Z.of_nat n * R) by (apply Z.mul_nonneg_nonneg; lia).
    assert (HiR : 0 <= i * R) by (apply Z.mul_nonneg_nonneg; lia).
    assert (Hnr : 0 <= Z.of_nat n * rd) by (apply Z.mul_nonneg_nonneg; lia).
    assert (Hir : 0 <= i * rd) by (apply Z.mul_nonneg_nonneg; lia).
    rewrite (mul_small dim sz) by (fold D; lia). fold D.
    rewrite (mul_small i rd) by lia.
    replace (i * rd * sz) with (i * R) by (unfold R; ring).
    assert (Hgot : Z.of_nat (length (read_at f pos D)) = D)
      by (apply length_read_at; lia).
    destruct (write_bytes_Some (i * R) (read_at f pos D) data) as [data1 Hw1]; [lia|lia|].
    rewrite Hw1. destruct (write_bytes_spec _ _ _ _ Hw1) as [Hlen1 Hlk1].
    rewrite Hgot, Z.ltb_irrefl.
    rewrite (sub_small rd dim) by lia.
    rewrite (mul_small (rd - dim) sz) by nia.
    replace ((rd - dim) * sz) with (R - D) by (unfold R, D; ring).
    replace ((i * rd + dim) * sz) with (i * R + D) by (unfold R, D; ring).
    destruct (write_bytes_Some (i * R + D) (replicate (Z.to_nat (R - D)) x00) data1)
      as [data2 Hw2]; [lia|rewrite length_replicate; lia|].
    rewrite Hw2. destruct (write_bytes_spec _ _ _ _ Hw2) as [Hlen2 Hlk2].
    rewrite length_replicate in Hlk2.
    destruct (IH (i + 1) (pos + D) data2) as (data' & Hrun & Hlen & Hin & Hout);
      [lia|lia|lia|lia|lia|].
    exists data'. split; [exact Hrun|]. split; [congruence|]. split.
    + intros k o Hk Ho.
      destruct (decide (k = 0)) as [->|Hk0].
      * rewrite Hout by lia. rewrite Hlk2, Hlk1, Hgot.
        destruct (Z.ltb_spec o D) as [HoD|HoD].
        -- rewrite decide_False by lia. rewrite decide_True by lia.
           rewrite lookup_read_at by lia. f_equal. lia.
        -- rewrite decide_True by lia. apply lookup_replicate_2. lia.
      * specialize (Hin (k - 1) o ltac:(lia) Ho).
        replace ((i + 1 + (k - 1)) * R + o) with ((i + k) * R + o) in Hin by ring.
        rewrite Hin.
        replace (pos + D + (k - 1) * D + o) with (pos + k * D + o) by ring.
        reflexivity.
    + intros q Hq. rewrite Hout by lia. rewrite Hlk2, Hlk1, Hgot.
      rewrite !decide_False by lia. reflexivity.
Qed.
(** ** Header words *)

Lemma le_value_range (bs : list byte) :
  0 <= le_value bs < 256 ^ Z.of_nat (length bs).
Proof.
  induction bs as [|b bs IH].
  - simpl. lia.
  - cbn [le_value fold_right length]. fold (le_value bs).
    pose proof (Byte.to_N_bounded b) as Hb.
    rewrite Nat2Z.inj_succ, Z.pow_succ_r by lia.
    lia.
Qed.

Lemma read_word_range (f : file) (pos v : Z) :
  read_word f pos = Some v -> 0 <= v < 2 ^ 32.
Proof.
  unfold read_word. case_decide as Hlen; [|discriminate].
  intros [= <-]. pose proof (le_value_range (read_at f pos 4)) as H.
  rewrite Hlen in H. exact H.
Qed.

Lemma read_header_range (f : file) (n d : Z) :
  read_header f = Some (n, d) -> 0 <= n < 2 ^ 32 /\ 0 <= d < 2 ^ 32.
Proof.
  unfold read_header.
  destruct (read_word f 0) as [n'|] eqn:Hn; [|discriminate].
  destruct (read_word f 4) as [d'|] eqn:Hd; [|discriminate].
  intros [= <- <-]. eauto using read_word_range.
Qed.

(** ** [load_aligned_bin_part] on a well-formed file *)

Lemma load_aligned_bin_part_ok (sz : Z) (f : file) (data : list byte)
    (offset_points points_to_read npts dim : Z) :
  0 < sz <= 8 ->
  read_header f = Some (npts, dim) ->
  file_size f = 8 + npts * dim * sz ->
  file_size f < 2 ^ 63 ->
  0 <= offset_points -> 0 <= points_to_read ->
  offset_points + points_to_read <= npts ->
  points_to_read * (ROUND_UP dim 8 * sz) <= Z.of_nat (length data) ->
  Z.of_nat (length data) < 2 ^ 64 ->
  exists data',
    load_aligned_bin_part sz f data offset_points points_to_read = (Loaded, data') /\
    length data' = length data /\
    (forall i j b : Z,
       0 <= i < points_to_read -> 0 <= j < ROUND_UP dim 8 -> 0 <= b < sz ->
       data' !! Z.to_nat ((i * ROUND_UP dim 8 + j) * sz + b) =
         if j <? dim
         then f !! Z.to_nat (8 + ((offset_points + i) * dim + j) * sz + b)
         else Some x00) /\
    (forall q : nat,
       points_to_read * (ROUND_UP dim 8 * sz) <= Z.of_nat q -> data' !! q = data !! q).
Proof.
  intros Hsz Hhdr Hsize Hreal Hoff Hcnt Hrange Hbuf Hmem.
  destruct (read_header_range _ _ _ Hhdr) as [Hn Hd].
  destruct (ROUND_UP_8 dim ltac:(lia)) as (_ & _ & Hrd).
  set (rd := ROUND_UP dim 8) in *.
  assert (Hnd : 0 <= npts * dim) by (apply Z.mul_nonneg_nonneg; lia).
  assert (Hnds : npts * dim <= npts * dim * sz) by nia.
  assert (Hod : 0 <= offset_points * dim <= npts * dim) by nia.
  assert (Hods : 0 <= offset_points * dim * sz <= npts * dim * sz)
    by (split; [apply Z.mul_nonneg_nonneg; lia | apply Z.mul_le_mono_nonneg_r; lia]).
  assert (Hcr0 : 0 <= points_to_read * rd) by (apply Z.mul_nonneg_nonneg; lia).
  assert (Hcr : points_to_read * rd <= points_to_read * (rd * sz))
    by (rewrite Z.mul_assoc; nia).
  unfold load_aligned_bin_part. rewrite Hhdr.
  unfold of_int_as_unsigned. rewrite !u32_small by lia.
  rewrite (mul_small npts dim) by lia.
  rewrite (mul_small (npts * dim) sz) by lia.
  rewrite add_small by lia.
  replace (file_size f =? npts * dim * sz + 2 * 4) with true
    by (symmetry; apply Z.eqb_eq; lia).
  cbn [negb]. rewrite add_small by lia.
  replace (offset_points + points_to_read >? npts) with false
    by (symmetry; rewrite Z.gtb_ltb; apply Z.ltb_ge; lia).
  rewrite (mul_small offset_points dim) by lia.
  rewrite (mul_small (offset_points * dim) sz) by lia.
  rewrite add_small by lia.
  fold rd.
  destruct (read_points_spec sz dim rd f (Z.to_nat points_to_read)
              ltac:(lia) ltac:(lia) ltac:(nia) 0
              (2 * 4 + offset_points * dim * sz) data)
    as (data' & Hrun & Hlen & Hin & Hout).
  - lia.
  - lia.
  - rewrite Z2Nat.id by lia.
    assert ((offset_points + points_to_read) * dim <= npts * dim) by nia.
    assert ((offset_points + points_to_read) * dim * sz <= npts * dim * sz) by nia.
    lia.
  - rewrite Z2Nat.id by lia. lia.
  - rewrite Z2Nat.id by lia. lia.
  - exists data'. split; [exact Hrun|]. split; [exact Hlen|]. split.
    + intros i j b Hi Hj Hb.
      assert (Ho : 0 <= j * sz + b < rd * sz) by nia.
      specialize (Hin i (j * sz + b) ltac:(lia) Ho).
      replace ((0 + i) * (rd * sz) + (j * sz + b)) with ((i * rd + j) * sz + b) in Hin by ring.
      rewrite Hin.
      replace (2 * 4 + offset_points * dim * sz + i * (dim * sz) + (j * sz + b))
        with (8 + ((offset_points + i) * dim + j) * sz + b) by ring.
      destruct (Z.ltb_spec j dim) as [Hjd|Hjd].
      * replace (j * sz + b <? dim * sz) with true; [reflexivity|].
        symmetry. apply Z.ltb_lt. nia.
      * replace (j * sz + b <? dim * sz) with false; [reflexivity|].
        symmetry. apply Z.ltb_ge. nia.
    + intros q Hq. apply Hout. right. rewrite Z2Nat.id by lia. lia.
Qed.

(** C7. Every batch that [load_aligned_bin_part] loads for the driver is
    stored point by point in rows of [aligned_dim = ROUND_UP(dim, 8)]
    coordinates, the least multiple of 8 that is at least [dim]: in row [i],
    the coordinates [j < dim] hold the bytes of coordinate [j] of point
    [offset_points + i] of the file, the padding coordinates
    [dim <= j < aligned_dim] hold zero bytes. *)
Theorem load_aligned_bin_part_zero_padded (sz : Z) (f : file) (data : list byte)
    (offset_points points_to_read npts dim : Z) :
  0 < sz <= 8 ->
  read_header f = Some (npts, dim) ->
  file_size f = 8 + npts * dim * sz ->
  file_size f < 2 ^ 63 ->
  0 <= offset_points -> 0 <= points_to_read ->
  offset_points + points_to_read <= npts ->
  points_to_read * (ROUND_UP dim 8 * sz) <= Z.of_nat (length data) ->
  Z.of_nat (length data) < 2 ^ 64 ->
  let aligned_dim := ROUND_UP dim 8 in
  aligned_dim mod 8 = 0 /\ dim <= aligned_dim < dim + 8 /\
  exists data',
    load_aligned_bin_part sz f data offset_points points_to_read = (Loaded, data') /\
    forall i j b : Z,
      0 <= i < points_to_read -> 0 <= j < aligned_dim -> 0 <= b < sz ->
      data' !! Z.to_nat ((i * aligned_dim + j) * sz + b) =
        if j <? dim
        then f !! Z.to_nat (8 + ((offset_points + i) * dim + j) * sz + b)
        else Some x00.
Proof.
  intros Hsz Hhdr Hsize Hreal Hoff Hcnt Hrange Hbuf Hmem aligned_dim.
  destruct (read_header_range _ _ _ Hhdr) as [_ Hd].
  destruct (ROUND_UP_8 dim ltac:(lia)) as (_ & Hmod & Hbounds).
  split; [exact Hmod|]. split; [exact Hbounds|].
  destruct (load_aligned_bin_part_ok sz f data offset_points points_to_read npts dim)
    as (data' & Hrun & _ & Hin & _); try assumption.
  exists data'. split; [exact Hrun|exact Hin].
Qed.

(** The loop of the loader ends normally, in a failure of the stream or in
    a write outside the buffer. *)
Lemma read_points_status (sz dim rd : Z) (f : file) (n : nat) :
  forall (i pos : Z) (data : list byte),
    let st := fst (read_points sz dim rd f n i pos data) in
    st = Loaded \/ st = StreamFailure \/ st = BufferOverrun.
Proof.
  induction n as [|n IH]; intros i pos data; cbn [read_points]; [auto|].
  destruct (write_bytes _ _ data) as [data1|]; [|auto].
  destruct (_ <? _); [auto|].
  destruct (write_bytes _ _ data1) as [data2|]; [|auto].
  apply IH.
Qed.

(** The loader after its header: the two checks, then the loop. *)
Lemma load_aligned_bin_part_checks (sz : Z) (f : file) (data : list byte)
    (offset_points points_to_read npts dim : Z) :
  read_header f = Some (npts, dim) ->
  load_aligned_bin_part sz f data offset_points points_to_read =
    if negb (file_size f =? SizeT.add (SizeT.mul (SizeT.mul npts dim) sz) 8)
    then (FileSizeMismatch, data)
    else if (offset_points + points_to_read) mod 2 ^ 64 >? npts
         then (NotEnoughPoints, data)
         else read_points sz dim (ROUND_UP dim 8) f (Z.to_nat points_to_read) 0
                (SizeT.add 8 (SizeT.mul (SizeT.mul offset_points dim) sz)) data.
Proof.
  intros Hhdr. destruct (read_header_range _ _ _ Hhdr) as [Hn Hd].
  unfold load_aligned_bin_part. rewrite Hhdr.
  unfold of_int_as_unsigned. rewrite !u32_small by lia. reflexivity.
Qed.

Lemma load_aligned_bin_part_out_of_range (sz : Z) (f : file) (data : list byte)
    (offset_points points_to_read npts dim : Z) :
  read_header f = Some (npts, dim) ->
  (offset_points + points_to_read) mod 2 ^ 64 > npts ->
  load_aligned_bin_part sz f data offset_points points_to_read =
    (if file_size f =? SizeT.add (SizeT.mul (SizeT.mul npts dim) sz) 8
     then NotEnoughPoints else FileSizeMismatch, data).
Proof.
  intros Hhdr Hgt. rewrite (load_aligned_bin_part_checks _ _ _ _ _ _ _ Hhdr).
  destruct (file_size f =? _); cbn [negb]; [|reflexivity].
  replace (_ >? npts) with true
    by (symmetry; rewrite Z.gtb_ltb; apply Z.ltb_lt; lia).
  reflexivity.
Qed.

(** X22. The range check of [load_aligned_bin_part] compares the [size_t]
    sum [offset_points + points_to_read] with [npts].  A request whose sum,
    taken modulo [2^64], exceeds [npts] makes the loader throw and leaves
    the destination buffer as it was, with the exception of the range
    check when the size of the file agrees with its header; this is so for
    every request with [offset_points + points_to_read > npts] whose sum
    is below [2^64].  A request that passes the two checks never ends in
    one of their exceptions. *)
Theorem load_aligned_bin_part_range_check (sz : Z) (f : file) (data : list byte)
    (offset_points points_to_read npts dim : Z) :
  read_header f = Some (npts, dim) ->
  let size_ok := file_size f =? SizeT.add (SizeT.mul (SizeT.mul npts dim) sz) 8 in
  let run := load_aligned_bin_part sz f data offset_points points_to_read in
  ((offset_points + points_to_read) mod 2 ^ 64 > npts ->
   run = (if size_ok then NotEnoughPoints else FileSizeMismatch, data)) /\
  (0 <= offset_points -> 0 <= points_to_read ->
   offset_points + points_to_read < 2 ^ 64 ->
   offset_points + points_to_read > npts ->
   run = (if size_ok then NotEnoughPoints else FileSizeMismatch, data)) /\
  ((offset_points + points_to_read) mod 2 ^ 64 <= npts -> size_ok = true ->
   fst run = Loaded \/ fst run = StreamFailure \/ fst run = BufferOverrun).
Proof.
  intros Hhdr size_ok run.
  assert (Hthrow : (offset_points + points_to_read) mod 2 ^ 64 > npts ->
            run = (if size_ok then NotEnoughPoints else FileSizeMismatch, data))
    by (intros Hgt; eapply load_aligned_bin_part_out_of_range; eassumption).
  split; [exact Hthrow|]. split.
  - intros Hoff Hcnt Hfit Hgt. apply Hthrow. rewrite Z.mod_small by lia. exact Hgt.
  - intros Hle Hsize. unfold run.
    rewrite (load_aligned_bin_part_checks _ _ _ _ _ _ _ Hhdr).
    fold size_ok. rewrite Hsize. cbn [negb].
    replace (_ >? npts) with false
      by (symmetry; rewrite Z.gtb_ltb; apply Z.ltb_ge; lia).
    apply read_points_status.
Qed.

(** ** [load_truthset] *)

Lemma cached_read_ok (f : file) (pos n : Z) :
  0 <= pos -> 0 <= n -> pos + n <= file_size f ->
  cached_read f pos n = Some (read_at f pos n).
Proof.
  intros Hp Hn Hle. unfold cached_read.
  rewrite length_read_at by assumption. rewrite Z.ltb_irrefl. reflexivity.
Qed.

Lemma read_header_size (f : file) (n d : Z) :
  read_header f = Some (n, d) -> 8 <= file_size f.
Proof.
  unfold read_header, read_word.
  destruct (decide (length (read_at f 0 4) = 4%nat)); [|discriminate].
  destruct (decide (length (read_at f 4 4) = 4%nat)) as [H4|]; [|discriminate].
  intros _. unfold read_at in H4. rewrite length_take, length_drop in H4.
  unfold file_size. lia.
Qed.

(** The size with distances, as the code computes it, against its value. *)
Lemma with_dists_size (f : file) (npts dim : Z) :
  0 <= npts < 2 ^ 32 -> 0 <= dim < 2 ^ 32 -> npts * dim * 4 < 2 ^ 63 ->
  8 <= file_size f < 2 ^ 63 ->
  (file_size f =? SizeT.add (SizeT.mul (SizeT.mul (SizeT.mul 2 npts) dim) 4) 8)
  = (file_size f =? 8 + 2 * npts * dim * 4).
Proof.
  intros Hn Hd Hsmall Hsize.
  assert (Hnd : 0 <= npts * dim) by (apply Z.mul_nonneg_nonneg; lia).
  rewrite (mul_small 2 npts) by lia.
  rewrite (mul_small (2 * npts) dim) by lia.
  rewrite (mul_small (2 * npts * dim) 4) by lia.
  destruct (Z.eq_dec (2 * npts * dim * 4 + 8) (2 ^ 64)) as [E|NE].
  - unfold SizeT.add, SizeT.wrap, SizeT.modulus. rewrite E, Z.mod_same by lia.
    destruct (Z.eqb_spec (file_size f) 0),
             (Z.eqb_spec (file_size f) (8 + 2 * npts * dim * 4));
      try reflexivity; lia.
  - rewrite add_small by lia. f_equal. ring.
Qed.

Lemma load_truthset_exact (f : file) (npts dim : Z) :
  read_header f = Some (npts, dim) ->
  file_size f < 2 ^ 63 ->
  npts * dim * 4 < 2 ^ 63 ->
  load_truthset f =
    if file_size f =? 8 + npts * dim * 4 then
      TruthsetLoaded (read_at f 8 (npts * dim * 4)) None npts dim
    else if file_size f =? 8 + 2 * npts * dim * 4 then
      TruthsetLoaded (read_at f 8 (npts * dim * 4))
        (Some (read_at f (8 + npts * dim * 4) (npts * dim * 4))) npts dim
    else TruthsetSizeMismatch.
Proof.
  intros Hhdr Hreal Hsmall.
  destruct (read_header_range _ _ _ Hhdr) as [Hn Hd].
  pose proof (read_header_size _ _ _ Hhdr) as Hsize.
  assert (Hnd : 0 <= npts * dim) by (apply Z.mul_nonneg_nonneg; lia).
  unfold load_truthset. rewrite Hhdr.
  unfold of_int_as_unsigned. rewrite !u32_small by lia.
  change (2 * 4) with 8.
  rewrite with_dists_size by lia.
  rewrite (mul_small npts dim) by lia.
  rewrite (mul_small (npts * dim) 4) by lia.
  rewrite (add_small (npts * dim * 4) 8) by lia.
  replace (npts * dim * 4 + 8) with (8 + npts * dim * 4) by ring.
  unfold new_array_ok, PTRDIFF_MAX.
  replace (npts * dim * 4 <=? 2 ^ 63 - 1) with true
    by (symmetry; apply Z.leb_le; lia).
  cbn [negb].
  destruct (Z.eqb_spec (file_size f) (8 + npts * dim * 4)) as [Eids|Nids].
  - rewrite cached_read_ok by lia.
    destruct (file_size f =? 8 + 2 * npts * dim * 4); reflexivity.
  - destruct (Z.eqb_spec (file_size f) (8 + 2 * npts * dim * 4)) as [Ewith|Nwith].
    + cbn [Z.eqb]. rewrite !cached_read_ok by lia. reflexivity.
    + reflexivity.
Qed.

Lemma load_truthset_huge (f : file) (npts dim : Z) :
  read_header f = Some (npts, dim) ->
  2 ^ 63 <= npts * dim * 4 ->
  load_truthset f = TruthsetSizeMismatch \/ load_truthset f = TruthsetBadAlloc.
Proof.
  intros Hhdr Hbig.
  destruct (read_header_range _ _ _ Hhdr) as [Hn Hd].
  unfold load_truthset. rewrite Hhdr.
  unfold of_int_as_unsigned. rewrite !u32_small by lia.
  rewrite (mul_small npts dim) by nia.
  unfold new_array_ok, PTRDIFF_MAX.
  replace (npts * dim * 4 <=? 2 ^ 63 - 1) with false
    by (symmetry; apply Z.leb_gt; lia).
  cbn [negb].
  match goal with
  | |- context [if ?c =? -1 then _ else _] => destruct (c =? -1)
  end; [left|right]; reflexivity.
Qed.

(** C9. A truthset file with header [npts], [dim] is loaded exactly when
    its size is [8 + npts*dim*4] (ids only) or [8 + 2*npts*dim*4] (ids, then
    distances); any other size ends in an exception; and the size decides
    the variant: the distances are absent exactly when the size is that of
    the ids-only layout. *)
Theorem load_truthset_size_decides (f : file) (npts dim : Z) :
  read_header f = Some (npts, dim) ->
  file_size f < 2 ^ 63 ->
  let ids_only := 8 + npts * dim * 4 in
  let with_dists := 8 + 2 * npts * dim * 4 in
  ((exists ids dists, load_truthset f = TruthsetLoaded ids dists npts dim) <->
   (file_size f = ids_only \/ file_size f = with_dists)) /\
  (~ (file_size f = ids_only \/ file_size f = with_dists) ->
   load_truthset f = TruthsetSizeMismatch \/ load_truthset f = TruthsetBadAlloc) /\
  (forall ids dists, load_truthset f = TruthsetLoaded ids dists npts dim ->
   ids = read_at f 8 (npts * dim * 4) /\
   dists = if file_size f =? ids_only then None
           else Some (read_at f (8 + npts * dim * 4) (npts * dim * 4))).
Proof.
  intros Hhdr Hreal ids_only with_dists.
  destruct (read_header_range _ _ _ Hhdr) as [Hn Hd].
  destruct (Z_lt_le_dec (npts * dim * 4) (2 ^ 63)) as [Hsmall|Hbig].
  - rewrite (load_truthset_exact f npts dim Hhdr Hreal Hsmall).
    fold ids_only with_dists.
    destruct (Z.eqb_spec (file_size f) ids_only) as [Eids|Nids];
      [|destruct (Z.eqb_spec (file_size f) with_dists) as [Ewith|Nwith]].
    + split; [split; [tauto | eauto] |]. split; [tauto|].
      intros ids dists [= <- <-]. split; reflexivity.
    + split; [split; [tauto | eauto] |]. split; [tauto|].
      intros ids dists [= <- <-]. split; reflexivity.
    + split; [split; [intros (? & ? & [=]) | tauto] |]. split; [tauto|].
      intros ids dists [=].
  - assert (Hno : ~ (file_size f = ids_only \/ file_size f = with_dists))
      by (unfold ids_only, with_dists; lia).
    pose proof (load_truthset_huge f npts dim Hhdr Hbig) as Hthrow.
    split; [split; [|tauto] |]; [|split; [tauto|]].
    + intros (ids & dists & E). rewrite E in Hthrow. destruct Hthrow; discriminate.
    + intros ids dists E. rewrite E in Hthrow. destruct Hthrow; discriminate.
Qed.

(** ** The retry loop of [delete_and_consolidate] *)

Lemma answered_retried (a : answer) (idx : Index) :
  retried a = true -> answered a idx = idx.
Proof. destruct a as [[]| |]; simpl; intros; (reflexivity || discriminate). Qed.

Lemma consolidate_with_retry_step (r : answer) (answers : list answer)
    (idx : Index) (lg : list event) :
  retried r = true ->
  consolidate_with_retry (r :: answers) idx lg =
  consolidate_with_retry answers idx (lg ++ [EvConsolidate r; EvSleep wait_time]).
Proof.
  intros Hr. unfold consolidate_with_retry. cbn [hd tl].
  rewrite (answered_retried r) by exact Hr.
  replace (lg ++ [EvConsolidate r; EvSleep wait_time])
    with ((lg ++ [EvConsolidate r]) ++ [EvSleep wait_time])
    by (rewrite <- app_assoc; reflexivity).
  destruct r as [[]| |]; try discriminate; destruct answers; reflexivity.
Qed.

Lemma consolidate_with_retry_prefix (rs : list answer) :
  forallb retried rs = true ->
  forall (answers : list answer) (idx : Index) (lg : list event),
    consolidate_with_retry (rs ++ answers) idx lg =
    consolidate_with_retry answers idx (lg ++ backoff_events rs).
Proof.
  induction rs as [|r rs IH]; intros Hall answers idx lg.
  - simpl. rewrite app_nil_r. reflexivity.
  - cbn [forallb] in Hall. apply andb_prop in Hall as [Hr Hrs].
    cbn [app]. rewrite consolidate_with_retry_step by exact Hr.
    rewrite IH by exact Hrs. unfold backoff_events. cbn [flat_map].
    rewrite <- app_assoc. reflexivity.
Qed.

(** The first answer that is not retried ends the task. *)
Lemma consolidate_with_retry_end (answers : list answer) (idx : Index)
    (lg : list event) :
  retried (hd Pending answers) = false ->
  consolidate_with_retry answers idx lg =
  task_end (hd Pending answers)
    (mkWorld (answered (hd Pending answers) idx) (tl answers)
       (lg ++ [EvConsolidate (hd Pending answers)])).
Proof.
  intros H. unfold consolidate_with_retry.
  destruct (hd Pending answers) as [[]|[]|]; try discriminate;
    destruct (tl answers); reflexivity.
Qed.

Lemma lazy_delete_loop_script (n : nat) (i : Z) (w : World) :
  script (lazy_delete_loop n i w) = script w.
Proof.
  revert i w. induction n as [|n IH]; intros i w; simpl; [reflexivity|].
  rewrite IH. reflexivity.
Qed.

(** Every outcome of the loop: the answers that are retried, each followed
    by the sleep, then the first answer [a] that is not retried, which ends
    the task; when the answers are used up the last call has not returned. *)
Lemma consolidate_with_retry_cases (answers : list answer) (idx : Index)
    (lg : list event) :
  exists (rs : list answer) (a : answer) (rest : list answer),
    forallb retried rs = true /\ retried a = false /\
    (answers = rs ++ a :: rest \/ (answers = rs /\ a = Pending /\ rest = [])) /\
    consolidate_with_retry answers idx lg =
      task_end a (mkWorld (answered a idx) rest
                    (lg ++ backoff_events rs ++ [EvConsolidate a])).
Proof.
  revert lg. induction answers as [|s answers IH]; intros lg.
  - exists [], Pending, []. split; [reflexivity|]. split; [reflexivity|].
    split; [right; auto|]. reflexivity.
  - destruct (retried s) eqn:Hs.
    + rewrite consolidate_with_retry_step by exact Hs.
      destruct (IH (lg ++ [EvConsolidate s; EvSleep wait_time]))
        as (rs & a & rest & Hall & Ha & Hshape & Hrun).
      exists (s :: rs), a, rest. split; [cbn; rewrite Hs; exact Hall|].
      split; [exact Ha|]. split.
      * destruct Hshape as [->|(-> & -> & ->)]; [left|right]; auto.
      * rewrite Hrun. unfold backoff_events. cbn [flat_map].
        rewrite <- !app_assoc. reflexivity.
    + exists [], s, answers. split; [reflexivity|]. split; [exact Hs|].
      split; [left; reflexivity|].
      apply (consolidate_with_retry_end (s :: answers)). exact Hs.
Qed.

Lemma successes_app (l1 l2 : list answer) :
  successes (l1 ++ l2) = successes l1 + successes l2.
Proof.
  induction l1 as [|a l1 IH]; [reflexivity|].
  cbn [app successes]. destruct a as [[]| |]; lia.
Qed.

Lemma successes_retried (rs : list answer) :
  forallb retried rs = true -> successes rs = 0.
Proof.
  induction rs as [|r rs IH]; [reflexivity|]. cbn [forallb]. intros H.
  apply andb_prop in H as [Hr Hrs].
  destruct r as [[]| |]; try discriminate; exact (IH Hrs).
Qed.

Lemma successes_nonneg (l : list answer) : 0 <= successes l.
Proof. induction l as [|a l IH]; [reflexivity|]. cbn. destruct a as [[]| |]; lia. Qed.

Lemma known_statuses_app_r (l1 l2 : list answer) :
  known_statuses (l1 ++ l2) -> known_statuses l2.
Proof. unfold known_statuses. rewrite Forall_app. tauto. Qed.

(** With a consolidator that gives named reports only, the task returns
    when a SUCCESS is left among the answers, and is still running when
    none is. *)
Lemma consolidate_with_retry_known (answers : list answer) (idx : Index)
    (lg : list event) :
  known_statuses answers ->
  (1 <= successes answers /\
   exists rs rest,
     forallb retried rs = true /\ answers = rs ++ Reports SUCCESS :: rest /\
     consolidate_with_retry answers idx lg =
       TaskReturned (mkWorld (consolidate_deletes SUCCESS idx) rest
                       (lg ++ backoff_events rs ++ [EvConsolidate (Reports SUCCESS)]))) \/
  (successes answers = 0 /\
   forallb retried answers = true /\
   consolidate_with_retry answers idx lg =
     TaskRunning (mkWorld idx []
                    (lg ++ backoff_events answers ++ [EvConsolidate Pending]))).
Proof.
  intros Hknown.
  destruct (consolidate_with_retry_cases answers idx lg)
    as (rs & a & rest & Hall & Ha & Hshape & Hrun).
  destruct Hshape as [->|(-> & -> & ->)].
  - left. pose proof Hknown as Hk. apply known_statuses_app_r in Hk.
    apply Forall_cons in Hk as [Hnamed _].
    destruct a as [[]| |]; try discriminate.
    split.
    + rewrite successes_app. cbn [successes].
      pose proof (successes_nonneg rs). pose proof (successes_nonneg rest). lia.
    + exists rs, rest. auto.
  - right. split; [apply successes_retried, Hall|]. split; [exact Hall|exact Hrun].
Qed.

(** ** Timed waits of the driver *)

Lemma backoff_waits_weaken (b : bool) (lg : list event) :
  backoff_waits_from false lg -> backoff_waits_from b lg.
Proof.
  destruct lg as [|e lg]; [auto|]. destruct e; cbn; auto.
  intros (H & _). discriminate.
Qed.

Lemma backoff_waits_app (l1 l2 : list event) :
  forall b, backoff_waits_from b l1 -> only_backoff_waits l2 ->
            backoff_waits_from b (l1 ++ l2).
Proof.
  induction l1 as [|e l1 IH]; intros b H1 H2.
  - apply backoff_waits_weaken. exact H2.
  - destruct e; cbn in *; try (apply IH; assumption).
    destruct H1 as (Hb & Hs & H1). auto.
Qed.

Lemma only_backoff_waits_nil : only_backoff_waits [].
Proof. exact I. Qed.

Lemma only_backoff_waits_app (l1 l2 : list event) :
  only_backoff_waits l1 -> only_backoff_waits l2 -> only_backoff_waits (l1 ++ l2).
Proof. apply backoff_waits_app. Qed.

Lemma only_backoff_waits_one (e : event) :
  (forall s, e <> EvSleep s) -> only_backoff_waits [e].
Proof.
  intros He. destruct e; try exact I. exfalso. exact (He _ eq_refl).
Qed.

Lemma only_backoff_waits_emit (e : event) (w : World) :
  only_backoff_waits (log w) ->
  (forall s, e <> EvSleep s) ->
  only_backoff_waits (log (emit e w)).
Proof.
  intros Hw He. unfold emit; cbn [log].
  apply only_backoff_waits_app; [exact Hw|]. apply only_backoff_waits_one, He.
Qed.

Lemma only_backoff_waits_backoff_events (rs : list answer) :
  forallb retried rs = true -> only_backoff_waits (backoff_events rs).
Proof.
  induction rs as [|r rs IH]; intros Hall; [exact I|].
  cbn [forallb] in Hall. apply andb_prop in Hall as [Hr Hrs].
  unfold backoff_events. cbn [flat_map].
  apply (only_backoff_waits_app [_; _]); [|exact (IH Hrs)].
  unfold only_backoff_waits. cbn. rewrite Hr. auto.
Qed.

(** What [only_backoff_waits] says of each timed wait of a log. *)
Lemma backoff_waits_sleep (l1 l2 : list event) (seconds : Z) :
  forall b,
    backoff_waits_from b (l1 ++ EvSleep seconds :: l2) ->
    seconds = wait_time /\
    ((l1 = [] /\ b = true) \/
     exists l0 a, l1 = l0 ++ [EvConsolidate a] /\ retried a = true).
Proof.
  induction l1 as [|e l1 IH]; intros b H.
  - cbn in H. destruct H as (Hb & Hs & _). auto.
  - assert (Hstep : forall b', backoff_waits_from b' (l1 ++ EvSleep seconds :: l2) ->
                      (b' = true -> exists a, e = EvConsolidate a /\ retried a = true) ->
                      seconds = wait_time /\
                      ((e :: l1 = [] /\ b = true) \/
                       exists l0 a, e :: l1 = l0 ++ [EvConsolidate a] /\ retried a = true)).
    { intros b' H' Hb'. destruct (IH b' H') as (Hs & [(-> & Hb)|(l0 & a & -> & Ha)]).
      - split; [exact Hs|]. right. destruct (Hb' Hb) as (a & -> & Ha).
        exists [], a. auto.
      - split; [exact Hs|]. right. exists (e :: l0), a. auto. }
    destruct e; cbn in H.
    + apply (Hstep false H). discriminate.
    + apply (Hstep false H). discriminate.
    + apply (Hstep false H). discriminate.
    + apply (Hstep (retried a) H). intros Ha. exists a. auto.
    + destruct H as (_ & _ & H). apply (Hstep false H). discriminate.
Qed.

Lemma insert_loop_waits (sz : Z) (data : list byte) (aligned_dim : Z)
    (labels : list (list Z)) (start : Z) (order : list Z) :
  forall (w w' : World) (num_failed num_failed' : Z),
    insert_loop sz data aligned_dim labels start order w num_failed
    = Some (w', num_failed') ->
    only_backoff_waits (log w) -> only_backoff_waits (log w').
Proof.
  induction order as [|j order IH]; intros w w' nf nf'.
  - intros [= <- <-]. auto.
  - cbn [insert_loop]. destruct (label_argument labels _) as [lbl|]; [|discriminate].
    destruct (insert_point _ _ _ _) as [r idx]. intros Hrun Hw.
    apply (IH _ _ _ _ Hrun). apply only_backoff_waits_emit; [exact Hw|discriminate].
Qed.

Lemma lazy_delete_loop_waits (n : nat) :
  forall (i : Z) (w : World),
    only_backoff_waits (log w) ->
    only_backoff_waits (log (lazy_delete_loop n i w)).
Proof.
  induction n as [|n IH]; intros i w Hw; [exact Hw|].
  cbn [lazy_delete_loop]. apply IH.
  apply only_backoff_waits_emit; [exact Hw|discriminate].
Qed.

Lemma task_log_task_end (a : answer) (w : World) : task_log (task_end a w) = log w.
Proof. destruct a as [[]|[]|]; reflexivity. Qed.

Lemma task_world_task_end (a : answer) (w : World) : task_world (task_end a w) = w.
Proof. destruct a as [[]|[]|]; reflexivity. Qed.

Lemma delete_and_consolidate_waits (w : World) (start end_ : Z) :
  only_backoff_waits (log w) ->
  only_backoff_waits (task_log (delete_and_consolidate w start end_)).
Proof.
  intros Hw. unfold delete_and_consolidate.
  pose proof (lazy_delete_loop_waits (Z.to_nat (end_ - start)) start w Hw) as H1.
  set (w1 := lazy_delete_loop _ _ _) in *.
  destruct (consolidate_with_retry_cases (script w1) (index w1) (log w1))
    as (rs & a & rest & Hall & _ & _ & ->).
  rewrite task_log_task_end. cbn [log].
  apply only_backoff_waits_app; [exact H1|].
  apply only_backoff_waits_app; [apply only_backoff_waits_backoff_events, Hall|].
  apply only_backoff_waits_one. discriminate.
Qed.

Lemma insert_task_waits (sz : Z) (schedule : list Z -> list Z) (data_path : file)
    (labels : list (list Z)) (aligned_dim start end_ : Z) (data data' : list byte)
    (w w' : World) :
  insert_task sz schedule data_path labels aligned_dim start end_ data w
  = Some (data', w') ->
  only_backoff_waits (log w) -> only_backoff_waits (log w').
Proof.
  unfold insert_task.
  destruct (load_aligned_bin_part _ _ _ _ _) as [st data1].
  intros Hrun Hw.
  assert (He : only_backoff_waits
                 (log (emit (EvLoad start (SizeT.sub end_ start) st) w)))
    by (apply only_backoff_waits_emit; [exact Hw|discriminate]).
  destruct st; try (injection Hrun as <- <-; exact He); [|discriminate].
  unfold insert_next_batch in Hrun.
  destruct (insert_loop _ _ _ _ _ _ _ _) as [[w2 nf]|] eqn:Hloop; [|discriminate].
  injection Hrun as <- <-. exact (insert_loop_waits _ _ _ _ _ _ _ _ _ _ Hloop He).
Qed.

Lemma streaming_loop_waits (sz : Z) (schedule : list Z -> list Z) (data_path : file)
    (labels : list (list Z)) (has_labels : bool) (W C aligned_dim N : Z) (fuel : nat) :
  forall (start : Z) (data : list byte) (w : World),
    only_backoff_waits (log w) ->
    only_backoff_waits
      (outcome_log (streaming_loop sz schedule data_path labels has_labels W C
                      aligned_dim N fuel start data w)).
Proof.
  induction fuel as [|fuel IH]; intros start data w Hw.
  - cbn [streaming_loop]. destruct (_ <=? _); exact Hw.
  - cbn [streaming_loop]. destruct (_ <=? _); [|exact Hw].
    destruct (insert_task _ _ _ _ _ _ _ _ _) as [[data1 w1]|] eqn:Hins;
      [|apply only_backoff_waits_nil].
    pose proof (insert_task_waits _ _ _ _ _ _ _ _ _ _ _ Hins Hw) as Hw1.
    destruct (negb has_labels); [|apply IH, Hw1].
    destruct (_ >=? _); [|apply IH, Hw1].
    pose proof (delete_and_consolidate_waits w1
                  (SizeT.sub (SizeT.sub start W) C) (SizeT.sub start W) Hw1) as Hdel.
    destruct (delete_and_consolidate _ _ _) as [w2|code w2|w2|w2]; cbn [task_log] in Hdel.
    + apply IH, Hdel.
    + exact Hdel.
    + apply IH, Hdel.
    + exact Hdel.
Qed.

Lemma build_incremental_index_waits (sz : Z) (schedule : list Z -> list Z)
    (data_path : file) (labels : list (list Z)) (has_labels : bool) (N W C : Z)
    (answers : list answer) (fuel : nat) :
  only_backoff_waits
    (outcome_log (build_incremental_index sz schedule data_path labels has_labels
                    N W C answers fuel)).
Proof.
  unfold build_incremental_index.
  destruct (get_bin_metadata data_path) as [[num_points dim]|];
    [|apply only_backoff_waits_nil].
  destruct (check_parameters _ _ _ _) as [e|N']; [apply only_backoff_waits_nil|].
  destruct (insert_task _ _ _ _ _ _ _ _ _) as [[data0 w0]|] eqn:Hins;
    [|apply only_backoff_waits_nil].
  apply streaming_loop_waits.
  apply (insert_task_waits _ _ _ _ _ _ _ _ _ _ _ Hins).
  apply only_backoff_waits_nil.
Qed.

Lemma retried_forallb (rs : list answer) :
  Forall (fun r => r = Reports LOCK_FAIL \/ r = Reports INCONSISTENT_COUNT_ERROR) rs ->
  forallb retried rs = true.
Proof.
  induction 1 as [|r rs [-> | ->] _ IH]; [reflexivity|exact IH|exact IH].
Qed.

Lemma forallb_retried (rs : list answer) :
  forallb retried rs = true ->
  Forall (fun r => r = Reports LOCK_FAIL \/ r = Reports INCONSISTENT_COUNT_ERROR) rs.
Proof.
  induction rs as [|r rs IH]; [constructor|]. cbn [forallb]. intros H.
  apply andb_prop in H as [Hr Hrs].
  constructor; [destruct r as [[]| |]; try discriminate; auto|exact (IH Hrs)].
Qed.

(** C4, as the driver behaves.  When [consolidate_deletes] reports
    LOCK_FAIL, the deletion task sleeps [wait_time] = 5 seconds and calls
    again, however many times the status comes: it returns after the first
    report SUCCESS and only after a report SUCCESS, and as long as the
    report is LOCK_FAIL it is still in the loop.  Every timed wait of every
    run of the driver is this sleep of 5 seconds, and it comes right after
    a report of LOCK_FAIL or of INCONSISTENT_COUNT_ERROR: the backoff is not
    that of LOCK_FAIL alone. *)
Theorem lock_fail_retried_until_success :
  wait_time = 5 /\
  (forall (n : nat) (rest : list answer) (idx : Index) (lg : list event)
          (start end_ : Z),
     let w1 := lazy_delete_loop (Z.to_nat (end_ - start)) start
                 (mkWorld idx (replicate n (Reports LOCK_FAIL)
                                 ++ Reports SUCCESS :: rest) lg) in
     delete_and_consolidate
       (mkWorld idx (replicate n (Reports LOCK_FAIL) ++ Reports SUCCESS :: rest) lg)
       start end_
     = TaskReturned
         (mkWorld (consolidate_deletes SUCCESS (index w1)) rest
            (log w1 ++ backoff_events (replicate n (Reports LOCK_FAIL))
                    ++ [EvConsolidate (Reports SUCCESS)])) /\
     backoff_events (replicate n (Reports LOCK_FAIL)) =
       mjoin (replicate n [EvConsolidate (Reports LOCK_FAIL); EvSleep 5])) /\
  (forall (n : nat) (idx : Index) (lg : list event) (start end_ : Z),
     exists w',
       delete_and_consolidate (mkWorld idx (replicate n (Reports LOCK_FAIL)) lg)
         start end_ = TaskRunning w') /\
  (forall (w w' : World) (start end_ : Z),
     delete_and_consolidate w start end_ = TaskReturned w' ->
     exists lg, log w' = lg ++ [EvConsolidate (Reports SUCCESS)]) /\
  (forall (sz : Z) (schedule : list Z -> list Z) (data_path : file)
          (labels : list (list Z)) (has_labels : bool) (N W C : Z)
          (answers : list answer) (fuel : nat) (before after : list event)
          (seconds : Z),
     outcome_log
       (build_incremental_index sz schedule data_path labels has_labels N W C
          answers fuel) = before ++ EvSleep seconds :: after ->
     seconds = 5 /\
     exists lg a,
       before = lg ++ [EvConsolidate a] /\
       (a = Reports LOCK_FAIL \/ a = Reports INCONSISTENT_COUNT_ERROR)).
Proof.
  assert (Hrep : forall n, forallb retried (replicate n (Reports LOCK_FAIL)) = true).
  { induction n; [reflexivity|exact IHn]. }
  split; [reflexivity|]. split; [|split; [|split]].
  - intros n rest idx lg start end_ w1. split.
    + unfold delete_and_consolidate. fold w1.
      assert (Hs : script w1 = replicate n (Reports LOCK_FAIL) ++ Reports SUCCESS :: rest)
        by apply lazy_delete_loop_script.
      rewrite Hs. rewrite consolidate_with_retry_prefix by apply Hrep.
      rewrite consolidate_with_retry_end by reflexivity.
      cbn [hd tl task_end answered]. rewrite <- app_assoc. reflexivity.
    + clear. induction n as [|n IH]; [reflexivity|].
      cbn [replicate]. unfold backoff_events in *. cbn [flat_map].
      rewrite IH. reflexivity.
  - intros n idx lg start end_. unfold delete_and_consolidate.
    set (w1 := lazy_delete_loop _ _ _).
    assert (Hs : script w1 = replicate n (Reports LOCK_FAIL))
      by apply lazy_delete_loop_script.
    rewrite Hs. rewrite <- (app_nil_r (replicate n _)).
    rewrite consolidate_with_retry_prefix by apply Hrep.
    eexists. reflexivity.
  - intros w w' start end_. unfold delete_and_consolidate.
    set (w1 := lazy_delete_loop _ _ _).
    destruct (consolidate_with_retry_cases (script w1) (index w1) (log w1))
      as (rs & a & rest & _ & _ & _ & ->).
    destruct a as [[]|[]|]; cbn [task_end]; try discriminate.
    intros [= <-]. cbn [log]. exists (log w1 ++ backoff_events rs).
    rewrite app_assoc. reflexivity.
  - intros sz schedule data_path labels has_labels N W C answers fuel before after
      seconds Hlog.
    pose proof (build_incremental_index_waits sz schedule data_path labels has_labels
                  N W C answers fuel) as Hw.
    rewrite Hlog in Hw.
    destruct (backoff_waits_sleep before after seconds false Hw)
      as (Hs & [(_ & Hb)|(lg & a & Hbefore & Ha)]); [discriminate|].
    split; [exact Hs|]. exists lg, a. split; [exact Hbefore|].
    destruct a as [[]| |]; try discriminate; auto.
Qed.

(** C3, as the driver behaves.  A report with status
    INCONSISTENT_COUNT_ERROR is not fatal: as for LOCK_FAIL, the deletion
    task sleeps 5 seconds and calls [consolidate_deletes] again, until a call
    reports SUCCESS, and then returns.  The task ends the process, with
    [exit(-1)], on the first answer that is a report whose status is none of
    SUCCESS, LOCK_FAIL, INCONSISTENT_COUNT_ERROR or that is a
    [std::system_error], and on nothing else. *)
Theorem inconsistent_count_is_retried :
  (forall (rs rest : list answer) (idx : Index) (lg : list event)
          (start end_ : Z),
     Forall (fun r => r = Reports LOCK_FAIL \/ r = Reports INCONSISTENT_COUNT_ERROR) rs ->
     let w1 := lazy_delete_loop (Z.to_nat (end_ - start)) start
                 (mkWorld idx (rs ++ Reports SUCCESS :: rest) lg) in
     delete_and_consolidate (mkWorld idx (rs ++ Reports SUCCESS :: rest) lg) start end_
     = TaskReturned
         (mkWorld (consolidate_deletes SUCCESS (index w1)) rest
            (log w1
             ++ flat_map (fun r => [EvConsolidate r; EvSleep 5]) rs
             ++ [EvConsolidate (Reports SUCCESS)]))) /\
  (forall (rs rest : list answer) (a : answer) (idx : Index) (lg : list event)
          (start end_ : Z),
     Forall (fun r => r = Reports LOCK_FAIL \/ r = Reports INCONSISTENT_COUNT_ERROR) rs ->
     a = Reports OTHER_STATUS \/ a = Throws true ->
     exists w',
       delete_and_consolidate (mkWorld idx (rs ++ a :: rest) lg) start end_
       = TaskExited (-1) w' /\
       script w' = rest) /\
  (forall (w w' : World) (start end_ code : Z),
     delete_and_consolidate w start end_ = TaskExited code w' ->
     code = -1 /\
     exists rs a rest lg,
       script w = rs ++ a :: rest /\
       Forall (fun r => r = Reports LOCK_FAIL \/ r = Reports INCONSISTENT_COUNT_ERROR) rs /\
       (a = Reports OTHER_STATUS \/ a = Throws true) /\
       log w' = lg ++ [EvConsolidate a]).
Proof.
  split; [|split].
  - intros rs rest idx lg start end_ Hrs w1.
    unfold delete_and_consolidate. fold w1.
    assert (Hs : script w1 = rs ++ Reports SUCCESS :: rest)
      by apply lazy_delete_loop_script.
    rewrite Hs. rewrite consolidate_with_retry_prefix by (apply retried_forallb, Hrs).
    rewrite consolidate_with_retry_end by reflexivity.
    cbn [hd tl task_end answered]. rewrite <- app_assoc. reflexivity.
  - intros rs rest a idx lg start end_ Hrs Ha.
    unfold delete_and_consolidate.
    set (w1 := lazy_delete_loop _ _ _).
    assert (Hs : script w1 = rs ++ a :: rest) by apply lazy_delete_loop_script.
    rewrite Hs. rewrite consolidate_with_retry_prefix by (apply retried_forallb, Hrs).
    rewrite consolidate_with_retry_end by (destruct Ha as [-> | ->]; reflexivity).
    destruct Ha as [-> | ->]; cbn [hd tl task_end]; eexists; split; reflexivity.
  - intros w w' start end_ code. unfold delete_and_consolidate.
    rewrite <- (lazy_delete_loop_script (Z.to_nat (end_ - start)) start w).
    set (w1 := lazy_delete_loop _ _ _).
    destruct (consolidate_with_retry_cases (script w1) (index w1) (log w1))
      as (rs & a & rest & Hall & Ha & Hshape & ->).
    assert (Hexit : forall a, retried a = false ->
              task_end a (mkWorld (answered a (index w1)) rest
                            (log w1 ++ backoff_events rs ++ [EvConsolidate a]))
              = TaskExited code w' ->
              code = -1 /\ (a = Reports OTHER_STATUS \/ a = Throws true) /\
              log w' = (log w1 ++ backoff_events rs) ++ [EvConsolidate a]).
    { intros a' Ha'. destruct a' as [[]|[]|]; cbn [task_end];
        try discriminate; try (cbn in Ha'; discriminate);
        intros [= <- <-]; cbn [log]; rewrite app_assoc; auto. }
    intros Hrun. destruct (Hexit a Ha Hrun) as (Hcode & Hkind & Hlog).
    split; [exact Hcode|].
    destruct Hshape as [Hshape|(_ & -> & _)];
      [|destruct Hkind; discriminate].
    exists rs, a, rest, (log w1 ++ backoff_events rs).
    split; [exact Hshape|]. split; [apply forallb_retried, Hall|]. auto.
Qed.

(** ** The calls of [insert_next_batch] *)

Lemma failed_insertions_cons (t : Z) (r : insert_result) (rs : list (Z * insert_result)) :
  failed_insertions ((t, r) :: rs)
  = (if insert_code r =? 0 then 0 else 1) + failed_insertions rs.
Proof.
  unfold failed_insertions. rewrite filter_cons. cbn [snd].
  destruct (Z.eqb_spec (insert_code r) 0) as [He|He].
  - rewrite decide_False by (intros Hn; apply Hn; exact He). lia.
  - rewrite decide_True by exact He. cbn [length]. lia.
Qed.

Lemma insert_point_tombstoned (idx : Index) (v : list byte) (tag : Z)
    (lbl : option (list Z)) :
  tombstoned (snd (insert_point idx v tag lbl)) = tombstoned idx.
Proof.
  unfold insert_point.
  destruct (live idx !! tag), (tombstoned idx !! tag); try reflexivity.
  destruct (_ <=? _); reflexivity.
Qed.

Lemma insert_point_capacity (idx : Index) (v : list byte) (tag : Z)
    (lbl : option (list Z)) :
  max_points (snd (insert_point idx v tag lbl)) = max_points idx.
Proof.
  unfold insert_point.
  destruct (live idx !! tag), (tombstoned idx !! tag); try reflexivity.
  destruct (_ <=? _); reflexivity.
Qed.

(** What [insert_loop] does whatever the index is: one insertion per
    iteration, in the order of the schedule; the answers of the
    consolidator, the tombstones and the capacity are not touched. *)
Lemma insert_loop_calls (sz : Z) (data : list byte) (aligned_dim : Z)
    (labels : list (list Z)) (start : Z) (order : list Z) :
  forall (w w' : World) (num_failed num_failed' : Z),
    insert_loop sz data aligned_dim labels start order w num_failed
    = Some (w', num_failed') ->
    script w' = script w /\
    tombstoned (index w') = tombstoned (index w) /\
    max_points (index w') = max_points (index w) /\
    exists rs : list (Z * insert_result),
      log w' = log w ++ map (fun tr => EvInsert tr.1 tr.2) rs /\
      rs.*1 = map insert_tag order /\
      num_failed' = num_failed + failed_insertions rs.
Proof.
  induction order as [|j order IH]; intros w w' nf nf'.
  - intros [= <- <-]. split; [reflexivity|]. split; [reflexivity|].
    split; [reflexivity|]. exists []. cbn. rewrite app_nil_r.
    split; [reflexivity|]. split; [reflexivity|].
    unfold failed_insertions. cbn. lia.
  - cbn [insert_loop]. destruct (label_argument labels _) as [lbl|]; [|discriminate].
    pose proof (insert_point_tombstoned (index w)
      (vector_at sz data (SizeT.mul (SizeT.wrap (j - start)) aligned_dim) aligned_dim)
      (insert_tag j) lbl) as Htomb.
    pose proof (insert_point_capacity (index w)
      (vector_at sz data (SizeT.mul (SizeT.wrap (j - start)) aligned_dim) aligned_dim)
      (insert_tag j) lbl) as Hcap.
    destruct (insert_point _ _ _ _) as [r idx]. cbn [snd] in Htomb, Hcap.
    intros Hrun.
    destruct (IH _ _ _ _ Hrun) as (Hscript & Htomb' & Hcap' & rs & Hlog & Htags & Hfail).
    split; [exact Hscript|]. split; [rewrite Htomb'; exact Htomb|].
    split; [rewrite Hcap'; exact Hcap|].
    exists ((insert_tag j, r) :: rs). split; [|split].
    + rewrite Hlog. cbn. rewrite <- app_assoc. reflexivity.
    + cbn. f_equal. exact Htags.
    + rewrite Hfail, failed_insertions_cons.
      destruct (insert_code r =? 0); lia.
Qed.

(** The loop has a defined behaviour when every [labels[j - start]] it
    reads exists. *)
Lemma insert_loop_defined (sz : Z) (data : list byte) (aligned_dim : Z)
    (labels : list (list Z)) (start : Z) (order : list Z) :
  labels = [] \/
  Forall (fun j => SizeT.wrap (j - start) < Z.of_nat (length labels)) order ->
  forall (w : World) (num_failed : Z),
    is_Some (insert_loop sz data aligned_dim labels start order w num_failed).
Proof.
  intros Hlabels. induction order as [|j order IH]; intros w nf; [eexists; reflexivity|].
  cbn [insert_loop].
  assert (Harg : is_Some (label_argument labels (SizeT.wrap (j - start)))).
  { unfold label_argument. destruct Hlabels as [->|Hall]; [eexists; reflexivity|].
    apply Forall_cons in Hall as [Hj _].
    destruct (0 <? _); [|eexists; reflexivity].
    destruct (Z.ltb_spec (SizeT.wrap (j - start)) (Z.of_nat (length labels)));
      [eexists; reflexivity|lia]. }
  destruct Harg as [lbl ->]. destruct (insert_point _ _ _ _) as [r idx].
  apply IH. destruct Hlabels as [->|Hall]; [left; reflexivity|right].
  apply Forall_cons in Hall. tauto.
Qed.

(** ** What the driver's steps add to the log *)

Lemma lazy_delete_loop_capacity (n : nat) :
  forall (i : Z) (w : World),
    max_points (index (lazy_delete_loop n i w)) = max_points (index w).
Proof.
  induction n as [|n IH]; intros i w; [reflexivity|].
  cbn [lazy_delete_loop]. rewrite IH. cbn [emit with_index index].
  unfold lazy_delete. destruct (live (index w) !! _); reflexivity.
Qed.

Lemma lazy_delete_capacity (idx : Index) (tag : Z) :
  max_points (lazy_delete idx tag) = max_points idx.
Proof. unfold lazy_delete. destruct (live idx !! tag); reflexivity. Qed.

Lemma answered_capacity (a : answer) (idx : Index) :
  max_points (answered a idx) = max_points idx.
Proof. destruct a as [[]| |]; reflexivity. Qed.

Lemma lazy_delete_loop_extends (n : nat) :
  forall (i : Z) (w : World),
    exists evs, log (lazy_delete_loop n i w) = log w ++ evs.
Proof.
  induction n as [|n IH]; intros i w.
  - exists []. cbn. rewrite app_nil_r. reflexivity.
  - cbn [lazy_delete_loop]. destruct (IH (i + 1)
      (emit (EvLazyDelete (delete_tag i))
         (with_index (lazy_delete (index w) (delete_tag i)) w))) as [evs ->].
    cbn [emit log with_index]. rewrite <- app_assoc. eexists. reflexivity.
Qed.

(** The deletion task keeps the capacity of the index and the log it
    started from. *)
Lemma delete_and_consolidate_frame (w : World) (start end_ : Z) :
  max_points (index (task_world (delete_and_consolidate w start end_)))
  = max_points (index w) /\
  exists evs, task_log (delete_and_consolidate w start end_) = log w ++ evs.
Proof.
  unfold delete_and_consolidate.
  pose proof (lazy_delete_loop_capacity (Z.to_nat (end_ - start)) start w) as Hcap.
  destruct (lazy_delete_loop_extends (Z.to_nat (end_ - start)) start w) as [evs Hlog].
  set (w1 := lazy_delete_loop _ _ _) in *.
  destruct (consolidate_with_retry_cases (script w1) (index w1) (log w1))
    as (rs & a & rest & _ & _ & _ & ->).
  rewrite task_world_task_end, task_log_task_end. cbn [index log].
  split; [rewrite answered_capacity; exact Hcap|].
  rewrite Hlog, <- app_assoc. eexists. reflexivity.
Qed.

(** An insertion task logs its load and, when the load succeeds, the
    insertions of the batch. *)
Lemma insert_task_log (sz : Z) (schedule : list Z -> list Z) (f : file)
    (labels : list (list Z)) (aligned_dim start end_ : Z) (data data' : list byte)
    (w w' : World) :
  insert_task sz schedule f labels aligned_dim start end_ data w = Some (data', w') ->
  script w' = script w /\
  tombstoned (index w') = tombstoned (index w) /\
  max_points (index w') = max_points (index w) /\
  exists st rs,
    log w' = log w ++ EvLoad start (SizeT.sub end_ start) st
                   :: map (fun tr => EvInsert tr.1 tr.2) rs /\
    (st = Loaded ->
     rs.*1 = map insert_tag
               (schedule (seqZ (to_int64 start) (to_int64 end_ - to_int64 start)))) /\
    (st <> Loaded -> rs = []).
Proof.
  unfold insert_task.
  destruct (load_aligned_bin_part sz f data start (SizeT.sub end_ start)) as [st d].
  set (w1 := emit _ w).
  destruct st; try discriminate.
  1:{ unfold insert_next_batch.
      destruct (insert_loop _ _ _ _ _ _ _ _) as [[w2 nf]|] eqn:Hloop; [|discriminate].
      intros [= <- <-].
      destruct (insert_loop_calls _ _ _ _ _ _ _ _ _ _ Hloop)
        as (Hscript & Htomb & Hcap & rs & Hlog & Htags & _).
      split; [exact Hscript|]. split; [exact Htomb|]. split; [exact Hcap|].
      exists Loaded, rs. split.
      - rewrite Hlog. unfold w1. cbn [emit log]. rewrite <- app_assoc. reflexivity.
      - split; [intros _; exact Htags|intros H; contradiction]. }
  all: intros [= <- <-]; split; [reflexivity|]; split; [reflexivity|];
    split; [reflexivity|]; eexists _, []; split; [reflexivity|];
    split; [discriminate|reflexivity].
Qed.

Lemma streaming_loop_frame (sz : Z) (schedule : list Z -> list Z) (data_path : file)
    (labels : list (list Z)) (has_labels : bool) (W C aligned_dim N : Z) (fuel : nat) :
  forall (start : Z) (data : list byte) (w w' : World),
    outcome_world (streaming_loop sz schedule data_path labels has_labels W C
                     aligned_dim N fuel start data w) = Some w' ->
    max_points (index w') = max_points (index w) /\
    exists evs, log w' = log w ++ evs.
Proof.
  assert (Hrefl : forall w : World,
            max_points (index w) = max_points (index w) /\
            exists evs, log w = log w ++ evs).
  { intros w. split; [reflexivity|]. exists []. rewrite app_nil_r. reflexivity. }
  induction fuel as [|fuel IH]; intros start data w w'.
  - cbn [streaming_loop]. destruct (_ <=? _); intros [= <-]; apply Hrefl.
  - cbn [streaming_loop]. destruct (_ <=? _); [|intros [= <-]; apply Hrefl].
    destruct (insert_task _ _ _ _ _ _ _ _ _) as [[data1 w1]|] eqn:Hins; [|discriminate].
    destruct (insert_task_log _ _ _ _ _ _ _ _ _ _ _ Hins)
      as (_ & _ & Hcap1 & st & rs & Hlog1 & _).
    assert (Hgo : forall w2 w'',
              max_points (index w2) = max_points (index w1) ->
              (exists evs, log w2 = log w1 ++ evs) ->
              outcome_world (streaming_loop sz schedule data_path labels has_labels W C
                               aligned_dim N fuel (SizeT.add start C) data1 w2) = Some w'' ->
              max_points (index w'') = max_points (index w) /\
              exists evs, log w'' = log w ++ evs).
    { intros w2 w'' Hc [evs2 Hl] H. destruct (IH _ _ _ _ H) as (Hc' & evs & Hl').
      split; [congruence|]. rewrite Hl', Hl, Hlog1, <- !app_assoc. eexists. reflexivity. }
    assert (Hstop : forall w2,
              max_points (index w2) = max_points (index w1) ->
              (exists evs, log w2 = log w1 ++ evs) ->
              max_points (index w2) = max_points (index w) /\
              exists evs, log w2 = log w ++ evs).
    { intros w2 Hc [evs2 Hl]. split; [congruence|].
      rewrite Hl, Hlog1, <- !app_assoc. eexists. reflexivity. }
    destruct (negb has_labels); [|apply Hgo; apply Hrefl].
    destruct (_ >=? _); [|apply Hgo; apply Hrefl].
    destruct (delete_and_consolidate_frame w1
                (SizeT.sub (SizeT.sub start W) C) (SizeT.sub start W)) as (Hcd & Hld).
    destruct (delete_and_consolidate _ _ _) as [w2|code w2|w2|w2];
      cbn [task_world task_log] in Hcd, Hld.
    + apply Hgo; assumption.
    + intros [= <-]. apply Hstop; assumption.
    + apply Hgo; assumption.
    + intros [= <-]. apply Hstop; assumption.
Qed.

(** ** The parameter checks and the capacity of the index *)

Lemma streaming_loop_never_throws (sz : Z) (schedule : list Z -> list Z)
    (data_path : file) (labels : list (list Z)) (has_labels : bool)
    (W C aligned_dim N : Z) (fuel : nat) (start : Z) (data : list byte) (w : World)
    (e : driver_exception) :
  streaming_loop sz schedule data_path labels has_labels W C aligned_dim N fuel start
    data w <> Thrown e.
Proof.
  revert start data w. induction fuel as [|fuel IH]; intros start data w.
  - cbn [streaming_loop]. destruct (_ <=? _); discriminate.
  - cbn [streaming_loop]. destruct (_ <=? _); [|discriminate].
    destruct (insert_task _ _ _ _ _ _ _ _ _) as [[data1 w1]|]; [|discriminate].
    destruct (negb has_labels); [|apply IH].
    destruct (_ >=? _); [|apply IH].
    destruct (delete_and_consolidate _ _ _); (apply IH || discriminate).
Qed.

(** The driver throws what the checks answer, and nothing else. *)
Lemma build_incremental_index_thrown (sz : Z) (schedule : list Z -> list Z)
    (data_path : file) (labels : list (list Z)) (has_labels : bool) (N W C : Z)
    (answers : list answer) (fuel : nat) (num_points dim : Z) (e : driver_exception) :
  get_bin_metadata data_path = Some (num_points, dim) ->
  build_incremental_index sz schedule data_path labels has_labels N W C answers fuel
  = Thrown e <->
  check_parameters num_points N W C = inl e.
Proof.
  intros Hmeta. unfold build_incremental_index. rewrite Hmeta.
  destruct (check_parameters num_points N W C) as [e'|N'].
  - split; intros [= ->]; reflexivity.
  - split; [|discriminate]. intros He. exfalso.
    destruct (insert_task _ _ _ _ _ _ _ _ _) as [[data0 w0]|]; [|discriminate].
    exact (streaming_loop_never_throws _ _ _ _ _ _ _ _ _ _ _ _ _ _ He).
Qed.


Lemma build_incremental_index_capacity (sz : Z) (schedule : list Z -> list Z)
    (data_path : file) (labels : list (list Z)) (has_labels : bool) (N W C : Z)
    (answers : list answer) (fuel : nat) (w : World) :
  outcome_world (build_incremental_index sz schedule data_path labels has_labels
                   N W C answers fuel) = Some w ->
  max_points (index w) = index_capacity W C.
Proof.
  unfold build_incremental_index.
  destruct (get_bin_metadata data_path) as [[num_points dim]|]; [|discriminate].
  destruct (check_parameters _ _ _ _) as [e|N']; [discriminate|].
  destruct (insert_task _ _ _ _ _ _ _ _ _) as [[data0 w0]|] eqn:Hins; [|discriminate].
  intros Hrun. apply streaming_loop_frame in Hrun as [Hrun _].
  apply insert_task_log in Hins as (_ & _ & Hins & _).
  rewrite Hrun, Hins. reflexivity.
Qed.

Lemma index_capacity_mod (W C : Z) : index_capacity W C = (W + 4 * C) mod 2 ^ 64.
Proof.
  unfold index_capacity, SizeT.add, SizeT.mul, SizeT.wrap, SizeT.modulus.
  apply Zplus_mod_idemp_r.
Qed.


(** X21. The index of every run of the driver that passes the parameter
    checks has the capacity it was constructed with, the [size_t] value of
    [active_window + 4 * consolidate_interval]: the sum itself when it is
    below [2^64], its remainder modulo [2^64] in general. *)
Theorem index_capacity_is_window_plus_four_intervals (sz : Z)
    (schedule : list Z -> list Z) (data_path : file)
    (labels : list (list Z)) (has_labels : bool) (N W C : Z)
    (answers : list answer) (fuel : nat) (w : World) :
  outcome_world (build_incremental_index sz schedule data_path labels has_labels
                   N W C answers fuel) = Some w ->
  max_points (index w) = (W + 4 * C) mod 2 ^ 64 /\
  index_capacity W C = (W + 4 * C) mod 2 ^ 64 /\
  (0 <= W -> 0 <= C -> W + 4 * C < 2 ^ 64 -> max_points (index w) = W + 4 * C).
Proof.
  intros Hrun. apply build_incremental_index_capacity in Hrun.
  rewrite Hrun, index_capacity_mod. split; [reflexivity|]. split; [reflexivity|].
  intros HW HC Hfit. apply Z.mod_small. lia.
Qed.

(** ** Tags *)

Lemma elem_of_tag_interval (t a b : Z) : t ∈ tag_interval a b <-> a <= t < b.
Proof.
  unfold tag_interval. rewrite elem_of_list_to_set, elem_of_seqZ. lia.
Qed.

Lemma size_tag_interval (a b : Z) : a <= b -> Z.of_nat (size (tag_interval a b)) = b - a.
Proof.
  intros Hab. unfold tag_interval.
  rewrite size_list_to_set by apply NoDup_seqZ.
  rewrite length_seqZ. lia.
Qed.

Lemma tag_interval_uncons (a b : Z) :
  tag_interval a b ∖ {[a]} = tag_interval (a + 1) b.
Proof.
  apply set_eq. intros t.
  rewrite elem_of_difference, elem_of_singleton, !elem_of_tag_interval. lia.
Qed.

Lemma insert_tag_small (j : Z) : 0 <= j < 2 ^ 32 - 1 -> insert_tag j = 1 + j.
Proof.
  intros Hj. unfold insert_tag. rewrite (u32_small j) by lia. apply u32_small. lia.
Qed.

Lemma delete_tag_small (i : Z) : 0 <= i < 2 ^ 32 - 1 -> delete_tag i = 1 + i.
Proof.
  intros Hi. unfold delete_tag. rewrite add_small by lia. apply u32_small. lia.
Qed.

Lemma to_int64_small (x : Z) : 0 <= x < 2 ^ 63 -> to_int64 x = x.
Proof.
  intros Hx. unfold to_int64. rewrite wrap_small by lia.
  destruct (Z.ltb_spec x (2 ^ 63)); lia.
Qed.

Lemma map_succ_seqZ (a n : Z) : map (Z.add 1) (seqZ a n) = seqZ (a + 1) n.
Proof.
  apply list_eq. intros q. change (map (Z.add 1) (seqZ a n)) with (Z.add 1 <$> seqZ a n).
  rewrite list_lookup_fmap.
  destruct (decide (Z.of_nat q < n)) as [Hq|Hq].
  - rewrite !lookup_seqZ_lt by lia. cbn. f_equal. lia.
  - rewrite !lookup_seqZ_ge by lia. reflexivity.
Qed.

Lemma schedule_nil (schedule : list Z -> list Z) :
  runs_each_once schedule -> schedule [] = [].
Proof. intros H. apply Permutation_nil. symmetry. apply H. Qed.

(** ** The index *)

Lemma insert_point_fresh (idx : Index) (v : list byte) (tag : Z)
    (lbl : option (list Z)) :
  tag ∉ dom (live idx) -> tombstoned idx = ∅ ->
  Z.of_nat (size (live idx)) < max_points idx ->
  insert_point idx v tag lbl =
    (InsertOk,
     {| max_points := max_points idx;
        live := <[tag := mkPoint v lbl]> (live idx);
        tombstoned := tombstoned idx |}).
Proof.
  intros Hfresh Htomb Hroom. unfold insert_point.
  apply not_elem_of_dom in Hfresh. rewrite Hfresh, Htomb, lookup_empty.
  rewrite map_size_empty.
  destruct (Z.leb_spec (max_points idx) (Z.of_nat (size (live idx)) + Z.of_nat 0));
    [lia|reflexivity].
Qed.

(** Insertions of fresh tags into an index with room for them, in any
    order: all succeed. *)
Lemma insert_loop_fresh (sz : Z) (data : list byte) (aligned_dim start : Z)
    (order : list Z) :
  forall (w : World) (num_failed : Z),
    NoDup order ->
    Forall (fun j => 0 <= j < 2 ^ 32 - 1 /\ 1 + j ∉ dom (live (index w))) order ->
    tombstoned (index w) = ∅ ->
    Z.of_nat (size (live (index w))) + Z.of_nat (length order) <= max_points (index w) ->
    exists w',
      insert_loop sz data aligned_dim [] start order w num_failed
      = Some (w', num_failed) /\
      dom (live (index w')) = dom (live (index w)) ∪ list_to_set (map (Z.add 1) order) /\
      tombstoned (index w') = ∅ /\
      max_points (index w') = max_points (index w) /\
      script w' = script w /\
      inserted_tags (log w') = inserted_tags (log w) ++ map (Z.add 1) order /\
      deleted_tags (log w') = deleted_tags (log w).
Proof.
  induction order as [|j order IH]; intros w nf Hnd Hall Htomb Hroom.
  - exists w. cbn. rewrite app_nil_r. split; [reflexivity|].
    split; [rewrite union_empty_r_L; reflexivity|]. auto.
  - apply NoDup_cons in Hnd as [Hj Hnd].
    apply Forall_cons in Hall as [[Hrange Hfresh] Hall].
    cbn [length] in Hroom. cbn [insert_loop].
    change (label_argument [] (SizeT.wrap (j - start))) with (Some (@None (list Z))).
    rewrite insert_tag_small by lia.
    rewrite insert_point_fresh; [|exact Hfresh|exact Htomb|lia].
    cbn [insert_code Z.eqb].
    match goal with
    | |- context [insert_loop _ _ _ _ _ order ?w1 _] =>
        destruct (IH w1 nf) as (w' & Hrun & H1 & H2 & H3 & H4 & H5 & H6)
    end.
    + exact Hnd.
    + cbn [emit with_index index live]. rewrite dom_insert_L.
      rewrite Forall_forall in Hall. apply Forall_forall. intros j' Hj'.
      destruct (Hall j' Hj') as [Hr Hf]. split; [exact Hr|].
      rewrite not_elem_of_union, not_elem_of_singleton. split; [|exact Hf].
      intros Heq. apply Hj. replace j with j' by lia. exact Hj'.
    + exact Htomb.
    + cbn [emit with_index index live max_points].
      rewrite map_size_insert_None by (apply not_elem_of_dom; exact Hfresh). lia.
    + exists w'. split; [exact Hrun|].
      cbn [emit with_index index live max_points script log tombstoned] in H1, H2, H3, H4, H5, H6.
      rewrite dom_insert_L in H1.
      split; [rewrite H1; cbn [map list_to_set]; apply set_eq; intros t;
              rewrite !elem_of_union; tauto|].
      split; [exact H2|]. split; [exact H3|]. split; [exact H4|]. split.
      * rewrite H5. unfold inserted_tags. rewrite flat_map_app. cbn [flat_map map].
        rewrite app_nil_r, <- app_assoc. reflexivity.
      * rewrite H6. unfold deleted_tags. rewrite flat_map_app. cbn [flat_map].
        rewrite !app_nil_r. reflexivity.
Qed.

Lemma lazy_delete_live (idx : Index) (tag : Z) :
  dom (live (lazy_delete idx tag)) = dom (live idx) ∖ {[tag]}.
Proof.
  unfold lazy_delete. destruct (live idx !! tag) eqn:E; cbn [live].
  - apply dom_delete_L.
  - apply not_elem_of_dom in E. apply set_eq. intros t.
    rewrite elem_of_difference, elem_of_singleton.
    split; [intros Ht; split; [exact Ht|congruence] | tauto].
Qed.

Lemma lazy_delete_loop_live (hi : Z) (n : nat) :
  forall (i : Z) (w : World),
    0 <= i -> i + Z.of_nat n < 2 ^ 32 ->
    dom (live (index w)) = tag_interval (i + 1) (hi + 1) ->
    let w' := lazy_delete_loop n i w in
    dom (live (index w')) = tag_interval (i + Z.of_nat n + 1) (hi + 1) /\
    max_points (index w') = max_points (index w) /\
    script w' = script w /\
    log w' = log w ++ map EvLazyDelete (seqZ (i + 1) (Z.of_nat n)).
Proof.
  induction n as [|n IH]; intros i w Hi Hfit Hdom.
  - cbn [lazy_delete_loop]. rewrite Z.add_0_r, seqZ_nil by lia.
    cbn [map]. rewrite app_nil_r. auto.
  - cbn [lazy_delete_loop]. rewrite delete_tag_small by lia.
    match goal with
    | |- context [lazy_delete_loop n (i + 1) ?w1] =>
        destruct (IH (i + 1) w1) as (H1 & H2 & H3 & H4)
    end.
    + lia.
    + lia.
    + cbn [emit with_index index]. rewrite lazy_delete_live, Hdom.
      replace (1 + i) with (i + 1) by ring. apply tag_interval_uncons.
    + cbv zeta. rewrite H1, H2, H3, H4.
      cbn [emit with_index index script log]. rewrite lazy_delete_capacity.
      replace (i + 1 + Z.of_nat n + 1) with (i + Z.of_nat (S n) + 1) by lia.
      rewrite (seqZ_cons (i + 1) (Z.of_nat (S n))) by lia.
      replace (Z.pred (Z.of_nat (S n))) with (Z.of_nat n) by lia.
      replace (Z.succ (i + 1)) with (i + 1 + 1) by lia.
      replace (1 + i) with (i + 1) by ring.
      cbn [map]. rewrite <- app_assoc. auto.
Qed.

Lemma deleted_tags_app (l1 l2 : list event) :
  deleted_tags (l1 ++ l2) = deleted_tags l1 ++ deleted_tags l2.
Proof. apply flat_map_app. Qed.

Lemma inserted_tags_app (l1 l2 : list event) :
  inserted_tags (l1 ++ l2) = inserted_tags l1 ++ inserted_tags l2.
Proof. apply flat_map_app. Qed.

Lemma deleted_tags_lazy_deletes (ts : list Z) :
  deleted_tags (map EvLazyDelete ts) = ts.
Proof. induction ts as [|t ts IH]; [reflexivity|]. cbn. f_equal. exact IH. Qed.

Lemma inserted_tags_lazy_deletes (ts : list Z) :
  inserted_tags (map EvLazyDelete ts) = [].
Proof. induction ts as [|t ts IH]; [reflexivity|exact IH]. Qed.

Lemma tags_backoff_events (rs : list answer) :
  inserted_tags (backoff_events rs) = [] /\ deleted_tags (backoff_events rs) = [].
Proof. induction rs as [|r rs IH]; [split; reflexivity|exact IH]. Qed.

(** A deletion task at the tail of the live window, with a consolidator that
    gives named reports only, one of them SUCCESS: the task returns after
    the first SUCCESS, the tail is gone and no tombstone is left. *)
Lemma delete_and_consolidate_window (w : World) (start end_ hi : Z) :
  0 <= start <= end_ -> end_ < 2 ^ 32 ->
  dom (live (index w)) = tag_interval (start + 1) (hi + 1) ->
  known_statuses (script w) ->
  1 <= successes (script w) ->
  exists w',
    delete_and_consolidate w start end_ = TaskReturned w' /\
    dom (live (index w')) = tag_interval (end_ + 1) (hi + 1) /\
    tombstoned (index w') = ∅ /\
    max_points (index w') = max_points (index w) /\
    known_statuses (script w') /\
    successes (script w') = successes (script w) - 1 /\
    inserted_tags (log w') = inserted_tags (log w) /\
    deleted_tags (log w') = deleted_tags (log w) ++ seqZ (start + 1) (end_ - start).
Proof.
  intros Hrange Hfit Hdom Hknown Hsucc. unfold delete_and_consolidate.
  destruct (lazy_delete_loop_live hi (Z.to_nat (end_ - start)) start w)
    as (H1 & H2 & H3 & H4); [lia|lia|exact Hdom|].
  rewrite Z2Nat.id in H1, H4 by lia.
  replace (start + (end_ - start) + 1) with (end_ + 1) in H1 by ring.
  set (w1 := lazy_delete_loop _ _ _) in *.
  rewrite <- H3 in Hknown, Hsucc |- *.
  destruct (consolidate_with_retry_known (script w1) (index w1) (log w1) Hknown)
    as [(_ & rs & rest & Hall & Hshape & ->)|(Hzero & _)]; [|lia].
  eexists. split; [reflexivity|].
  cbn [index script log consolidate_deletes live tombstoned max_points].
  split; [exact H1|]. split; [reflexivity|]. split; [exact H2|]. split; [|split].
  - rewrite Hshape in Hknown. apply known_statuses_app_r in Hknown.
    unfold known_statuses in *. apply Forall_cons in Hknown. tauto.
  - rewrite Hshape, successes_app, (successes_retried rs Hall). cbn [successes]. lia.
  - rewrite H4. rewrite !inserted_tags_app, !deleted_tags_app.
    destruct (tags_backoff_events rs) as [-> ->].
    rewrite inserted_tags_lazy_deletes, deleted_tags_lazy_deletes.
    cbn. rewrite !app_nil_r. auto.
Qed.

(** ** The driver on a well-formed file *)

Lemma get_bin_metadata_well_formed (sz : Z) (f : file) (npts dim : Z) :
  well_formed_bin sz f npts dim -> get_bin_metadata f = Some (npts, dim).
Proof.
  intros (Hhdr & Hn & Hd & _). unfold get_bin_metadata. rewrite Hhdr.
  destruct (read_header_range _ _ _ Hhdr) as [Hn0 Hd0].
  unfold of_int_sign_extended. rewrite !u32_small by lia.
  destruct (Z.ltb_spec npts (2 ^ 31)), (Z.ltb_spec dim (2 ^ 31)); try lia.
  reflexivity.
Qed.

Lemma insert_task_ok (sz : Z) (schedule : list Z -> list Z) (f : file)
    (npts dim lo start end_ : Z) (data : list byte) (w : World) :
  0 < sz <= 8 ->
  well_formed_bin sz f npts dim ->
  runs_each_once schedule ->
  0 <= lo <= start -> start <= end_ -> end_ <= npts ->
  (end_ - start) * (ROUND_UP dim 8 * sz) <= Z.of_nat (length data) ->
  Z.of_nat (length data) < 2 ^ 64 ->
  dom (live (index w)) = tag_interval (lo + 1) (start + 1) ->
  tombstoned (index w) = ∅ ->
  end_ - lo <= max_points (index w) ->
  exists data' w',
    insert_task sz schedule f [] (ROUND_UP dim 8) start end_ data w = Some (data', w') /\
    length data' = length data /\
    dom (live (index w')) = tag_interval (lo + 1) (end_ + 1) /\
    tombstoned (index w') = ∅ /\
    max_points (index w') = max_points (index w) /\
    script w' = script w /\
    inserted_tags (log w') ≡ₚ inserted_tags (log w) ++ seqZ (start + 1) (end_ - start) /\
    deleted_tags (log w') = deleted_tags (log w).
Proof.
  intros Hsz (Hhdr & Hn & Hd & Hsize & Hreal) Hsched Hlo Hse Hen Hbuf Hmem Hdom
    Htomb Hroom.
  destruct (read_header_range _ _ _ Hhdr) as [Hn0 Hd0].
  unfold insert_task. rewrite sub_small by lia.
  destruct (load_aligned_bin_part_ok sz f data start (end_ - start) npts dim)
    as (data' & Hload & Hlen & _); try assumption; try lia.
  rewrite Hload. unfold insert_next_batch.
  rewrite !to_int64_small by lia.
  pose proof (Hsched (seqZ start (end_ - start))) as Hperm.
  set (order := schedule (seqZ start (end_ - start))) in *.
  set (w1 := emit (EvLoad start (end_ - start) Loaded) w).
  destruct (insert_loop_fresh sz data' (ROUND_UP dim 8) start order w1 0)
    as (w' & Hrun & H1 & H2 & H3 & H4 & H5 & H6).
  - rewrite Hperm. apply NoDup_seqZ.
  - rewrite Hperm. apply Forall_forall. intros j Hj. apply elem_of_seqZ in Hj.
    split; [lia|]. cbn [w1 emit index]. rewrite Hdom, elem_of_tag_interval. lia.
  - exact Htomb.
  - rewrite Hperm, length_seqZ. cbn [w1 emit index].
    rewrite <- size_dom, Hdom, size_tag_interval by lia. lia.
  - rewrite Hrun. exists data', w'. split; [reflexivity|]. split; [exact Hlen|].
    cbn [w1 emit index script log] in H1, H3, H4, H5, H6.
    split; [|split; [exact H2|split; [exact H3|split; [exact H4|split]]]].
    + rewrite H1, Hdom. apply set_eq. intros t.
      rewrite elem_of_union, elem_of_list_to_set, !elem_of_tag_interval.
      change (map (Z.add 1) order) with (Z.add 1 <$> order).
      rewrite list_elem_of_fmap. split.
      * intros [Ht|(j & -> & Hj)]; [lia|].
        rewrite Hperm in Hj. apply elem_of_seqZ in Hj. lia.
      * intros Ht. destruct (decide (t < start + 1)) as [Hlt|Hge]; [left; lia|right].
        exists (t - 1). split; [lia|]. rewrite Hperm. apply elem_of_seqZ. lia.
    + rewrite H5, inserted_tags_app. cbn [inserted_tags flat_map app].
      rewrite app_nil_r. apply Permutation_app_head.
      rewrite <- map_succ_seqZ. apply Permutation_map. exact Hperm.
    + rewrite H6, deleted_tags_app. cbn. rewrite app_nil_r. reflexivity.
Qed.

Lemma div_step (a c : Z) : 0 < c -> c <= a -> a / c = (a - c) / c + 1.
Proof.
  intros Hc Ha. replace a with ((a - c) + 1 * c) at 1 by ring.
  apply Z.div_add. lia.
Qed.

Lemma streaming_loop_window (sz : Z) (schedule : list Z -> list Z) (f : file)
    (npts dim W C N : Z) (fuel : nat) :
  0 < sz <= 8 ->
  well_formed_bin sz f npts dim ->
  runs_each_once schedule ->
  0 <= W -> 0 < C -> W + C <= N -> N <= npts ->
  forall (start : Z) (data : list byte) (w : World),
    start = W \/ W + C <= start ->
    start <= N ->
    (N - start) / C < Z.of_nat fuel ->
    Z.max W C * (ROUND_UP dim 8 * sz) <= Z.of_nat (length data) ->
    Z.of_nat (length data) < 2 ^ 64 ->
    dom (live (index w)) = tag_interval (Z.max 0 (start - W - C) + 1) (start + 1) ->
    tombstoned (index w) = ∅ ->
    W + 2 * C <= max_points (index w) ->
    known_statuses (script w) ->
    (N - start) / C - (if start =? W then 1 else 0) <= successes (script w) ->
    exists w',
      streaming_loop sz schedule f [] false W C (ROUND_UP dim 8) N fuel start data w
      = Finished w' /\
      let last := start + (N - start) / C * C in
      dom (live (index w')) = tag_interval (Z.max 0 (last - W - C) + 1) (last + 1) /\
      tombstoned (index w') = ∅ /\
      inserted_tags (log w') ≡ₚ inserted_tags (log w) ++ seqZ (start + 1) (last - start) /\
      deleted_tags (log w') =
        deleted_tags (log w)
        ++ seqZ (Z.max 0 (start - W - C) + 1)
             (Z.max 0 (last - W - C) - Z.max 0 (start - W - C)).
Proof.
  intros Hsz Hwf Hsched HW HC HWC HN.
  pose proof Hwf as (Hhdr & Hn & Hd & Hsize & Hreal).
  destruct (read_header_range _ _ _ Hhdr) as [Hn0 Hd0].
  destruct (ROUND_UP_8 dim ltac:(lia)) as (_ & _ & Hrd).
  induction fuel as [|fuel IH];
    intros start data w Hstart HsN Hfuel Hbuf Hmem Hdom Htomb Hcap Hknown Hsucc.
  { exfalso. assert (0 <= (N - start) / C) by (apply Z.div_pos; lia). lia. }
  cbn [streaming_loop]. rewrite add_small by lia.
  destruct (Z.leb_spec (start + C) N) as [Hgo|Hstop].
  - (* one more batch *)
    assert (Hmin : SizeT.min (start + C) N = start + C).
    { unfold SizeT.min. destruct (Z.ltb_spec N (start + C)); [lia|reflexivity]. }
    rewrite Hmin.
    assert (Hrow : 0 <= ROUND_UP dim 8 * sz) by (apply Z.mul_nonneg_nonneg; lia).
    destruct (insert_task_ok sz schedule f npts dim (Z.max 0 (start - W - C)) start
                (start + C) data w)
      as (data1 & w1 & Hins & Hlen1 & Hdom1 & Htomb1 & Hcap1 & Hscr1 & Hit1 & Hdt1);
      try assumption; try lia.
    { replace (start + C - start) with C by ring.
      assert (C * (ROUND_UP dim 8 * sz) <= Z.max W C * (ROUND_UP dim 8 * sz))
        by (apply Z.mul_le_mono_nonneg_r; lia).
      lia. }
    rewrite Hins. cbn [negb]. rewrite add_small by lia.
    pose proof (div_step (N - start) C HC ltac:(lia)) as Hdiv.
    replace (N - start - C) with (N - (start + C)) in Hdiv by ring.
    assert (Hq : 0 <= (N - (start + C)) / C) by (apply Z.div_pos; lia).
    assert (HqC : 0 <= (N - (start + C)) / C * C) by (apply Z.mul_nonneg_nonneg; lia).
    assert (Hlast : start + (N - start) / C * C
                    = start + C + (N - (start + C)) / C * C)
      by (rewrite Hdiv; ring).
    assert (Hnext : (start + C =? W) = false) by (apply Z.eqb_neq; lia).
    rewrite Z.geb_leb.
    destruct (Z.leb_spec (W + C) start) as [Hdel|Hnodel].
    + (* a deletion task is spawned *)
      assert (HsW : (start =? W) = false) by (apply Z.eqb_neq; lia).
      rewrite HsW in Hsucc.
      rewrite (sub_small start W) by lia.
      rewrite (sub_small (start - W) C) by lia.
      replace (Z.max 0 (start - W - C)) with (start - W - C) in * by lia.
      destruct (delete_and_consolidate_window w1 (start - W - C) (start - W) (start + C))
        as (w2 & Hrun2 & Hdom2 & Htomb2 & Hcap2 & Hknown2 & Hsucc2 & Hit2 & Hdt2);
        [lia|lia|exact Hdom1|rewrite Hscr1; exact Hknown|rewrite Hscr1; lia|].
      rewrite Hrun2.
      destruct (IH (start + C) data1 w2) as (w' & Hrun & Hdom' & Htomb' & Hit' & Hdt');
        try lia; try assumption.
      * rewrite Hdom2. f_equal. lia.
      * rewrite Hnext, Hsucc2, Hscr1. lia.
      * exists w'. split; [exact Hrun|]. cbv zeta in *. rewrite Hlast.
        split; [exact Hdom'|]. split; [exact Htomb'|]. split.
        -- rewrite Hit', Hit2, Hit1, <- app_assoc. apply Permutation_app_head.
           replace (start + C - start) with C by ring.
           replace (start + C + (N - (start + C)) / C * C - start)
             with (C + (start + C + (N - (start + C)) / C * C - (start + C))) by ring.
           rewrite seqZ_app by lia.
           replace (start + 1 + C) with (start + C + 1) by ring. reflexivity.
        -- rewrite Hdt', Hdt2, Hdt1, <- app_assoc. f_equal.
           replace (Z.max 0 (start + C - W - C)) with (start - W) by lia.
           replace (start - W - (start - W - C)) with C by ring.
           replace (Z.max 0 (start + C + (N - (start + C)) / C * C - W - C) - (start - W - C))
             with (C + (Z.max 0 (start + C + (N - (start + C)) / C * C - W - C) - (start - W)))
             by ring.
           rewrite seqZ_app by lia. f_equal. f_equal; lia.
    + (* the first batch after the initial window: nothing to delete yet *)
      assert (start = W) by lia. subst start.
      rewrite Z.eqb_refl in Hsucc.
      replace (Z.max 0 (W - W - C)) with 0 in * by lia.
      destruct (IH (W + C) data1 w1) as (w' & Hrun & Hdom' & Htomb' & Hit' & Hdt');
        try lia; try assumption.
      * rewrite Hdom1. f_equal. lia.
      * rewrite Hscr1. exact Hknown.
      * rewrite Hnext, Hscr1. lia.
      * exists w'. split; [exact Hrun|]. cbv zeta in *. rewrite Hlast.
        split; [exact Hdom'|]. split; [exact Htomb'|]. split.
        -- rewrite Hit', Hit1, <- app_assoc. apply Permutation_app_head.
           replace (W + C - W) with C by ring.
           replace (W + C + (N - (W + C)) / C * C - W)
             with (C + (W + C + (N - (W + C)) / C * C - (W + C))) by ring.
           rewrite seqZ_app by lia.
           replace (W + 1 + C) with (W + C + 1) by ring. reflexivity.
        -- rewrite Hdt', Hdt1. f_equal.
           replace (Z.max 0 (W + C - W - C)) with 0 by lia. reflexivity.
  - (* the loop is left *)
    assert (Hzero : (N - start) / C = 0) by (apply Z.div_small; lia).
    exists w. split; [reflexivity|]. cbv zeta. rewrite Hzero.
    replace (start + 0 * C) with start by ring.
    split; [exact Hdom|]. split; [exact Htomb|].
    rewrite Z.sub_diag. rewrite !seqZ_nil by lia. rewrite !app_nil_r. auto.
Qed.

Lemma alloc_data_length (sz npts dim W C : Z) (f : file) :
  0 < sz <= 8 ->
  well_formed_bin sz f npts dim ->
  0 <= W <= npts -> 0 <= C <= npts ->
  let data := alloc_data sz (ROUND_UP dim 8) W C in
  Z.of_nat (length data) = Z.max W C * (ROUND_UP dim 8 * sz) /\
  Z.of_nat (length data) < 2 ^ 64.
Proof.
  intros Hsz (Hhdr & Hn & Hd & Hsize & Hreal) HW HC.
  destruct (read_header_range _ _ _ Hhdr) as [Hn0 Hd0].
  destruct (ROUND_UP_8 dim ltac:(lia)) as (_ & _ & Hrd).
  set (rd := ROUND_UP dim 8) in *.
  assert (Hmax : SizeT.max C W = Z.max W C).
  { unfold SizeT.max. destruct (Z.ltb_spec C W); lia. }
  assert (HM : 0 <= Z.max W C <= npts) by lia.
  set (M := Z.max W C) in *.
  assert (H1 : 0 <= M * rd) by (apply Z.mul_nonneg_nonneg; lia).
  assert (H2 : M * rd <= npts * (dim + 7)) by (apply Z.mul_le_mono_nonneg; lia).
  assert (H3 : M * rd * sz <= npts * (dim + 7) * sz)
    by (apply Z.mul_le_mono_nonneg_r; lia).
  assert (H4 : 0 <= M * rd * sz) by (apply Z.mul_nonneg_nonneg; lia).
  assert (H5 : npts * (dim + 7) * sz = npts * dim * sz + 7 * (npts * sz)) by ring.
  assert (H6 : 0 <= npts * sz <= 2 ^ 31 * 8) by nia.
  assert (H7 : M * rd <= M * rd * sz) by nia.
  unfold alloc_data. cbv zeta. rewrite length_replicate, Hmax. fold M rd.
  rewrite (mul_small M rd) by lia.
  rewrite (mul_small (M * rd) sz) by lia.
  rewrite Z2Nat.id by lia. split; [ring|lia].
Qed.

Lemma check_parameters_ok (num_points N W C : Z) :
  let N' := if N =? 0 then num_points else N in
  0 <= W -> 0 <= C -> W + C < 2 ^ 64 ->
  N' <= num_points -> W + C <= N' -> N' / 1000 <= C ->
  check_parameters num_points N W C = inr N'.
Proof.
  intros N' HW HC Hfit H1 H2 H3. unfold check_parameters. fold N'.
  rewrite add_small by lia.
  destruct (Z.ltb_spec num_points N'); [lia|].
  destruct (Z.ltb_spec N' (W + C)); [lia|].
  destruct (Z.ltb_spec C (N' / 1000)); [lia|reflexivity].
Qed.

(** The run of the driver on a well-formed file without labels, with a
    consolidator that succeeds once for every deletion task: it finishes,
    and its insertions, lazy deletions and live tags are these. *)
Lemma build_incremental_index_window (sz : Z) (schedule : list Z -> list Z) (f : file)
    (labels : list (list Z)) (npts dim N W C : Z) (answers : list answer) (fuel : nat) :
  0 < sz <= 8 ->
  well_formed_bin sz f npts dim ->
  runs_each_once schedule ->
  let N' := if N =? 0 then npts else N in
  0 <= W -> 0 < C ->
  N' <= npts -> W + C <= N' -> N' / 1000 <= C ->
  known_statuses answers ->
  (N' - W) / C - 1 <= successes answers ->
  (N' - W) / C < Z.of_nat fuel ->
  let k := (N' - W) / C in
  1 <= k /\
  exists w,
    build_incremental_index sz schedule f labels false N W C answers fuel = Finished w /\
    dom (live (index w)) = tag_interval ((k - 1) * C + 1) (W + k * C + 1) /\
    tombstoned (index w) = ∅ /\
    inserted_tags (log w) ≡ₚ seqZ 1 (W + k * C) /\
    deleted_tags (log w) = seqZ 1 ((k - 1) * C).
Proof.
  intros Hsz Hwf Hsched N' HW HC HN HWC Hthrash Hknown Hsucc Hfuel k.
  pose proof Hwf as (Hhdr & Hn & Hd & Hsize & Hreal).
  destruct (read_header_range _ _ _ Hhdr) as [Hn0 Hd0].
  assert (Hk : 1 <= k).
  { unfold k. rewrite (div_step (N' - W) C) by lia.
    assert (0 <= (N' - W - C) / C) by (apply Z.div_pos; lia). lia. }
  split; [exact Hk|].
  assert (HkC : C <= k * C) by nia.
  unfold build_incremental_index.
  rewrite (get_bin_metadata_well_formed sz f npts dim Hwf).
  rewrite check_parameters_ok by (fold N'; lia). fold N'.
  destruct (alloc_data_length sz npts dim W C f Hsz Hwf ltac:(lia) ltac:(lia))
    as [Hlen Hmem].
  set (data := alloc_data sz (ROUND_UP dim 8) W C) in *.
  assert (Hcapacity : index_capacity W C = W + 4 * C).
  { unfold index_capacity. rewrite (mul_small 4 C) by lia. apply add_small. lia. }
  destruct (ROUND_UP_8 dim ltac:(lia)) as (_ & _ & Hrd).
  assert (Hrow : 0 <= ROUND_UP dim 8 * sz) by (apply Z.mul_nonneg_nonneg; lia).
  destruct (insert_task_ok sz schedule f npts dim 0 0 W data
              (mkWorld (new_index (index_capacity W C)) answers []))
    as (data0 & w0 & Hins & Hlen0 & Hdom0 & Htomb0 & Hcap0 & Hscr0 & Hit0 & Hdt0);
    try assumption; try lia.
  { rewrite Z.sub_0_r, Hlen. apply Z.mul_le_mono_nonneg_r; lia. }
  { cbn [index new_index live]. rewrite dom_empty_L. apply set_eq. intros t.
    rewrite elem_of_tag_interval. split; [intros Ht; inversion Ht|lia]. }
  { reflexivity. }
  { cbn [index new_index max_points]. lia. }
  rewrite Hins.
  destruct (streaming_loop_window sz schedule f npts dim W C N' fuel Hsz Hwf Hsched
              HW HC HWC HN W data0 w0)
    as (w & Hrun & Hdom & Htomb & Hit & Hdt); try lia.
  - rewrite Hdom0. f_equal. lia.
  - exact Htomb0.
  - rewrite Hcap0. cbn [index new_index max_points]. lia.
  - rewrite Hscr0. exact Hknown.
  - rewrite Hscr0, Z.eqb_refl. cbn [script]. fold k. lia.
  - exists w. split; [exact Hrun|]. cbv zeta in *. fold k in Hdom, Hit, Hdt.
    replace (Z.max 0 (W + k * C - W - C)) with ((k - 1) * C) in * by lia.
    split; [exact Hdom|]. split; [exact Htomb|]. split.
    + rewrite Hit, Hit0. cbn [log inserted_tags flat_map app].
      replace (W + k * C - W) with (k * C) by ring.
      rewrite Z.sub_0_r. change (0 + 1) with 1.
      rewrite (seqZ_app 1 W (k * C)) by lia.
      replace (1 + W) with (W + 1) by ring. reflexivity.
    + rewrite Hdt, Hdt0. cbn [log deleted_tags flat_map app].
      replace (Z.max 0 (W - W - C)) with 0 by lia.
      f_equal. ring.
Qed.

(** C1, as the driver behaves.  On a well-formed file, without labels, with
    parameters that pass the checks, [consolidate_interval > 0] and a
    consolidator that answers every call with a report SUCCESS, LOCK_FAIL
    or INCONSISTENT_COUNT_ERROR, SUCCESS at least once for each of the
    [k - 1] deletion tasks, where [k = (N - W) / C] (integer division), the
    driver finishes and the live tags are exactly
    [(k-1)*C + 1, ..., W + k*C]: [W + C] of them, not [W], since the last
    [C] tags that left the window have not been deleted yet.  When [C]
    divides [N - W] they are [N - W - C + 1, ..., N].  In terms of the
    calls alone: the driver has inserted the tags [1, ..., W + k*C], each
    batch in the order of the parallel loop, and lazy-deleted the tags
    [1, ..., (k-1)*C]. *)
Theorem streaming_live_tags (sz : Z) (schedule : list Z -> list Z) (f : file)
    (labels : list (list Z)) (npts dim N W C : Z) (answers : list answer)
    (fuel : nat) :
  0 < sz <= 8 ->
  well_formed_bin sz f npts dim ->
  runs_each_once schedule ->
  let N' := if N =? 0 then npts else N in
  0 <= W -> 0 < C ->
  N' <= npts -> W + C <= N' -> N' / 1000 <= C ->
  known_statuses answers ->
  (N' - W) / C - 1 <= successes answers ->
  (N' - W) / C < Z.of_nat fuel ->
  let k := (N' - W) / C in
  exists w,
    build_incremental_index sz schedule f labels false N W C answers fuel = Finished w /\
    (forall t, t ∈ live_tags (index w) <-> (k - 1) * C + 1 <= t <= W + k * C) /\
    live_size (index w) = W + C /\
    ((N' - W) mod C = 0 ->
     forall t, t ∈ live_tags (index w) <-> N' - W - C + 1 <= t <= N') /\
    inserted_tags (log w) ≡ₚ seqZ 1 (W + k * C) /\
    deleted_tags (log w) = seqZ 1 ((k - 1) * C).
Proof.
  intros Hsz Hwf Hsched N' HW HC HN HWC Hthrash Hknown Hsucc Hfuel k.
  destruct (build_incremental_index_window sz schedule f labels npts dim N W C
              answers fuel)
    as (Hk & w & Hrun & Hdom & _ & Hins & Hdel); try assumption.
  fold N' k in Hk, Hdom, Hins, Hdel.
  exists w. split; [exact Hrun|].
  assert (Hlive : forall t, t ∈ live_tags (index w) <-> (k - 1) * C + 1 <= t <= W + k * C).
  { intros t. unfold live_tags. rewrite Hdom, elem_of_tag_interval. lia. }
  split; [exact Hlive|]. split; [|split; [|split; [exact Hins|exact Hdel]]].
  - unfold live_size. rewrite <- size_dom, Hdom, size_tag_interval; nia.
  - intros Hmod t. rewrite Hlive.
    assert (HkC : k * C = N' - W).
    { unfold k. pose proof (Z.div_mod (N' - W) C ltac:(lia)). lia. }
    lia.
Qed.

Lemma scenario_file_well_formed : well_formed_bin 1 scenario_file 1000 4.
Proof. repeat split; vm_compute; reflexivity. Qed.

Lemma small_file_well_formed : well_formed_bin 1 small_file 12 1.
Proof. repeat split; vm_compute; reflexivity. Qed.

Lemma runs_each_once_id : runs_each_once (fun l => l).
Proof. intros l. reflexivity. Qed.

Lemma runs_each_once_reverse : runs_each_once (@reverse Z).
Proof. intros l. apply reverse_Permutation. Qed.

Lemma streaming_live_tags_witness :
  exists w,
    build_incremental_index 1 (@reverse Z) scenario_file [] false 1000 200 50
      (Reports LOCK_FAIL :: replicate 15 (Reports SUCCESS)) 17 = Finished w /\
    (forall t, t ∈ live_tags (index w) <-> 751 <= t <= 1000) /\
    live_size (index w) = 250.
Proof.
  destruct (streaming_live_tags 1 (@reverse Z) scenario_file [] 1000 4 1000 200 50
              (Reports LOCK_FAIL :: replicate 15 (Reports SUCCESS)) 17)
    as (w & Hrun & Hlive & Hsize & _ & _ & _).
  - lia.
  - repeat split; vm_compute; reflexivity.
  - exact runs_each_once_reverse.
  - lia.
  - lia.
  - vm_compute. discriminate.
  - vm_compute. discriminate.
  - vm_compute. discriminate.
  - repeat constructor.
  - vm_compute. discriminate.
  - vm_compute. reflexivity.
  - exists w. split; [exact Hrun|]. split; [exact Hlive|exact Hsize].
Defined.

(** C1, as stated, fails in its own scenario: with N = 1000, W = 200,
    C = 50 the driver finishes with 250 live tags, and tag 751 is live. *)
Lemma streaming_live_tags_counterexample :
  exists w,
    build_incremental_index 1 (fun l => l) scenario_file [] false 1000 200 50
      (replicate 15 (Reports SUCCESS)) 17 = Finished w /\
    live_size (index w) = 250 /\
    751 ∈ live_tags (index w) /\
    ~ (live_size (index w) = 200 /\
       forall t, t ∈ live_tags (index w) <-> 801 <= t <= 1000).
Proof.
  destruct (build_incremental_index_window 1 (fun l => l) scenario_file [] 1000 4
              1000 200 50 (replicate 15 (Reports SUCCESS)) 17)
    as (_ & w & Hrun & Hdom & _).
  - lia.
  - exact scenario_file_well_formed.
  - exact runs_each_once_id.
  - lia.
  - lia.
  - vm_compute. discriminate.
  - vm_compute. discriminate.
  - vm_compute. discriminate.
  - repeat constructor.
  - vm_compute. discriminate.
  - vm_compute. reflexivity.
  - exists w. split; [exact Hrun|].
    assert (Hdom' : dom (live (index w)) = tag_interval 751 1001) by exact Hdom.
    assert (Hsize : live_size (index w) = 250).
    { unfold live_size. rewrite <- size_dom, Hdom', size_tag_interval; lia. }
    split; [exact Hsize|]. split.
    + unfold live_tags. rewrite Hdom', elem_of_tag_interval. lia.
    + intros [H200 _]. lia.
Qed.

(** ** The deletion task of an iteration *)

Lemma lazy_delete_loop_log (n : nat) :
  forall (i : Z) (w : World),
    0 <= i -> i + Z.of_nat n < 2 ^ 32 ->
    log (lazy_delete_loop n i w) = log w ++ map EvLazyDelete (seqZ (i + 1) (Z.of_nat n)).
Proof.
  induction n as [|n IH]; intros i w Hi Hfit.
  - cbn [lazy_delete_loop]. rewrite seqZ_nil by lia. cbn [map].
    rewrite app_nil_r. reflexivity.
  - cbn [lazy_delete_loop]. rewrite IH by lia.
    rewrite delete_tag_small by lia. cbn [emit log].
    rewrite (seqZ_cons (i + 1) (Z.of_nat (S n))) by lia.
    replace (Z.pred (Z.of_nat (S n))) with (Z.of_nat n) by lia.
    replace (Z.succ (i + 1)) with (i + 1 + 1) by lia.
    replace (1 + i) with (i + 1) by ring.
    cbn [map]. rewrite <- app_assoc. reflexivity.
Qed.

Lemma consolidate_with_retry_log (answers : list answer) (idx : Index)
    (lg : list event) :
  exists lg',
    task_log (consolidate_with_retry answers idx lg)
    = lg ++ EvConsolidate (hd Pending answers) :: lg'.
Proof.
  destruct (consolidate_with_retry_cases answers idx lg)
    as (rs & a & rest & _ & _ & Hshape & ->).
  rewrite task_log_task_end. cbn [log].
  destruct rs as [|r rs].
  - exists []. destruct Hshape as [->|(-> & -> & _)]; reflexivity.
  - unfold backoff_events. cbn [flat_map app].
    destruct Hshape as [->|(-> & _)]; cbn [hd app]; eexists; reflexivity.
Qed.

Lemma consolidate_with_retry_deleted_tags (answers : list answer)
    (idx : Index) (lg : list event) :
  deleted_tags (task_log (consolidate_with_retry answers idx lg)) = deleted_tags lg.
Proof.
  destruct (consolidate_with_retry_cases answers idx lg)
    as (rs & a & rest & _ & _ & _ & ->).
  rewrite task_log_task_end. cbn [log]. rewrite !deleted_tags_app.
  destruct (tags_backoff_events rs) as [_ ->]. cbn. rewrite app_nil_r. reflexivity.
Qed.

(** C2, as the driver behaves.  Insertion gives the point of linear index
    [j] the tag [1 + j], and deletion addresses the point of linear index
    [i] by the same tag [1 + i].  In an iteration at [start] with labels
    disabled and [start >= W + C], the task that the driver spawns is
    [delete_and_consolidate] on the linear indices
    [start - W - C, ..., start - W - 1]: it lazy-deletes, in this order, the
    tags [start - W - C + 1, ..., start - W] and no other tag, and its next
    call to the index is [consolidate_deletes]. *)
Theorem deletion_task_of_iteration (sz : Z) (schedule : list Z -> list Z) (f : file)
    (labels : list (list Z)) (W C aligned_dim N : Z) (fuel : nat) (start : Z)
    (data data1 : list byte) (w w1 : World) :
  0 <= W -> 0 <= C -> W + C <= start -> start + C <= N -> N < 2 ^ 32 ->
  insert_task sz schedule f labels aligned_dim start (start + C) data w
  = Some (data1, w1) ->
  let task := delete_and_consolidate w1 (start - W - C) (start - W) in
  (forall j, 0 <= j < N -> insert_tag j = 1 + j /\ delete_tag j = 1 + j) /\
  streaming_loop sz schedule f labels false W C aligned_dim N (S fuel) start data w =
    match task with
    | TaskExited code w2 => Exited code w2
    | TaskRunning w2 => OutOfFuel w2
    | TaskReturned w2 | TaskThrew w2 =>
        streaming_loop sz schedule f labels false W C aligned_dim N fuel (start + C)
          data1 w2
    end /\
  deleted_tags (task_log task) = deleted_tags (log w1) ++ seqZ (start - W - C + 1) C /\
  exists lg',
    task_log task =
      log w1 ++ map EvLazyDelete (seqZ (start - W - C + 1) C)
             ++ EvConsolidate (hd Pending (script w1)) :: lg'.
Proof.
  intros HW HC Hstart Hend Hfit Hins task. split; [|split; [|split]].
  - intros j Hj. split; [apply insert_tag_small|apply delete_tag_small]; lia.
  - cbn [streaming_loop]. rewrite add_small by lia.
    destruct (Z.leb_spec (start + C) N) as [_|]; [|lia].
    assert (Hmin : SizeT.min (start + C) N = start + C).
    { unfold SizeT.min. destruct (Z.ltb_spec N (start + C)); [lia|reflexivity]. }
    rewrite Hmin, Hins. cbn [negb]. rewrite add_small by lia.
    rewrite Z.geb_leb. destruct (Z.leb_spec (W + C) start) as [_|]; [|lia].
    rewrite (sub_small start W) by lia.
    rewrite (sub_small (start - W) C) by lia.
    reflexivity.
  - subst task. unfold delete_and_consolidate.
    rewrite consolidate_with_retry_deleted_tags.
    rewrite lazy_delete_loop_log by lia.
    rewrite deleted_tags_app, deleted_tags_lazy_deletes.
    rewrite Z2Nat.id by lia.
    replace (start - W - (start - W - C)) with C by ring. reflexivity.
  - subst task. unfold delete_and_consolidate.
    pose proof (lazy_delete_loop_log (Z.to_nat (start - W - (start - W - C)))
                  (start - W - C) w1 ltac:(lia) ltac:(lia)) as Hlog.
    pose proof (lazy_delete_loop_script (Z.to_nat (start - W - (start - W - C)))
                  (start - W - C) w1) as Hscr.
    set (w' := lazy_delete_loop _ _ _) in *.
    destruct (consolidate_with_retry_log (script w') (index w') (log w')) as [lg' ->].
    exists lg'. rewrite Hlog, Hscr, <- app_assoc.
    rewrite Z2Nat.id by lia.
    replace (start - W - (start - W - C)) with C by ring. reflexivity.
Qed.

Lemma deletion_task_of_iteration_witness :
  exists data1 w1 lg',
    insert_task 1 (@reverse Z) small_file [] 8 7 10 (replicate 32 x00)
      (mkWorld (new_index 16) [Reports SUCCESS] []) = Some (data1, w1) /\
    task_log (delete_and_consolidate w1 0 3) =
      log w1 ++ [EvLazyDelete 1; EvLazyDelete 2; EvLazyDelete 3]
             ++ EvConsolidate (Reports SUCCESS) :: lg'.
Proof.
  destruct (insert_task 1 (@reverse Z) small_file [] 8 7 10 (replicate 32 x00)
              (mkWorld (new_index 16) [Reports SUCCESS] [])) as [[data1 w1]|] eqn:Hins;
    [|vm_compute in Hins; discriminate].
  destruct (deletion_task_of_iteration 1 (@reverse Z) small_file [] 4 3 8 12 0 7
              (replicate 32 x00) data1 (mkWorld (new_index 16) [Reports SUCCESS] []) w1)
    as (_ & _ & _ & lg' & Hlog); try lia; [exact Hins|].
  exists data1, w1, lg'. split; [reflexivity|].
  assert (Hscr : script w1 = [Reports SUCCESS]).
  { vm_compute in Hins. injection Hins as _ <-. reflexivity. }
  rewrite Hscr in Hlog. exact Hlog.
Defined.

(** C2, as stated, fails: in the run on twelve points with W = 4, C = 3 the
    only deletion task is that of [start = 7], for the interval [0, 3); the
    tags it lazy-deletes are 1, 2, 3: tag 3 lies outside the interval, and
    tag 0, inside it, is not deleted. *)
Lemma deletion_task_of_iteration_counterexample :
  exists w,
    build_incremental_index 1 (fun l => l) small_file [] false 0 4 3
      [Reports SUCCESS] 5 = Finished w /\
    deleted_tags (log w) = [1; 2; 3] /\
    (7 - 4 - 3 = 0 /\ 7 - 4 = 3) /\
    (3 ∈ deleted_tags (log w) /\ ~ (0 <= 3 < 3)) /\
    (0 <= 0 < 3 /\ 0 ∉ deleted_tags (log w)).
Proof.
  destruct (build_incremental_index_window 1 (fun l => l) small_file [] 12 1 0 4 3
              [Reports SUCCESS] 5)
    as (_ & w & Hrun & _ & _ & _ & Hdel).
  - lia.
  - exact small_file_well_formed.
  - exact runs_each_once_id.
  - lia.
  - lia.
  - vm_compute. discriminate.
  - vm_compute. discriminate.
  - vm_compute. discriminate.
  - repeat constructor.
  - vm_compute. discriminate.
  - vm_compute. reflexivity.
  - exists w. split; [exact Hrun|].
    change (deleted_tags (log w) = [1; 2; 3]) in Hdel.
    rewrite Hdel. split; [reflexivity|]. split; [lia|]. split.
    + split; [|lia]. apply list_elem_of_In. cbn. tauto.
    + split; [lia|]. intros Hin. apply list_elem_of_In in Hin. cbn in Hin. lia.
Qed.

(** ** A zero [consolidate_interval]

    The third check lets [consolidate_interval = 0] pass when fewer than
    1000 points are to be inserted; the loop then never advances. *)

Lemma delete_and_consolidate_nothing (w : World) (start : Z) :
  known_statuses (script w) ->
  (exists w',
     delete_and_consolidate w start start = TaskReturned w' /\
     known_statuses (script w')) \/
  (exists w', delete_and_consolidate w start start = TaskRunning w').
Proof.
  intros Hknown. unfold delete_and_consolidate.
  rewrite Z.sub_diag. change (Z.to_nat 0) with 0%nat.
  cbn [lazy_delete_loop]. cbv zeta.
  destruct (consolidate_with_retry_known (script w) (index w) (log w) Hknown)
    as [(_ & rs & rest & _ & Hshape & ->)|(_ & _ & ->)].
  - left. eexists. split; [reflexivity|]. cbn [script].
    rewrite Hshape in Hknown. apply known_statuses_app_r in Hknown.
    unfold known_statuses in *. apply Forall_cons in Hknown. tauto.
  - right. eexists. reflexivity.
Qed.

(** Without labels an insertion task on a good file returns, whatever the
    order of its insertions. *)
Lemma insert_task_unlabelled (sz : Z) (schedule : list Z -> list Z) (f : file)
    (npts dim start end_ : Z) (data : list byte) (w : World) :
  0 < sz <= 8 ->
  well_formed_bin sz f npts dim ->
  0 <= start <= end_ -> end_ <= npts ->
  (end_ - start) * (ROUND_UP dim 8 * sz) <= Z.of_nat (length data) ->
  Z.of_nat (length data) < 2 ^ 64 ->
  exists data' w',
    insert_task sz schedule f [] (ROUND_UP dim 8) start end_ data w = Some (data', w') /\
    length data' = length data /\
    script w' = script w.
Proof.
  intros Hsz (Hhdr & Hn & Hd & Hsize & Hreal) Hse Hen Hbuf Hmem.
  unfold insert_task. rewrite sub_small by lia.
  destruct (load_aligned_bin_part_ok sz f data start (end_ - start) npts dim)
    as (data' & Hload & Hlen & _); try assumption; try lia.
  rewrite Hload. unfold insert_next_batch.
  destruct (insert_loop_defined sz data' (ROUND_UP dim 8) [] start
              (schedule (seqZ (to_int64 start) (to_int64 end_ - to_int64 start))))
    with (w := emit (EvLoad start (end_ - start) Loaded) w) (num_failed := 0)
    as [[w' nf] Hrun]; [left; reflexivity|].
  rewrite Hrun. exists data', w'. split; [reflexivity|]. split; [exact Hlen|].
  destruct (insert_loop_calls _ _ _ _ _ _ _ _ _ _ Hrun) as (Hscript & _).
  exact Hscript.
Qed.

Lemma streaming_loop_zero_interval (sz : Z) (schedule : list Z -> list Z) (f : file)
    (npts dim W N : Z) (fuel : nat) :
  0 < sz <= 8 ->
  well_formed_bin sz f npts dim ->
  0 <= W <= N -> N <= npts ->
  forall (data : list byte) (w : World),
    Z.of_nat (length data) < 2 ^ 64 ->
    known_statuses (script w) ->
    exists w',
      streaming_loop sz schedule f [] false W 0 (ROUND_UP dim 8) N fuel W data w
      = OutOfFuel w'.
Proof.
  intros Hsz Hwf HW HN.
  pose proof Hwf as (Hhdr & Hn & Hd & Hsize & Hreal).
  induction fuel as [|fuel IH]; intros data w Hmem Hknown.
  - cbn [streaming_loop]. rewrite add_small by lia. rewrite Z.add_0_r.
    destruct (Z.leb_spec W N); [eauto|lia].
  - cbn [streaming_loop]. rewrite !add_small by lia. rewrite Z.add_0_r.
    destruct (Z.leb_spec W N); [|lia].
    assert (Hmin : SizeT.min W N = W).
    { unfold SizeT.min. destruct (Z.ltb_spec N W); [lia|reflexivity]. }
    rewrite Hmin.
    destruct (insert_task_unlabelled sz schedule f npts dim W W data w Hsz Hwf)
      as (data1 & w1 & Htask & Hlen1 & Hscript1);
      [lia|lia|rewrite Z.sub_diag; lia|exact Hmem|].
    rewrite Htask. cbn [negb].
    rewrite Z.geb_leb. destruct (Z.leb_spec W W); [|lia].
    rewrite (sub_small W W) by lia. rewrite Z.sub_diag.
    rewrite (sub_small 0 0) by lia. rewrite Z.sub_diag.
    destruct (delete_and_consolidate_nothing w1 0) as [(w2 & -> & Hknown2)|(w2 & ->)].
    + rewrite Hscript1. exact Hknown.
    + apply IH; [congruence|exact Hknown2].
    + eauto.
Qed.

(** X19. With [consolidate_interval = 0] and fewer than 1000 points to
    insert the three checks pass, and the loop of the driver never ends:
    [start] does not advance, and whatever the number of iterations allowed
    the driver is still in the loop, loading and inserting an empty batch
    and consolidating. *)
Lemma zero_interval_never_finishes (sz : Z) (schedule : list Z -> list Z) (f : file)
    (labels : list (list Z)) (npts dim N W : Z) (answers : list answer) (fuel : nat) :
  0 < sz <= 8 ->
  well_formed_bin sz f npts dim ->
  let N' := if N =? 0 then npts else N in
  0 <= W <= N' -> N' <= npts -> N' < 1000 ->
  known_statuses answers ->
  exists w,
    build_incremental_index sz schedule f labels false N W 0 answers fuel = OutOfFuel w.
Proof.
  intros Hsz Hwf N' HW HN Hsmall Hknown.
  pose proof Hwf as (Hhdr & Hn & Hd & Hsize & Hreal).
  destruct (read_header_range _ _ _ Hhdr) as [Hn0 Hd0].
  unfold build_incremental_index.
  rewrite (get_bin_metadata_well_formed sz f npts dim Hwf).
  rewrite check_parameters_ok; fold N'; try lia.
  2:{ rewrite Z.div_small by lia. lia. }
  destruct (alloc_data_length sz npts dim W 0 f Hsz Hwf ltac:(lia) ltac:(lia))
    as [Hlen Hmem].
  set (data := alloc_data sz (ROUND_UP dim 8) W 0) in *.
  destruct (ROUND_UP_8 dim ltac:(lia)) as (_ & _ & Hrd).
  assert (Hrow : 0 <= ROUND_UP dim 8 * sz) by (apply Z.mul_nonneg_nonneg; lia).
  destruct (insert_task_unlabelled sz schedule f npts dim 0 W data
              (mkWorld (new_index (index_capacity W 0)) answers []) Hsz Hwf)
    as (data0 & w0 & Hins & Hlen0 & Hscr0); [lia|lia|nia|exact Hmem|].
  rewrite Hins.
  apply (streaming_loop_zero_interval sz schedule f npts dim W N' fuel Hsz Hwf);
    [lia|lia|congruence|rewrite Hscr0; exact Hknown].
Qed.

(** ** The theorems at concrete inputs *)

Lemma load_aligned_bin_part_zero_padded_witness :
  (read_header tiny_file = Some (3, 2) /\ file_size tiny_file = 8 + 3 * 2 * 1) /\
  exists data',
    load_aligned_bin_part 1 tiny_file (replicate 16 xff) 1 2 = (Loaded, data') /\
    data' !! 0%nat = Some x03 /\ data' !! 1%nat = Some x04 /\
    data' !! 2%nat = Some x00 /\ data' !! 7%nat = Some x00 /\
    data' !! 8%nat = Some x05 /\ data' !! 9%nat = Some x06 /\
    data' !! 15%nat = Some x00.
Proof.
  split; [split; vm_compute; reflexivity|].
  destruct (load_aligned_bin_part_zero_padded 1 tiny_file (replicate 16 xff) 1 2 3 2)
    as (_ & _ & data' & Hrun & Hrows).
  - lia.
  - vm_compute. reflexivity.
  - vm_compute. reflexivity.
  - vm_compute. reflexivity.
  - lia.
  - lia.
  - lia.
  - vm_compute. discriminate.
  - vm_compute. reflexivity.
  - exists data'. split; [exact Hrun|].
    assert (Had : ROUND_UP 2 8 = 8) by (vm_compute; reflexivity).
    rewrite Had in Hrows.
    repeat split.
    + exact (Hrows 0 0 0 ltac:(lia) ltac:(lia) ltac:(lia)).
    + exact (Hrows 0 1 0 ltac:(lia) ltac:(lia) ltac:(lia)).
    + exact (Hrows 0 2 0 ltac:(lia) ltac:(lia) ltac:(lia)).
    + exact (Hrows 0 7 0 ltac:(lia) ltac:(lia) ltac:(lia)).
    + exact (Hrows 1 0 0 ltac:(lia) ltac:(lia) ltac:(lia)).
    + exact (Hrows 1 1 0 ltac:(lia) ltac:(lia) ltac:(lia)).
    + exact (Hrows 1 7 0 ltac:(lia) ltac:(lia) ltac:(lia)).
Defined.

Lemma load_aligned_bin_part_range_check_witness :
  (read_header tiny_file = Some (3, 2) /\ 2 + 2 > 3) /\
  load_aligned_bin_part 1 tiny_file (replicate 16 xff) 2 2
  = (NotEnoughPoints, replicate 16 xff).
Proof.
  split; [split; vm_compute; reflexivity|].
  apply (proj1 (proj2 (load_aligned_bin_part_range_check 1 tiny_file
                         (replicate 16 xff) 2 2 3 2 eq_refl))); lia.
Defined.

(** C10 fails on the code: the sum of the range check is taken in
    [size_t].  The request for 2 points from offset [2^64 - 1] of a file of
    3 points passes the end of the file, yet the sum wraps to 1, the check
    passes, and the loader returns normally after it has overwritten the
    buffer with the bytes at position 6 of the file, the end of the header
    and the first point.  So does the request for 1 point from that offset,
    which is the one the loop of the driver makes for
    [active_window = 2^64 - 1] and [consolidate_interval = 1]. *)
Theorem range_check_overflow :
  read_header tiny_file = Some (3, 2) /\
  file_size tiny_file = 8 + 3 * 2 * 1 /\
  (2 ^ 64 - 1) + 2 > 3 /\
  load_aligned_bin_part 1 tiny_file (replicate 16 xff) (2 ^ 64 - 1) 2
  = (Loaded,
     [x00; x00; x00; x00; x00; x00; x00; x00; x01; x02; x00; x00; x00; x00; x00; x00]) /\
  (2 ^ 64 - 1) + 1 > 3 /\
  load_aligned_bin_part 1 tiny_file (replicate 16 xff) (2 ^ 64 - 1) 1
  = (Loaded,
     [x00; x00; x00; x00; x00; x00; x00; x00; xff; xff; xff; xff; xff; xff; xff; xff]).
Proof. repeat split; vm_compute; (reflexivity || discriminate). Qed.

Lemma load_truthset_size_decides_witness :
  (read_header tiny_truthset = Some (1, 1) /\ file_size tiny_truthset = 8 + 2 * 1 * 1 * 4) /\
  load_truthset tiny_truthset =
    TruthsetLoaded [x2a; x00; x00; x00] (Some [x00; x00; x80; x3f]) 1 1.
Proof.
  split; [split; vm_compute; reflexivity|].
  destruct (load_truthset_size_decides tiny_truthset 1 1) as ((_ & Hloaded) & _ & Hvariant).
  - vm_compute. reflexivity.
  - vm_compute. reflexivity.
  - destruct Hloaded as (ids & dists & Hrun); [right; vm_compute; reflexivity|].
    destruct (Hvariant ids dists Hrun) as [-> ->]. exact Hrun.
Defined.

Lemma inconsistent_count_is_retried_witness :
  Forall (fun r => r = Reports LOCK_FAIL \/ r = Reports INCONSISTENT_COUNT_ERROR)
    [Reports INCONSISTENT_COUNT_ERROR; Reports LOCK_FAIL] /\
  delete_and_consolidate
    (mkWorld (new_index 4)
       [Reports INCONSISTENT_COUNT_ERROR; Reports LOCK_FAIL; Reports SUCCESS] []) 0 0
  = TaskReturned
      (mkWorld (new_index 4) []
         [EvConsolidate (Reports INCONSISTENT_COUNT_ERROR); EvSleep 5;
          EvConsolidate (Reports LOCK_FAIL); EvSleep 5;
          EvConsolidate (Reports SUCCESS)]) /\
  (exists w',
     delete_and_consolidate
       (mkWorld (new_index 4) [Reports INCONSISTENT_COUNT_ERROR; Throws true] []) 0 0
     = TaskExited (-1) w' /\ script w' = []).
Proof.
  assert (Hrs : Forall (fun r => r = Reports LOCK_FAIL \/ r = Reports INCONSISTENT_COUNT_ERROR)
                  [Reports INCONSISTENT_COUNT_ERROR; Reports LOCK_FAIL])
    by (repeat constructor; auto).
  split; [exact Hrs|]. split.
  - exact (proj1 inconsistent_count_is_retried
             [Reports INCONSISTENT_COUNT_ERROR; Reports LOCK_FAIL] [] (new_index 4) []
             0 0 Hrs).
  - apply (proj1 (proj2 inconsistent_count_is_retried)
             [Reports INCONSISTENT_COUNT_ERROR] [] (Throws true) (new_index 4) [] 0 0).
    + constructor; [right; reflexivity|constructor].
    + right. reflexivity.
Defined.

(** C3, as stated, fails: after a report INCONSISTENT_COUNT_ERROR the task
    does not end the process; it sleeps, calls [consolidate_deletes] again
    and, on a report SUCCESS, returns. *)
Lemma inconsistent_count_counterexample :
  delete_and_consolidate
    (mkWorld (new_index 4) [Reports INCONSISTENT_COUNT_ERROR; Reports SUCCESS] []) 0 0
  = TaskReturned
      (mkWorld (new_index 4) []
         [EvConsolidate (Reports INCONSISTENT_COUNT_ERROR); EvSleep 5;
          EvConsolidate (Reports SUCCESS)]) /\
  ~ (exists code w,
       delete_and_consolidate
         (mkWorld (new_index 4) [Reports INCONSISTENT_COUNT_ERROR; Reports SUCCESS] [])
         0 0
       = TaskExited code w).
Proof.
  split; [reflexivity|]. intros (code & w & H). discriminate H.
Qed.

Lemma lock_fail_retried_until_success_witness :
  (exists before after,
     outcome_log
       (build_incremental_index 1 (fun l => l) small_file [] false 0 4 3
          [Reports LOCK_FAIL; Reports SUCCESS] 5)
     = before ++ EvSleep 5 :: after /\
     exists lg a,
       before = lg ++ [EvConsolidate a] /\
       (a = Reports LOCK_FAIL \/ a = Reports INCONSISTENT_COUNT_ERROR)) /\
  delete_and_consolidate
    (mkWorld (new_index 4) [Reports LOCK_FAIL; Reports LOCK_FAIL; Reports SUCCESS] [])
    0 0
  = TaskReturned
      (mkWorld (new_index 4) []
         [EvConsolidate (Reports LOCK_FAIL); EvSleep 5;
          EvConsolidate (Reports LOCK_FAIL); EvSleep 5;
          EvConsolidate (Reports SUCCESS)]).
Proof.
  split.
  - assert (Hlog : outcome_log
              (build_incremental_index 1 (fun l => l) small_file [] false 0 4 3
                 [Reports LOCK_FAIL; Reports SUCCESS] 5)
            = [EvLoad 0 4 Loaded; EvInsert 1 InsertOk; EvInsert 2 InsertOk;
               EvInsert 3 InsertOk; EvInsert 4 InsertOk;
               EvLoad 4 3 Loaded; EvInsert 5 InsertOk; EvInsert 6 InsertOk;
               EvInsert 7 InsertOk; EvLoad 7 3 Loaded; EvInsert 8 InsertOk;
               EvInsert 9 InsertOk; EvInsert 10 InsertOk;
               EvLazyDelete 1; EvLazyDelete 2; EvLazyDelete 3;
               EvConsolidate (Reports LOCK_FAIL)]
              ++ EvSleep 5 :: [EvConsolidate (Reports SUCCESS)])
      by (vm_compute; reflexivity).
    eexists _, _. split; [exact Hlog|].
    destruct lock_fail_retried_until_success as (_ & _ & _ & _ & Hsleep).
    exact (proj2 (Hsleep 1 (fun l => l) small_file [] false 0 4 3
                    [Reports LOCK_FAIL; Reports SUCCESS] 5%nat _ _ 5 Hlog)).
  - exact (proj1 (proj1 (proj2 lock_fail_retried_until_success)
                    2%nat [] (new_index 4) [] 0 0)).
Defined.

(** C4, as stated, fails in its last clause: the backoff is not that of
    LOCK_FAIL alone.  In this run the consolidator never reports LOCK_FAIL,
    and the driver sleeps 5 seconds, after a report
    INCONSISTENT_COUNT_ERROR. *)
Lemma lock_fail_backoff_counterexample :
  exists w,
    build_incremental_index 1 (fun l => l) small_file [] false 0 4 3
      [Reports INCONSISTENT_COUNT_ERROR; Reports SUCCESS] 5 = Finished w /\
    (EvSleep 5 ∈ log w) /\
    (EvConsolidate (Reports LOCK_FAIL) ∉ log w) /\
    exists before after,
      log w =
        before ++ EvConsolidate (Reports INCONSISTENT_COUNT_ERROR) :: EvSleep 5 :: after.
Proof.
  destruct (build_incremental_index_window 1 (fun l => l) small_file [] 12 1 0 4 3
              [Reports INCONSISTENT_COUNT_ERROR; Reports SUCCESS] 5)
    as (_ & w & Hrun & _).
  - lia.
  - exact small_file_well_formed.
  - exact runs_each_once_id.
  - lia.
  - lia.
  - vm_compute. discriminate.
  - vm_compute. discriminate.
  - vm_compute. discriminate.
  - repeat constructor.
  - vm_compute. discriminate.
  - vm_compute. reflexivity.
  - exists w. split; [exact Hrun|].
    assert (Hlog : log w
              = [EvLoad 0 4 Loaded; EvInsert 1 InsertOk; EvInsert 2 InsertOk;
                 EvInsert 3 InsertOk; EvInsert 4 InsertOk;
                 EvLoad 4 3 Loaded; EvInsert 5 InsertOk; EvInsert 6 InsertOk;
                 EvInsert 7 InsertOk; EvLoad 7 3 Loaded; EvInsert 8 InsertOk;
                 EvInsert 9 InsertOk; EvInsert 10 InsertOk;
                 EvLazyDelete 1; EvLazyDelete 2; EvLazyDelete 3]
                ++ EvConsolidate (Reports INCONSISTENT_COUNT_ERROR) :: EvSleep 5
                   :: [EvConsolidate (Reports SUCCESS)]).
    { change (log w) with
        (outcome_log (Finished w)). rewrite <- Hrun. vm_compute. reflexivity. }
    split; [|split].
    + rewrite Hlog. apply list_elem_of_In. cbn. tauto.
    + rewrite Hlog. intros Hin. apply list_elem_of_In in Hin. cbn in Hin.
      repeat (destruct Hin as [Hin|Hin]; [discriminate|]). exact Hin.
    + eexists _, _. exact Hlog.
Qed.

(** C5 fails on the code: the sum of the second check is taken in
    [size_t].  With [active_window = 2^64 - 1] and
    [consolidate_interval = 1] on a file of 12 points, the precondition
    [max_points_to_insert >= active_window + consolidate_interval] is
    violated, yet the sum wraps to 0, the three checks pass and no run of
    the driver throws. *)
Theorem window_check_overflow :
  get_bin_metadata small_file = Some (12, 1) /\
  ~ (12 >= (2 ^ 64 - 1) + 1) /\
  check_parameters 12 0 (2 ^ 64 - 1) 1 = inr 12 /\
  forall (sz : Z) (schedule : list Z -> list Z) (labels : list (list Z))
         (has_labels : bool) (answers : list answer) (fuel : nat)
         (e : driver_exception),
    build_incremental_index sz schedule small_file labels has_labels 0 (2 ^ 64 - 1) 1
      answers fuel <> Thrown e.
Proof.
  assert (Hmeta : get_bin_metadata small_file = Some (12, 1)) by (vm_compute; reflexivity).
  assert (Hcheck : check_parameters 12 0 (2 ^ 64 - 1) 1 = inr 12)
    by (vm_compute; reflexivity).
  split; [exact Hmeta|]. split; [lia|]. split; [exact Hcheck|].
  intros sz schedule labels has_labels answers fuel e He.
  apply (build_incremental_index_thrown _ _ _ _ _ _ _ _ _ _ 12 1 e Hmeta) in He.
  rewrite Hcheck in He. discriminate.
Qed.

(** C6 fails on the code: with [active_window = 2^64 - 1] and
    [consolidate_interval = 1], which pass the checks of the driver on a
    file of 12 points (the sum of the second check wraps), the capacity
    [active_window + 4 * consolidate_interval] wraps as well and the index
    is constructed with capacity 3. *)
Theorem index_capacity_overflow :
  check_parameters 12 0 (2 ^ 64 - 1) 1 = inr 12 /\
  index_capacity (2 ^ 64 - 1) 1 = 3 /\
  (2 ^ 64 - 1) + 4 * 1 <> 3 /\
  (exists w,
     build_incremental_index 1 (fun l => l) small_file [] false 0 (2 ^ 64 - 1) 1 [] 0
     = OutOfFuel w /\
     max_points (index w) = 3) /\
  forall (sz : Z) (schedule : list Z -> list Z) (labels : list (list Z))
         (has_labels : bool) (answers : list answer) (fuel : nat) (w : World),
    outcome_world
      (build_incremental_index sz schedule small_file labels has_labels 0 (2 ^ 64 - 1) 1
         answers fuel) = Some w ->
    max_points (index w) = 3.
Proof.
  assert (Hmeta : get_bin_metadata small_file = Some (12, 1)) by (vm_compute; reflexivity).
  assert (Hcheck : check_parameters 12 0 (2 ^ 64 - 1) 1 = inr 12)
    by (vm_compute; reflexivity).
  assert (Hcap : index_capacity (2 ^ 64 - 1) 1 = 3) by (vm_compute; reflexivity).
  assert (Hall : forall (sz : Z) (schedule : list Z -> list Z) (labels : list (list Z))
                   (has_labels : bool) (answers : list answer) (fuel : nat) (w : World),
            outcome_world
              (build_incremental_index sz schedule small_file labels has_labels 0
                 (2 ^ 64 - 1) 1 answers fuel) = Some w ->
            max_points (index w) = 3).
  { intros sz schedule labels has_labels answers fuel w Hw.
    rewrite (build_incremental_index_capacity _ _ _ _ _ _ _ _ _ _ _ Hw). exact Hcap. }
  split; [exact Hcheck|]. split; [exact Hcap|]. split; [lia|]. split; [|exact Hall].
  assert (Hrun : exists w,
            build_incremental_index 1 (fun l => l) small_file [] false 0 (2 ^ 64 - 1) 1
              [] 0 = OutOfFuel w).
  { unfold build_incremental_index. rewrite Hmeta, Hcheck.
    set (data := alloc_data _ _ _ _). clearbody data.
    unfold insert_task.
    rewrite (load_aligned_bin_part_out_of_range 1 small_file data 0
               (SizeT.sub (2 ^ 64 - 1) 0) 12 1)
      by (vm_compute; reflexivity).
    replace (file_size small_file =? SizeT.add (SizeT.mul (SizeT.mul 12 1) 1) 8)
      with true by (vm_compute; reflexivity).
    cbn [streaming_loop].
    replace (SizeT.add (2 ^ 64 - 1) 1 <=? 12) with true by (vm_compute; reflexivity).
    eexists. reflexivity. }
  destruct Hrun as [w Hrun]. exists w. split; [exact Hrun|].
  apply (Hall 1 (fun l => l) [] false [] 0%nat w). rewrite Hrun. reflexivity.
Qed.


Lemma index_capacity_is_window_plus_four_intervals_witness :
  exists w,
    build_incremental_index 1 (fun l => l) small_file [] false 0 4 3 [Reports SUCCESS] 5
    = Finished w /\
    max_points (index w) = 4 + 4 * 3.
Proof.
  destruct (build_incremental_index_window 1 (fun l => l) small_file [] 12 1 0 4 3
              [Reports SUCCESS] 5) as (_ & w & Hrun & _);
    [lia|exact small_file_well_formed|exact runs_each_once_id|lia|lia
    |vm_compute; discriminate|vm_compute; discriminate|vm_compute; discriminate
    |repeat constructor|vm_compute; discriminate|vm_compute; reflexivity|].
  exists w. split; [exact Hrun|].
  destruct (index_capacity_is_window_plus_four_intervals 1 (fun l => l) small_file []
              false 0 4 3 [Reports SUCCESS] 5 w) as (_ & _ & Hcap).
  - rewrite Hrun. reflexivity.
  - apply Hcap; lia.
Defined.

(** ** A consolidator that never succeeds *)

(** X25. When the consolidator never reports SUCCESS, answering each of
    its calls, however many, with LOCK_FAIL or INCONSISTENT_COUNT_ERROR, the
    driver does not finish: without labels, on a well-formed file, with
    [0 < consolidate_interval], parameters that pass the three checks and
    at least two intervals to insert after the window, the first deletion
    task keeps sleeping and calling, and the driver keeps waiting for it,
    whatever the bound (at least 2) on its iterations. *)
Theorem driver_never_finishes_without_success (sz : Z) (schedule : list Z -> list Z)
    (f : file) (labels : list (list Z)) (npts dim N W C : Z) (answers : list answer)
    (fuel : nat) :
  0 < sz <= 8 ->
  well_formed_bin sz f npts dim ->
  let N' := if N =? 0 then npts else N in
  0 <= W -> 0 < C ->
  N' <= npts -> W + 2 * C <= N' -> N' / 1000 <= C ->
  Forall (fun a => a = Reports LOCK_FAIL \/ a = Reports INCONSISTENT_COUNT_ERROR) answers ->
  exists w lg,
    build_incremental_index sz schedule f labels false N W C answers (S (S fuel))
    = OutOfFuel w /\
    log w = lg ++ backoff_events answers ++ [EvConsolidate Pending].
Proof.
  intros Hsz Hwf N' HW HC HN HWC Hthrash Hanswers.
  pose proof Hwf as (Hhdr & Hn & Hd & Hsize & Hreal).
  destruct (read_header_range _ _ _ Hhdr) as [Hn0 Hd0].
  apply retried_forallb in Hanswers.
  unfold build_incremental_index.
  rewrite (get_bin_metadata_well_formed sz f npts dim Hwf).
  rewrite check_parameters_ok; fold N'; try lia.
  destruct (alloc_data_length sz npts dim W C f Hsz Hwf ltac:(lia) ltac:(lia))
    as [Hlen Hmem].
  set (data := alloc_data sz (ROUND_UP dim 8) W C) in *.
  destruct (ROUND_UP_8 dim ltac:(lia)) as (_ & _ & Hrd).
  assert (Hrow : 0 <= ROUND_UP dim 8 * sz) by (apply Z.mul_nonneg_nonneg; lia).
  assert (HrowW : W * (ROUND_UP dim 8 * sz) <= Z.max W C * (ROUND_UP dim 8 * sz))
    by (apply Z.mul_le_mono_nonneg_r; lia).
  assert (HrowC : C * (ROUND_UP dim 8 * sz) <= Z.max W C * (ROUND_UP dim 8 * sz))
    by (apply Z.mul_le_mono_nonneg_r; lia).
  destruct (insert_task_unlabelled sz schedule f npts dim 0 W data
              (mkWorld (new_index (index_capacity W C)) answers []) Hsz Hwf)
    as (data0 & w0 & Hins0 & Hlen0 & Hscr0);
    [lia|lia|rewrite Z.sub_0_r; lia|exact Hmem|].
  rewrite Hins0.
  cbn [streaming_loop]. rewrite (add_small W C) by lia.
  destruct (Z.leb_spec (W + C) N') as [_|Hno]; [|lia].
  assert (Hmin1 : SizeT.min (W + C) N' = W + C).
  { unfold SizeT.min. destruct (Z.ltb_spec N' (W + C)); [lia|reflexivity]. }
  rewrite Hmin1.
  destruct (insert_task_unlabelled sz schedule f npts dim W (W + C) data0 w0 Hsz Hwf)
    as (data1 & w1 & Hins1 & Hlen1 & Hscr1);
    [lia|lia|replace (W + C - W) with C by lia; lia|lia|].
  rewrite Hins1. cbn [negb].
  destruct (Z.geb_spec W (W + C)) as [Hge|_]; [lia|].
  rewrite (add_small (W + C) C) by lia.
  destruct (Z.leb_spec (W + C + C) N') as [_|Hno]; [|lia].
  assert (Hmin2 : SizeT.min (W + C + C) N' = W + C + C).
  { unfold SizeT.min. destruct (Z.ltb_spec N' (W + C + C)); [lia|reflexivity]. }
  rewrite Hmin2.
  destruct (insert_task_unlabelled sz schedule f npts dim (W + C) (W + C + C) data1 w1
              Hsz Hwf)
    as (data2 & w2 & Hins2 & Hlen2 & Hscr2);
    [lia|lia|replace (W + C + C - (W + C)) with C by lia; lia|lia|].
  rewrite Hins2.
  destruct (Z.geb_spec (W + C) (W + C)) as [_|Hlt]; [|lia].
  unfold delete_and_consolidate. cbv zeta.
  rewrite lazy_delete_loop_script.
  assert (Hscr : script w2 = answers) by (rewrite Hscr2, Hscr1, Hscr0; reflexivity).
  rewrite Hscr.
  set (w3 := lazy_delete_loop _ _ w2).
  destruct (consolidate_with_retry_cases answers (index w3) (log w3))
    as (rs & a & rest & Hrs & Ha & Hshape & Hrun).
  destruct Hshape as [Hshape|(Hshape & -> & ->)].
  - exfalso. rewrite Hshape, forallb_app in Hanswers.
    apply andb_prop in Hanswers as [_ Hrest]. cbn [forallb] in Hrest.
    rewrite Ha in Hrest. cbn in Hrest. discriminate.
  - subst rs. rewrite Hrun. cbn [task_end]. eexists _, (log w3). split; reflexivity.
Qed.

Lemma driver_never_finishes_without_success_witness :
  exists w lg,
    build_incremental_index 1 (@reverse Z) small_file [] false 0 4 2
      [Reports LOCK_FAIL; Reports INCONSISTENT_COUNT_ERROR; Reports LOCK_FAIL] 9
    = OutOfFuel w /\
    log w = lg ++ [EvConsolidate (Reports LOCK_FAIL); EvSleep 5;
                   EvConsolidate (Reports INCONSISTENT_COUNT_ERROR); EvSleep 5;
                   EvConsolidate (Reports LOCK_FAIL); EvSleep 5;
                   EvConsolidate Pending].
Proof.
  apply (driver_never_finishes_without_success 1 (@reverse Z) small_file [] 12 1 0 4 2
           [Reports LOCK_FAIL; Reports INCONSISTENT_COUNT_ERROR; Reports LOCK_FAIL] 7);
    [lia|exact small_file_well_formed|lia|lia|vm_compute; discriminate
    |vm_compute; discriminate|vm_compute; discriminate|].
  constructor; [left; reflexivity|].
  constructor; [right; reflexivity|].
  constructor; [left; reflexivity|constructor].
Defined.
(** * Further properties *)

(** ** Integers as bytes *)

Lemma byte_of_value (z : Z) :
  0 <= z < 256 -> Z.of_N (Byte.to_N (byte_of z)) = z.
Proof.
  intros Hz. unfold byte_of.
  destruct (Byte.of_N (Z.to_N z)) as [b|] eqn:E.
  - apply Byte.to_of_N in E. rewrite E. lia.
  - apply Byte.of_N_None_iff in E. lia.
Qed.

Lemma byte_of_to_N (b : byte) : byte_of (Z.of_N (Byte.to_N b)) = b.
Proof. unfold byte_of. rewrite N2Z.id, Byte.of_to_N. reflexivity. Qed.

Lemma length_le_bytes (k : nat) (x : Z) : length (le_bytes k x) = k.
Proof. revert x. induction k as [|k IH]; intros x; cbn; [reflexivity|]. rewrite IH. reflexivity. Qed.

Lemma le_value_le_bytes (k : nat) (x : Z) :
  0 <= x -> le_value (le_bytes k x) = x mod 256 ^ Z.of_nat k.
Proof.
  revert x. induction k as [|k IH]; intros x Hx.
  - cbn. rewrite Z.mod_1_r. reflexivity.
  - cbn [le_bytes le_value fold_right]. fold (le_value (le_bytes k (x / 256))).
    rewrite IH by (apply Z.div_pos; lia).
    rewrite byte_of_value by (apply Z.mod_pos_bound; lia).
    rewrite Nat2Z.inj_succ, Z.pow_succ_r by lia.
    rewrite (Z.rem_mul_r x 256 (256 ^ Z.of_nat k)) by lia.
    reflexivity.
Qed.

Lemma le_bytes_le_value (bs : list byte) : le_bytes (length bs) (le_value bs) = bs.
Proof.
  induction bs as [|b bs IH]; [reflexivity|].
  cbn [length le_bytes le_value fold_right]. fold (le_value bs).
  pose proof (Byte.to_N_bounded b) as Hb.
  assert (Hmod : (Z.of_N (Byte.to_N b) + 256 * le_value bs) mod 256 = Z.of_N (Byte.to_N b)).
  { rewrite Z.mul_comm, Z.mod_add by lia. apply Z.mod_small. lia. }
  assert (Hdiv : (Z.of_N (Byte.to_N b) + 256 * le_value bs) / 256 = le_value bs).
  { rewrite Z.mul_comm, Z.div_add by lia. rewrite Z.div_small by lia. lia. }
  rewrite Hmod, Hdiv, byte_of_to_N, IH. reflexivity.
Qed.

(** ** Writes *)

Lemma length_write_at (f : file) (pos : Z) (bs : list byte) :
  0 <= pos ->
  Z.of_nat (length (write_at f pos bs)) = Z.max (file_size f) (pos + Z.of_nat (length bs)).
Proof.
  intros Hpos. unfold write_at, file_size.
  rewrite !length_app, length_take, length_replicate, length_drop. lia.
Qed.

Lemma lookup_write_at (f : list byte) (pos : Z) (bs : list byte) (q : nat) :
  0 <= pos ->
  (write_at f pos bs : list byte) !! q =
    if decide (pos <= Z.of_nat q < pos + Z.of_nat (length bs)) then bs !! (q - Z.to_nat pos)%nat
    else if decide (Z.of_nat q < pos /\ (length f <= q)%nat) then Some x00
    else f !! q.
Proof.
  intros Hpos. unfold write_at. set (p := Z.to_nat pos).
  assert (Hpre : length (take p f ++ replicate (p - length f) x00) = p)
    by (rewrite length_app, length_take, length_replicate; lia).
  rewrite app_assoc.
  case_decide as Hin.
  - rewrite lookup_app_r by (rewrite Hpre; lia). rewrite Hpre. apply lookup_app_l. lia.
  - case_decide as Hgap.
    + rewrite lookup_app_l by (rewrite Hpre; lia).
      rewrite lookup_app_r by (rewrite length_take; lia).
      apply lookup_replicate_2. rewrite length_take. lia.
    + destruct (decide (q < p)%nat) as [Hlt|Hge].
      * rewrite lookup_app_l by (rewrite Hpre; lia).
        rewrite lookup_app_l by (rewrite length_take; lia).
        apply lookup_take_lt. lia.
      * rewrite lookup_app_r by (rewrite Hpre; lia). rewrite Hpre.
        rewrite lookup_app_r by lia. rewrite lookup_drop. f_equal. lia.
Qed.

Lemma read_at_write_at (f : file) (pos : Z) (bs : list byte) :
  0 <= pos -> read_at (write_at f pos bs) pos (Z.of_nat (length bs)) = bs.
Proof.
  intros Hpos. apply list_eq. intros q. unfold read_at.
  rewrite Nat2Z.id.
  destruct (decide (q < length bs)%nat) as [Hq|Hq].
  - rewrite lookup_take_lt by lia. rewrite lookup_drop, lookup_write_at by lia.
    rewrite decide_True by lia. f_equal. lia.
  - rewrite lookup_take_ge by lia. symmetry. apply lookup_ge_None. lia.
Qed.

Lemma read_at_write_at_before (f : file) (pos pos' n : Z) (bs : list byte) :
  0 <= pos -> 0 <= n -> pos + n <= pos' -> pos + n <= file_size f ->
  read_at (write_at f pos' bs) pos n = read_at f pos n.
Proof.
  intros Hpos Hn Hle Hsize. unfold file_size in Hsize.
  apply list_eq. intros q. unfold read_at.
  destruct (decide (q < Z.to_nat n)%nat) as [Hq|Hq].
  - rewrite !lookup_take_lt by lia. rewrite !lookup_drop, lookup_write_at by lia.
    rewrite decide_False by lia. rewrite decide_False by lia. reflexivity.
  - rewrite !lookup_take_ge by lia. reflexivity.
Qed.

Lemma read_word_write_at (f : file) (pos x : Z) :
  0 <= pos -> 0 <= x < 2 ^ 32 ->
  read_word (write_at f pos (le_bytes 4 x)) pos = Some x.
Proof.
  intros Hpos Hx. unfold read_word.
  pose proof (read_at_write_at f pos (le_bytes 4 x) Hpos) as Hread.
  rewrite length_le_bytes in Hread. change (Z.of_nat 4) with 4 in Hread.
  rewrite Hread, length_le_bytes. rewrite decide_True by reflexivity.
  rewrite le_value_le_bytes by lia. f_equal. apply Z.mod_small.
  change (256 ^ Z.of_nat 4) with (2 ^ 32). lia.
Qed.

Lemma read_word_write_at_before (f : file) (pos pos' : Z) (bs : list byte) :
  0 <= pos -> pos + 4 <= pos' -> pos + 4 <= file_size f ->
  read_word (write_at f pos' bs) pos = read_word f pos.
Proof.
  intros Hpos Hle Hsize. unfold read_word.
  rewrite read_at_write_at_before by lia. reflexivity.
Qed.

(** ** [save_bin] and [load_bin] *)

Lemma save_bin_saved (sz : Z) (existing : option file) (data : list byte)
    (npts ndims offset : Z) :
  0 < sz <= 8 ->
  0 <= npts < 2 ^ 32 -> 0 <= ndims < 2 ^ 32 ->
  npts * ndims * sz <= Z.of_nat (length data) ->
  npts * ndims * sz < 2 ^ 63 ->
  0 <= offset < 2 ^ 62 ->
  let f0 := default [] existing in
  let f1 := write_at f0 offset (le_bytes 4 npts) in
  let f2 := write_at f1 (offset + 4) (le_bytes 4 ndims) in
  let f3 := write_at f2 (offset + 8) (take (Z.to_nat (npts * ndims * sz)) data) in
  save_bin sz existing true data npts ndims offset = Saved f3 (8 + npts * ndims * sz) /\
  file_size f3 = Z.max (file_size f0) (offset + 8 + npts * ndims * sz) /\
  read_word f3 offset = Some npts /\
  read_word f3 (offset + 4) = Some ndims /\
  read_at f3 (offset + 8) (npts * ndims * sz) = take (Z.to_nat (npts * ndims * sz)) data.
Proof.
  intros Hsz Hn Hd Hdata Hsmall Hoff f0 f1 f2 f3.
  assert (Hnd : 0 <= npts * ndims) by (apply Z.mul_nonneg_nonneg; lia).
  assert (Hnds : 0 <= npts * ndims * sz) by (apply Z.mul_nonneg_nonneg; lia).
  assert (Hnd' : npts * ndims <= npts * ndims * sz) by nia.
  assert (Hpay : Z.of_nat (length (take (Z.to_nat (npts * ndims * sz)) data))
                 = npts * ndims * sz) by (rewrite length_take; lia).
  assert (H1 : file_size f1 = Z.max (file_size f0) (offset + 4)).
  { unfold file_size, f1. rewrite length_write_at, length_le_bytes by lia.
    unfold file_size. lia. }
  assert (H2 : file_size f2 = Z.max (file_size f0) (offset + 8)).
  { unfold file_size at 1. unfold f2. rewrite length_write_at, length_le_bytes by lia.
    rewrite H1. lia. }
  assert (H3 : file_size f3 = Z.max (file_size f0) (offset + 8 + npts * ndims * sz)).
  { unfold file_size at 1. unfold f3. rewrite length_write_at by lia.
    rewrite Hpay, H2. lia. }
  split; [|split; [exact H3|split; [|split]]].
  - unfold save_bin, open_file_to_write. fold f0.
    rewrite to_int64_small by lia.
    destruct (Z.ltb_spec offset 0); [lia|].
    unfold to_int_raw. rewrite !u32_small by lia. fold f1 f2.
    rewrite (mul_small npts ndims) by lia.
    rewrite (mul_small (npts * ndims) sz) by lia.
    rewrite add_small by lia.
    destruct (Z.ltb_spec (Z.of_nat (length data)) (npts * ndims * sz)); [lia|].
    fold f3. f_equal. ring.
  - unfold f3. rewrite read_word_write_at_before by lia.
    unfold f2. rewrite read_word_write_at_before by lia.
    apply read_word_write_at; lia.
  - unfold f3. rewrite read_word_write_at_before by lia.
    apply read_word_write_at; lia.
  - unfold f3.
    pose proof (read_at_write_at f2 (offset + 8)
                  (take (Z.to_nat (npts * ndims * sz)) data) ltac:(lia)) as Hread.
    rewrite Hpay in Hread. exact Hread.
Qed.

Lemma load_bin_loaded (sz : Z) (f : file) (offset npts dim : Z) :
  0 < sz <= 8 -> 0 <= offset < 2 ^ 62 ->
  read_word f offset = Some npts -> read_word f (offset + 4) = Some dim ->
  npts * dim * sz < 2 ^ 63 ->
  offset + 8 + npts * dim * sz <= file_size f ->
  load_bin sz f offset = BinLoaded (read_at f (offset + 8) (npts * dim * sz)) npts dim.
Proof.
  intros Hsz Hoff Hn Hd Hsmall Hsize.
  pose proof (read_word_range _ _ _ Hn) as Hn0.
  pose proof (read_word_range _ _ _ Hd) as Hd0.
  assert (Hnd : 0 <= npts * dim) by (apply Z.mul_nonneg_nonneg; lia).
  assert (Hnds : 0 <= npts * dim * sz) by (apply Z.mul_nonneg_nonneg; lia).
  assert (Hnd' : npts * dim <= npts * dim * sz) by nia.
  unfold load_bin. rewrite to_int64_small by lia.
  destruct (Z.ltb_spec offset 0); [lia|].
  rewrite Hn, Hd. unfold of_int_as_unsigned. rewrite !u32_small by lia.
  rewrite (mul_small npts dim) by lia.
  unfold new_array_ok, PTRDIFF_MAX.
  destruct (Z.leb_spec (npts * dim * sz) (2 ^ 63 - 1)); [|lia]. cbn [negb].
  rewrite (mul_small (npts * dim) sz) by lia.
  rewrite length_read_at by lia. rewrite Z.ltb_irrefl. reflexivity.
Qed.

(** X1. What [save_bin] writes, [load_bin] reads back: for a buffer of
    [npts * ndims] elements and any offset, in a new file or over an
    existing one, [save_bin] succeeds and returns [8 + npts*ndims*sizeof(T)],
    and [load_bin] at the same offset yields [npts], [ndims] and the very
    bytes of the buffer. *)
Theorem save_bin_load_bin_round_trip (sz : Z) (existing : option file)
    (data : list byte) (npts ndims offset : Z) :
  0 < sz <= 8 ->
  0 <= npts < 2 ^ 32 -> 0 <= ndims < 2 ^ 32 ->
  Z.of_nat (length data) = npts * ndims * sz ->
  npts * ndims * sz < 2 ^ 63 ->
  0 <= offset < 2 ^ 62 ->
  exists f,
    save_bin sz existing true data npts ndims offset = Saved f (8 + npts * ndims * sz) /\
    load_bin sz f offset = BinLoaded data npts ndims.
Proof.
  intros Hsz Hn Hd Hdata Hsmall Hoff.
  destruct (save_bin_saved sz existing data npts ndims offset)
    as (Hsave & Hsize & Hw1 & Hw2 & Hread); try assumption; try lia.
  eexists. split; [exact Hsave|].
  rewrite (load_bin_loaded sz _ offset npts ndims); try assumption; try lia.
  rewrite Hread. rewrite firstn_all2 by lia. reflexivity.
Qed.

Lemma save_bin_load_bin_round_trip_witness :
  exists f,
    save_bin 1 (Some (replicate 20 xff)) true [x01; x02; x03; x04; x05; x06] 3 2 4
    = Saved f 14 /\
    load_bin 1 f 4 = BinLoaded [x01; x02; x03; x04; x05; x06] 3 2.
Proof.
  apply (save_bin_load_bin_round_trip 1 (Some (replicate 20 xff))
           [x01; x02; x03; x04; x05; x06] 3 2 4); try lia.
  reflexivity.
Defined.

(** X2. [save_bin] does not truncate: over an existing file that is longer
    than what it writes, the old tail stays and the size of the file is
    unchanged.  [load_bin], which checks no size, still reads the new
    content back; [load_aligned_bin_part], which does, rejects the file. *)
Theorem save_bin_keeps_stale_tail (sz : Z) (old data buf : list byte)
    (npts ndims offset_points points_to_read : Z) :
  0 < sz <= 8 ->
  0 <= npts < 2 ^ 32 -> 0 <= ndims < 2 ^ 32 ->
  Z.of_nat (length data) = npts * ndims * sz ->
  8 + npts * ndims * sz < file_size old ->
  file_size old < 2 ^ 63 ->
  exists f,
    save_bin sz (Some old) true data npts ndims 0 = Saved f (8 + npts * ndims * sz) /\
    file_size f = file_size old /\
    (forall q : nat, 8 + npts * ndims * sz <= Z.of_nat q -> f !! q = old !! q) /\
    load_bin sz f 0 = BinLoaded data npts ndims /\
    load_aligned_bin_part sz f buf offset_points points_to_read = (FileSizeMismatch, buf).
Proof.
  intros Hsz Hn Hd Hdata Hlonger Hreal.
  assert (Hnds : 0 <= npts * ndims * sz)
    by (apply Z.mul_nonneg_nonneg; [apply Z.mul_nonneg_nonneg|]; lia).
  destruct (save_bin_saved sz (Some old) data npts ndims 0)
    as (Hsave & Hsize & Hw1 & Hw2 & Hread); try assumption; try lia.
  change (default [] (Some old)) with old in *.
  set (f := write_at (write_at (write_at old 0 (le_bytes 4 npts)) (0 + 4) (le_bytes 4 ndims))
              (0 + 8) (take (Z.to_nat (npts * ndims * sz)) data)) in *.
  exists f. split; [exact Hsave|].
  assert (Hlen : file_size f = file_size old) by (rewrite Hsize; lia).
  split; [exact Hlen|]. split; [|split].
  - intros q Hq. unfold f.
    rewrite lookup_write_at by lia. rewrite length_take.
    rewrite decide_False by lia. rewrite decide_False by lia.
    rewrite lookup_write_at by lia. rewrite length_le_bytes.
    rewrite decide_False by lia. rewrite decide_False by lia.
    rewrite lookup_write_at by lia. rewrite length_le_bytes.
    rewrite decide_False by lia. rewrite decide_False by lia. reflexivity.
  - rewrite (load_bin_loaded sz _ 0 npts ndims); try assumption; try lia.
    rewrite Hread. rewrite firstn_all2 by lia. reflexivity.
  - unfold load_aligned_bin_part, read_header. rewrite Hw1.
    change 4 with (0 + 4) at 1. rewrite Hw2.
    unfold of_int_as_unsigned. rewrite !u32_small by lia.
    rewrite (mul_small npts ndims) by nia.
    rewrite (mul_small (npts * ndims) sz) by nia.
    rewrite add_small by lia. rewrite Hlen.
    destruct (Z.eqb_spec (file_size old) (npts * ndims * sz + 2 * 4)); [lia|].
    reflexivity.
Qed.

Lemma save_bin_keeps_stale_tail_witness :
  exists f,
    save_bin 1 (Some (replicate 20 xff)) true [x01; x02; x03; x04; x05; x06] 3 2 0
    = Saved f 14 /\
    file_size f = 20 /\
    load_bin 1 f 0 = BinLoaded [x01; x02; x03; x04; x05; x06] 3 2 /\
    load_aligned_bin_part 1 f (replicate 8 x00) 0 1 = (FileSizeMismatch, replicate 8 x00).
Proof.
  destruct (save_bin_keeps_stale_tail 1 (replicate 20 xff)
              [x01; x02; x03; x04; x05; x06] (replicate 8 x00) 3 2 0 1)
    as (f & H1 & H2 & _ & H3 & H4); try lia; try reflexivity.
  exists f. auto.
Defined.

Lemma read_word_size (f : file) (pos v : Z) :
  0 <= pos -> read_word f pos = Some v -> pos + 4 <= file_size f.
Proof.
  intros Hpos. unfold read_word, read_at, file_size.
  case_decide as Hlen; [|discriminate]. intros _.
  rewrite length_take, length_drop in Hlen. lia.
Qed.

(** X3. [load_bin] never returns a partial array: on a file that ends
    before the [npts * dim] elements its header announces, the call ends in
    an exception. *)
Theorem load_bin_truncated (sz : Z) (f : file) (offset npts dim : Z) :
  0 < sz <= 8 -> 0 <= offset < 2 ^ 62 ->
  read_word f offset = Some npts -> read_word f (offset + 4) = Some dim ->
  file_size f < offset + 8 + npts * dim * sz ->
  load_bin sz f offset = BinFileException \/ load_bin sz f offset = BinBadAlloc.
Proof.
  intros Hsz Hoff Hn Hd Hshort.
  pose proof (read_word_range _ _ _ Hn) as Hn0.
  pose proof (read_word_range _ _ _ Hd) as Hd0.
  assert (Hnd : 0 <= npts * dim < 2 ^ 64) by nia.
  pose proof (read_word_size f (offset + 4) dim ltac:(lia) Hd) as Hhdr.
  unfold load_bin. rewrite to_int64_small by lia.
  destruct (Z.ltb_spec offset 0); [lia|].
  rewrite Hn, Hd. unfold of_int_as_unsigned. rewrite !u32_small by lia.
  rewrite (mul_small npts dim) by lia.
  unfold new_array_ok, PTRDIFF_MAX.
  destruct (Z.leb_spec (npts * dim * sz) (2 ^ 63 - 1)); cbn [negb]; [|auto].
  rewrite (mul_small (npts * dim) sz) by nia.
  left.
  assert (Hgot : Z.of_nat (length (read_at f (offset + 8) (npts * dim * sz)))
                 < npts * dim * sz).
  { unfold read_at, file_size in *. rewrite length_take, length_drop. lia. }
  destruct (Z.ltb_spec (Z.of_nat (length (read_at f (offset + 8) (npts * dim * sz))))
              (npts * dim * sz)); [reflexivity|lia].
Qed.

Lemma load_bin_truncated_witness :
  load_bin 1 (take 13 tiny_file) 0 = BinFileException \/
  load_bin 1 (take 13 tiny_file) 0 = BinBadAlloc.
Proof.
  apply (load_bin_truncated 1 (take 13 tiny_file) 0 3 2); try lia; reflexivity.
Defined.

(** ** The rounding macros *)

(** X4. For [Y > 0] and [X + Y] within [uint64_t], [ROUND_DOWN(X, Y)] and
    [ROUND_UP(X, Y)] are the multiples of [Y] next to [X]: both are aligned,
    they enclose [X] and are less than [Y] away from it, they are [X]
    itself exactly when [X] is aligned and [Y] apart otherwise, and
    [ROUND_UP(X, Y)] is [DIV_ROUND_UP(X, Y) * Y]. *)
Theorem rounding_macros (X Y : Z) :
  0 <= X -> 0 < Y < 2 ^ 64 -> X + Y <= 2 ^ 64 ->
  ROUND_DOWN X Y <= X <= ROUND_UP X Y /\
  X - Y < ROUND_DOWN X Y /\ ROUND_UP X Y < X + Y /\
  IS_ALIGNED (ROUND_DOWN X Y) Y = true /\
  IS_ALIGNED (ROUND_UP X Y) Y = true /\
  ROUND_UP X Y = DIV_ROUND_UP X Y * Y /\
  (IS_ALIGNED X Y = true -> ROUND_DOWN X Y = X /\ ROUND_UP X Y = X) /\
  (IS_ALIGNED X Y = false -> ROUND_UP X Y = ROUND_DOWN X Y + Y).
Proof.
  intros HX HY Hfit.
  pose proof (Z.div_mod X Y ltac:(lia)) as Hdm.
  pose proof (Z.mod_pos_bound X Y ltac:(lia)) as Hr.
  assert (Hq : 0 <= X / Y) by (apply Z.div_pos; lia).
  assert (HqY : X / Y * Y = X - X mod Y) by lia.
  unfold ROUND_DOWN, ROUND_UP, DIV_ROUND_UP, IS_ALIGNED.
  rewrite (wrap_small X), (wrap_small Y) by lia.
  rewrite (mul_small (X / Y) Y) by lia.
  assert (Hadd : SizeT.add (X / Y) (if X mod Y =? 0 then 0 else 1)
                 = X / Y + (if X mod Y =? 0 then 0 else 1)).
  { apply add_small.
    assert (X / Y <= X / Y * Y) by nia.
    destruct (Z.eqb_spec (X mod Y) 0); [lia|].
    assert (X / Y + 1 <= (X / Y + 1) * Y) by nia. lia. }
  rewrite Hadd.
  assert (Hup : (X / Y + (if X mod Y =? 0 then 0 else 1)) * Y
                = if X mod Y =? 0 then X else X - X mod Y + Y)
    by (destruct (Z.eqb_spec (X mod Y) 0); lia).
  rewrite mul_small by (rewrite Hup; destruct (Z.eqb_spec (X mod Y) 0); lia).
  rewrite Hup.
  assert (Hdown_al : SizeT.wrap (X / Y * Y) mod Y = 0).
  { rewrite wrap_small by lia. apply Z.mod_mul. lia. }
  assert (Hup_al : SizeT.wrap (if X mod Y =? 0 then X else X - X mod Y + Y) mod Y = 0).
  { rewrite <- Hup.
    rewrite wrap_small by (rewrite Hup; destruct (Z.eqb_spec (X mod Y) 0); lia).
    apply Z.mod_mul. lia. }
  rewrite Hdown_al, Hup_al.
  destruct (Z.eqb_spec (X mod Y) 0) as [E|E].
  - repeat split; try lia; try reflexivity; try discriminate.
  - repeat split; try lia; try reflexivity; try discriminate.
Qed.

Lemma rounding_macros_witness :
  ROUND_DOWN 13 8 = 8 /\ ROUND_UP 13 8 = 16 /\ DIV_ROUND_UP 13 8 = 2 /\
  ROUND_UP 13 8 = ROUND_DOWN 13 8 + 8.
Proof.
  destruct (rounding_macros 13 8) as (_ & _ & _ & _ & _ & _ & _ & Hstep); try lia.
  split; [reflexivity|]. split; [reflexivity|]. split; [reflexivity|].
  apply Hstep. reflexivity.
Defined.

(** ** Alignment of the allocations *)

Lemma wrap_divide (a m : Z) :
  0 < m -> (m | 2 ^ 64) -> (m | a) -> (m | SizeT.wrap a).
Proof.
  intros Hm H64 Ha. unfold SizeT.wrap, SizeT.modulus.
  rewrite Z.mod_eq by lia. apply Z.divide_sub_r; [exact Ha|].
  apply Z.divide_mul_l. exact H64.
Qed.

Lemma ROUND_UP_8_divide (X : Z) : (8 | ROUND_UP X 8).
Proof.
  unfold ROUND_UP, SizeT.mul. apply wrap_divide; [lia| |].
  - exists (2 ^ 61). reflexivity.
  - apply Z.divide_mul_r. apply Z.divide_refl.
Qed.

Lemma sizeof_divides (sz : Z) :
  sz = 1 \/ sz = 2 \/ sz = 4 \/ sz = 8 -> (8 * sz | 2 ^ 64).
Proof.
  intros [-> | [-> | [-> | ->]]];
    [exists (2 ^ 61)|exists (2 ^ 60)|exists (2 ^ 59)|exists (2 ^ 58)]; reflexivity.
Qed.

(** The size [n * rounded * sizeof(T)] of a buffer of rows of a multiple of
    8 elements is aligned to [8 * sizeof(T)], whatever wraps around. *)
Lemma buffer_size_aligned (sz n rounded : Z) :
  sz = 1 \/ sz = 2 \/ sz = 4 \/ sz = 8 -> (8 | rounded) ->
  IS_ALIGNED (SizeT.mul (SizeT.mul n rounded) sz) (SizeT.mul 8 sz) = true.
Proof.
  intros Hsz H8. pose proof (sizeof_divides sz Hsz) as H64.
  assert (Hpos : 0 < 8 * sz < 2 ^ 64) by (destruct Hsz as [-> | [-> | [-> | ->]]]; lia).
  unfold IS_ALIGNED. rewrite (mul_small 8 sz) by lia.
  rewrite (wrap_small (8 * sz)) by lia. apply Z.eqb_eq.
  apply Z.mod_divide; [lia|].
  apply wrap_divide; [lia|exact H64|].
  unfold SizeT.mul at 1. apply wrap_divide; [lia|exact H64|].
  replace (SizeT.mul n rounded * sz) with (sz * SizeT.mul n rounded) by ring.
  replace (8 * sz) with (sz * 8) by ring.
  apply Z.mul_divide_mono_l.
  unfold SizeT.mul. apply wrap_divide; [lia|exists (2 ^ 61); reflexivity|].
  apply Z.divide_mul_r. exact H8.
Qed.



(** ** [load_aligned_bin], [copy_aligned_data_from_file] and
    [save_data_in_base_dimensions] *)

(** The rows of a loaded batch, byte by byte within a row. *)
Lemma load_aligned_bin_part_rows (sz : Z) (f : file) (data : list byte)
    (offset_points points_to_read npts dim : Z) :
  0 < sz <= 8 ->
  read_header f = Some (npts, dim) ->
  file_size f = 8 + npts * dim * sz ->
  file_size f < 2 ^ 63 ->
  0 <= offset_points -> 0 <= points_to_read ->
  offset_points + points_to_read <= npts ->
  points_to_read * (ROUND_UP dim 8 * sz) <= Z.of_nat (length data) ->
  Z.of_nat (length data) < 2 ^ 64 ->
  exists data',
    load_aligned_bin_part sz f data offset_points points_to_read = (Loaded, data') /\
    read_points sz dim (ROUND_UP dim 8) f (Z.to_nat points_to_read) 0
      (8 + offset_points * dim * sz) data = (Loaded, data') /\
    length data' = length data /\
    (forall k o : Z,
       0 <= k < points_to_read -> 0 <= o < dim * sz ->
       data' !! Z.to_nat (k * (ROUND_UP dim 8 * sz) + o)
       = f !! Z.to_nat (8 + (offset_points + k) * (dim * sz) + o)).
Proof.
  intros Hsz Hhdr Hsize Hreal Hoff Hcnt Hrange Hbuf Hmem.
  destruct (read_header_range _ _ _ Hhdr) as [Hn Hd].
  destruct (ROUND_UP_8 dim ltac:(lia)) as (_ & _ & Hrd).
  set (rd := ROUND_UP dim 8) in *.
  assert (Hnd : 0 <= npts * dim) by (apply Z.mul_nonneg_nonneg; lia).
  assert (Hnds : npts * dim <= npts * dim * sz) by nia.
  assert (Hod : 0 <= offset_points * dim <= npts * dim) by nia.
  assert (Hods : 0 <= offset_points * dim * sz <= npts * dim * sz)
    by (split; [apply Z.mul_nonneg_nonneg; lia | apply Z.mul_le_mono_nonneg_r; lia]).
  assert (Hcr0 : 0 <= points_to_read * rd) by (apply Z.mul_nonneg_nonneg; lia).
  assert (Hcr : points_to_read * rd <= points_to_read * (rd * sz))
    by (rewrite Z.mul_assoc; nia).
  destruct (read_points_spec sz dim rd f (Z.to_nat points_to_read)
              ltac:(lia) ltac:(lia) ltac:(nia) 0
              (8 + offset_points * dim * sz) data)
    as (data' & Hrun & Hlen & Hin & _).
  - lia.
  - lia.
  - rewrite Z2Nat.id by lia.
    assert ((offset_points + points_to_read) * dim <= npts * dim) by nia.
    assert ((offset_points + points_to_read) * dim * sz <= npts * dim * sz) by nia.
    lia.
  - rewrite Z2Nat.id by lia. lia.
  - rewrite Z2Nat.id by lia. lia.
  - exists data'. split; [|split; [exact Hrun|split; [exact Hlen|]]].
    + unfold load_aligned_bin_part. rewrite Hhdr.
      unfold of_int_as_unsigned. rewrite !u32_small by lia.
      rewrite (mul_small npts dim) by lia.
      rewrite (mul_small (npts * dim) sz) by lia.
      rewrite add_small by lia.
      replace (file_size f =? npts * dim * sz + 2 * 4) with true
        by (symmetry; apply Z.eqb_eq; lia).
      cbn [negb]. rewrite add_small by lia.
      replace (offset_points + points_to_read >? npts) with false
        by (symmetry; rewrite Z.gtb_ltb; apply Z.ltb_ge; lia).
      rewrite (mul_small offset_points dim) by lia.
      rewrite (mul_small (offset_points * dim) sz) by lia.
      rewrite add_small by lia. fold rd. exact Hrun.
    + intros k o Hk Ho.
      assert (Ho' : 0 <= o < rd * sz) by nia.
      specialize (Hin k o ltac:(lia) Ho').
      replace ((0 + k) * (rd * sz) + o) with (k * (rd * sz) + o) in Hin by ring.
      rewrite Hin.
      destruct (Z.ltb_spec o (dim * sz)); [|lia].
      f_equal. f_equal. ring.
Qed.

(** X6. On a well-formed file [load_aligned_bin] succeeds: the assertion of
    its allocation holds, the buffer has [npts * rounded_dim] elements, and
    its content is what [load_aligned_bin_part] loads for the whole file
    into a zeroed buffer of that size. *)
Theorem load_aligned_bin_whole_file (sz : Z) (f : file) (npts dim : Z) :
  sz = 1 \/ sz = 4 ->
  read_header f = Some (npts, dim) ->
  file_size f = 8 + npts * dim * sz ->
  file_size f < 2 ^ 60 ->
  let rounded_dim := ROUND_UP dim 8 in
  exists data,
    load_aligned_bin sz f = AlignedLoaded data npts dim rounded_dim /\
    Z.of_nat (length data) = npts * rounded_dim * sz /\
    load_aligned_bin_part sz f
      (replicate (Z.to_nat (npts * rounded_dim * sz)) x00) 0 npts = (Loaded, data).
Proof.
  intros Hsz Hhdr Hsize Hreal rounded_dim.
  assert (Hsz' : 0 < sz <= 8) by (destruct Hsz; lia).
  destruct (read_header_range _ _ _ Hhdr) as [Hn Hd].
  destruct (ROUND_UP_8 dim ltac:(lia)) as (_ & _ & Hrd). fold rounded_dim in Hrd.
  assert (Hnd : 0 <= npts * dim) by (apply Z.mul_nonneg_nonneg; lia).
  assert (Hnds : npts * dim <= npts * dim * sz) by nia.
  assert (Hnr : 0 <= npts * rounded_dim) by (apply Z.mul_nonneg_nonneg; lia).
  assert (Hnr' : npts * rounded_dim <= npts * dim + 8 * npts) by nia.
  assert (Hnrs : 0 <= npts * rounded_dim * sz <= (npts * dim + 8 * npts) * sz)
    by (split; [apply Z.mul_nonneg_nonneg; lia|apply Z.mul_le_mono_nonneg_r; lia]).
  assert (Hbig : (npts * dim + 8 * npts) * sz < 2 ^ 61) by nia.
  assert (Hnr1 : npts * rounded_dim <= npts * rounded_dim * sz) by nia.
  set (buf := replicate (Z.to_nat (npts * rounded_dim * sz)) x00).
  assert (Hbuf : Z.of_nat (length buf) = npts * rounded_dim * sz)
    by (unfold buf; rewrite length_replicate; lia).
  destruct (load_aligned_bin_part_rows sz f buf 0 npts npts dim)
    as (data & Hpart & Hrun & Hlen & _); try assumption; try lia.
  exists data. split; [|split; [lia|exact Hpart]].
  unfold load_aligned_bin. rewrite Hhdr.
  unfold of_int_as_unsigned. rewrite !u32_small by lia.
  rewrite (mul_small npts dim) by lia.
  rewrite (mul_small (npts * dim) sz) by lia.
  rewrite add_small by lia.
  replace (file_size f =? npts * dim * sz + 2 * 4) with true
    by (symmetry; apply Z.eqb_eq; lia).
  cbn [negb]. fold rounded_dim.
  unfold alloc_aligned.
  rewrite buffer_size_aligned;
    [|destruct Hsz; auto|apply ROUND_UP_8_divide].
  rewrite (mul_small npts rounded_dim) by lia.
  rewrite (mul_small (npts * rounded_dim) sz) by lia.
  fold buf.
  replace (0 * dim * sz) with 0 in Hrun by ring.
  change (8 + 0) with 8 in Hrun. fold rounded_dim in Hrun.
  rewrite Hrun. reflexivity.
Qed.

Lemma load_aligned_bin_whole_file_witness :
  exists data,
    load_aligned_bin 1 tiny_file = AlignedLoaded data 3 2 8 /\
    Z.of_nat (length data) = 24 /\
    load_aligned_bin_part 1 tiny_file (replicate 24 x00) 0 3 = (Loaded, data).
Proof.
  destruct (load_aligned_bin_whole_file 1 tiny_file 3 2) as (data & H1 & H2 & H3).
  - left. reflexivity.
  - reflexivity.
  - reflexivity.
  - vm_compute. reflexivity.
  - exists data. split; [exact H1|]. split; [exact H2|exact H3].
Defined.

(** X7. [copy_aligned_data_from_file] is [load_aligned_bin_part] without
    its two checks: whenever [load_aligned_bin_part] loads the whole file,
    [copy_aligned_data_from_file] with [rounded_dim = ROUND_UP(dim, 8)]
    fills the buffer in the same way; and for a null buffer it throws
    before it looks at the file. *)
Theorem copy_aligned_data_agrees (sz : Z) (f : file) (buf buf' : list byte)
    (npts dim : Z) :
  read_header f = Some (npts, dim) ->
  load_aligned_bin_part sz f buf 0 npts = (Loaded, buf') ->
  copy_aligned_data_from_file sz f (Some buf) (ROUND_UP dim 8) 0
    = (Copied npts dim, Some buf') /\
  (forall rounded_dim offset,
     copy_aligned_data_from_file sz f None rounded_dim offset = (CopyNullPointer, None)).
Proof.
  intros Hhdr Hload. split; [|reflexivity].
  destruct (read_header_range _ _ _ Hhdr) as [Hn Hd].
  unfold load_aligned_bin_part in Hload. rewrite Hhdr in Hload.
  unfold of_int_as_unsigned in Hload. rewrite !u32_small in Hload by lia.
  destruct (negb _); [discriminate|].
  destruct (_ >? _); [discriminate|].
  replace (SizeT.mul (SizeT.mul 0 dim) sz) with 0 in Hload
    by (unfold SizeT.mul; rewrite Z.mul_0_l; reflexivity).
  rewrite add_small in Hload by lia.
  unfold copy_aligned_data_from_file.
  rewrite to_int64_small by lia. cbn [Z.ltb Z.compare].
  unfold read_header in Hhdr.
  destruct (read_word f 0) as [n'|]; [|discriminate].
  destruct (read_word f 4) as [d'|] eqn:E4; [|discriminate].
  injection Hhdr as -> ->. change (0 + 4) with 4. rewrite E4.
  unfold of_int_as_unsigned. rewrite !u32_small by lia.
  change (0 + 8) with 8. change (2 * 4 + 0) with 8 in Hload.
  rewrite Hload. reflexivity.
Qed.

Lemma copy_aligned_data_agrees_witness :
  exists buf',
    load_aligned_bin_part 1 tiny_file (replicate 24 xff) 0 3 = (Loaded, buf') /\
    copy_aligned_data_from_file 1 tiny_file (Some (replicate 24 xff)) (ROUND_UP 2 8) 0
    = (Copied 3 2, Some buf').
Proof.
  destruct (load_aligned_bin_part 1 tiny_file (replicate 24 xff) 0 3)
    as [st buf'] eqn:Hload.
  assert (Hst : st = Loaded) by (vm_compute in Hload; congruence).
  subst st. exists buf'. split; [reflexivity|].
  exact (proj1 (copy_aligned_data_agrees 1 tiny_file (replicate 24 xff) buf' 3 2
                  eq_refl Hload)).
Defined.

Lemma save_rows_spec (sz ndims aligned_dim : Z) (data : list byte) (n : nat) :
  0 < sz -> 0 <= ndims <= aligned_dim -> aligned_dim * sz < 2 ^ 64 ->
  forall (i pos : Z) (f : list byte),
    0 <= i -> 0 <= pos <= Z.of_nat (length f) ->
    (i + Z.of_nat n) * (aligned_dim * sz) <= Z.of_nat (length data) ->
    (i + Z.of_nat n) * aligned_dim < 2 ^ 64 ->
    exists f' : list byte,
      save_rows sz ndims aligned_dim data n i pos f = Some f' /\
      Z.of_nat (length f')
        = Z.max (Z.of_nat (length f)) (pos + Z.of_nat n * (ndims * sz)) /\
      (forall k o : Z, 0 <= k < Z.of_nat n -> 0 <= o < ndims * sz ->
         f' !! Z.to_nat (pos + k * (ndims * sz) + o)
         = data !! Z.to_nat ((i + k) * (aligned_dim * sz) + o)) /\
      (forall q : nat, Z.of_nat q < pos -> f' !! q = f !! q).
Proof.
  intros Hsz Hdim Hrow.
  assert (HD : 0 <= ndims * sz <= aligned_dim * sz) by nia.
  induction n as [|n IH]; intros i pos f Hi Hpos Hbuf Hidx.
  - exists f. cbn [save_rows].
    split; [reflexivity|]. split; [lia|]. split; [intros; lia|reflexivity].
  - cbn [save_rows].
    set (D := ndims * sz) in *. set (R := aligned_dim * sz) in *.
    assert (HnD : 0 <= Z.of_nat n * D) by (apply Z.mul_nonneg_nonneg; lia).
    assert (HnR : 0 <= Z.of_nat n * R) by (apply Z.mul_nonneg_nonneg; lia).
    assert (HiR : 0 <= i * R) by (apply Z.mul_nonneg_nonneg; lia).
    assert (Hnr : 0 <= Z.of_nat n * aligned_dim) by (apply Z.mul_nonneg_nonneg; lia).
    assert (Hir : 0 <= i * aligned_dim) by (apply Z.mul_nonneg_nonneg; lia).
    rewrite (mul_small ndims sz) by (fold D; lia). fold D.
    rewrite (mul_small i aligned_dim) by lia.
    replace (i * aligned_dim * sz) with (i * R) by (unfold R; ring).
    destruct (Z.ltb_spec (Z.of_nat (length data)) (i * R + D)); [lia|].
    set (row := take (Z.to_nat D) (drop (Z.to_nat (i * R)) data)).
    assert (Hrowlen : Z.of_nat (length row) = D)
      by (unfold row; rewrite length_take, length_drop; lia).
    destruct (IH (i + 1) (pos + D) (write_at f pos row))
      as (f' & Hrun & Hlen & Hin & Hout).
    + lia.
    + rewrite length_write_at by lia. unfold file_size. lia.
    + lia.
    + lia.
    + exists f'. split; [exact Hrun|]. split.
      * rewrite Hlen, length_write_at by lia. unfold file_size. lia.
      * split.
        -- intros k o Hk Ho.
           destruct (decide (k = 0)) as [->|Hk0].
           ++ rewrite Hout by lia. rewrite lookup_write_at by lia.
              rewrite decide_True by lia.
              unfold row. rewrite lookup_take_lt by lia. rewrite lookup_drop.
              f_equal. lia.
           ++ specialize (Hin (k - 1) o ltac:(lia) Ho).
              replace (pos + D + (k - 1) * D + o) with (pos + k * D + o) in Hin by ring.
              replace ((i + 1 + (k - 1)) * R + o) with ((i + k) * R + o) in Hin by ring.
              exact Hin.
        -- intros q Hq. rewrite Hout by lia. rewrite lookup_write_at by lia.
           rewrite decide_False by lia. rewrite decide_False by lia. reflexivity.
Qed.

Lemma header_writes (h1 h2 : list byte) :
  length h1 = 4%nat ->
  write_at (write_at [] 0 h1) (0 + 4) h2 = h1 ++ h2.
Proof.
  intros Hlen.
  destruct h1 as [|a [|b [|c [|d [|e h1]]]]]; try discriminate.
  unfold write_at.
  change (Z.to_nat (0 + 4)) with 4%nat. change (Z.to_nat 0) with 0%nat.
  simpl. rewrite drop_nil, app_nil_r. reflexivity.
Qed.

(** X8. [save_data_in_base_dimensions] undoes [load_aligned_bin]: saving
    the padded buffer of a well-formed file with its [npts], [dim] and
    [rounded_dim] to a new file gives back the file, byte for byte, and
    returns its size. *)
Theorem load_aligned_bin_save_round_trip (sz : Z) (f : file) (npts dim : Z) :
  sz = 1 \/ sz = 4 ->
  read_header f = Some (npts, dim) ->
  file_size f = 8 + npts * dim * sz ->
  file_size f < 2 ^ 60 ->
  exists data,
    load_aligned_bin sz f = AlignedLoaded data npts dim (ROUND_UP dim 8) /\
    save_data_in_base_dimensions sz None true data npts dim (ROUND_UP dim 8) 0
    = Saved f (file_size f).
Proof.
  intros Hsz Hhdr Hsize Hreal.
  assert (Hsz' : 0 < sz <= 8) by (destruct Hsz; lia).
  destruct (read_header_range _ _ _ Hhdr) as [Hn Hd].
  destruct (ROUND_UP_8 dim ltac:(lia)) as (_ & _ & Hrd).
  set (rd := ROUND_UP dim 8) in *.
  assert (Hnd : 0 <= npts * dim) by (apply Z.mul_nonneg_nonneg; lia).
  assert (Hnds : npts * dim <= npts * dim * sz) by nia.
  assert (Hnr : 0 <= npts * rd) by (apply Z.mul_nonneg_nonneg; lia).
  assert (Hnr' : npts * rd <= npts * dim + 8 * npts) by nia.
  assert (Hnrs : 0 <= npts * rd * sz <= (npts * dim + 8 * npts) * sz)
    by (split; [apply Z.mul_nonneg_nonneg; lia|apply Z.mul_le_mono_nonneg_r; lia]).
  assert (Hbig : (npts * dim + 8 * npts) * sz < 2 ^ 61) by nia.
  assert (Hnr1 : npts * rd <= npts * rd * sz) by nia.
  set (buf := replicate (Z.to_nat (npts * rd * sz)) x00).
  assert (Hbuf : Z.of_nat (length buf) = npts * rd * sz)
    by (unfold buf; rewrite length_replicate; lia).
  destruct (load_aligned_bin_part_rows sz f buf 0 npts npts dim)
    as (data & Hpart & Hrun & Hlen & Hrows); try assumption; try lia.
  fold rd in Hrun, Hrows.
  exists data. split.
  { unfold load_aligned_bin. rewrite Hhdr.
    unfold of_int_as_unsigned. rewrite !u32_small by lia.
    rewrite (mul_small npts dim) by lia.
    rewrite (mul_small (npts * dim) sz) by lia.
    rewrite add_small by lia.
    replace (file_size f =? npts * dim * sz + 2 * 4) with true
      by (symmetry; apply Z.eqb_eq; lia).
    cbn [negb]. fold rd. unfold alloc_aligned.
    rewrite buffer_size_aligned; [|destruct Hsz; auto|apply ROUND_UP_8_divide].
    rewrite (mul_small npts rd) by lia.
    rewrite (mul_small (npts * rd) sz) by lia. fold buf.
    replace (0 * dim * sz) with 0 in Hrun by ring.
    change (8 + 0) with 8 in Hrun. rewrite Hrun. reflexivity. }
  unfold save_data_in_base_dimensions, open_file_to_write. cbn [default].
  unfold to_int_raw. rewrite !u32_small by lia.
  rewrite (mul_small npts dim) by lia.
  rewrite (mul_small (npts * dim) sz) by lia.
  rewrite add_small by lia.
  rewrite to_int64_small by lia. cbn [Z.ltb Z.compare].
  set (f2 := write_at (write_at [] 0 (le_bytes 4 npts)) (0 + 4) (le_bytes 4 dim)).
  assert (Hf2 : f2 = take 8 f).
  { unfold read_header, read_word in Hhdr.
    destruct (decide (length (read_at f 0 4) = 4%nat)) as [L0|]; [|discriminate].
    destruct (decide (length (read_at f 4 4) = 4%nat)) as [L4|]; [|discriminate].
    injection Hhdr as <- <-.
    unfold f2. rewrite <- L0 at 1. rewrite le_bytes_le_value.
    rewrite <- L4 at 1. rewrite le_bytes_le_value.
    rewrite (header_writes _ _ L0).
    unfold read_at. change (Z.to_nat 4) with 4%nat. change (Z.to_nat 0) with 0%nat.
    cbn [drop]. change 8%nat with (4 + 4)%nat. apply take_take_drop. }
  assert (Hlen2 : Z.of_nat (length f2) = 8).
  { rewrite Hf2, length_take. unfold file_size in Hsize. lia. }
  destruct (save_rows_spec sz dim rd data (Z.to_nat npts) ltac:(lia) ltac:(lia)
              ltac:(nia) 0 (0 + 8) f2)
    as (f' & Hsave & Hlen' & Hin & Hout); try lia.
  rewrite Hsave. f_equal; [|lia].
  rewrite Z2Nat.id in Hlen', Hin by lia.
  apply list_eq. intros q.
  destruct (decide (q < 8)%nat) as [Hq|Hq].
  - rewrite Hout by lia. rewrite Hf2. apply lookup_take_lt. exact Hq.
  - destruct (decide (Z.of_nat q < 8 + npts * (dim * sz))) as [Hin'|Hpast].
    + assert (HDpos : 0 < dim * sz) by nia.
      set (r := Z.of_nat q - 8).
      pose proof (Z.div_mod r (dim * sz) ltac:(lia)) as Hdm.
      pose proof (Z.mod_pos_bound r (dim * sz) ltac:(lia)) as Hmod.
      assert (Hk : 0 <= r / (dim * sz) < npts).
      { split; [apply Z.div_pos; lia|]. apply Z.div_lt_upper_bound; lia. }
      specialize (Hin (r / (dim * sz)) (r mod (dim * sz)) Hk Hmod).
      specialize (Hrows (r / (dim * sz)) (r mod (dim * sz)) Hk Hmod).
      replace (0 + 8 + r / (dim * sz) * (dim * sz) + r mod (dim * sz))
        with (Z.of_nat q) in Hin by (unfold r in *; lia).
      replace (8 + (0 + r / (dim * sz)) * (dim * sz) + r mod (dim * sz))
        with (Z.of_nat q) in Hrows by (unfold r in *; lia).
      rewrite Nat2Z.id in Hin, Hrows.
      replace ((0 + r / (dim * sz)) * (rd * sz) + r mod (dim * sz))
        with (r / (dim * sz) * (rd * sz) + r mod (dim * sz)) in Hin by ring.
      rewrite Hin. exact Hrows.
    + rewrite (lookup_ge_None_2 f') by lia.
      symmetry. apply lookup_ge_None_2. unfold file_size in Hsize. lia.
Qed.

Lemma load_aligned_bin_save_round_trip_witness :
  exists data,
    load_aligned_bin 1 tiny_file = AlignedLoaded data 3 2 8 /\
    save_data_in_base_dimensions 1 None true data 3 2 8 0 = Saved tiny_file 14.
Proof.
  destruct (load_aligned_bin_save_round_trip 1 tiny_file 3 2) as (data & H1 & H2).
  - left. reflexivity.
  - reflexivity.
  - reflexivity.
  - vm_compute. reflexivity.
  - exists data. split; [exact H1|exact H2].
Defined.

(** ** [get_bin_metadata] against the loaders *)

(** X9. [get_bin_metadata] widens the header words as signed [int]s, the
    loaders as unsigned ones: the two readings of a word agree exactly when
    the word is below [2^31]; from [2^31] on, [get_bin_metadata] reports a
    count of at least [2^64 - 2^31]. *)
Theorem get_bin_metadata_sign_extends (f : file) (npts dim : Z) :
  read_header f = Some (npts, dim) ->
  exists num_points d,
    get_bin_metadata f = Some (num_points, d) /\
    (num_points = of_int_as_unsigned npts <-> npts < 2 ^ 31) /\
    (d = of_int_as_unsigned dim <-> dim < 2 ^ 31) /\
    (2 ^ 31 <= npts -> num_points = 2 ^ 64 - 2 ^ 32 + npts) /\
    (2 ^ 31 <= dim -> d = 2 ^ 64 - 2 ^ 32 + dim).
Proof.
  intros Hhdr. destruct (read_header_range _ _ _ Hhdr) as [Hn Hd].
  unfold get_bin_metadata. rewrite Hhdr. eexists _, _. split; [reflexivity|].
  unfold of_int_sign_extended, of_int_as_unsigned. rewrite !u32_small by lia.
  assert (Hext : forall x, 2 ^ 31 <= x < 2 ^ 32 ->
                   SizeT.wrap (x - 2 ^ 32) = 2 ^ 64 - 2 ^ 32 + x).
  { intros x Hx. unfold SizeT.wrap, SizeT.modulus.
    symmetry. apply (Z.mod_unique _ _ (-1)); lia. }
  destruct (Z.ltb_spec npts (2 ^ 31)), (Z.ltb_spec dim (2 ^ 31));
    rewrite ?Hext by lia; repeat split; intros; lia.
Qed.

Lemma get_bin_metadata_sign_extends_witness :
  exists num_points d,
    get_bin_metadata [x00; x00; x00; x80; x02; x00; x00; x00] = Some (num_points, d) /\
    num_points = 2 ^ 64 - 2 ^ 32 + 2 ^ 31 /\ d = 2.
Proof.
  destruct (get_bin_metadata_sign_extends
              [x00; x00; x00; x80; x02; x00; x00; x00] (2 ^ 31) 2 eq_refl)
    as (num_points & d & Hrun & _ & Hd & Hn & _).
  exists num_points, d. split; [exact Hrun|]. split.
  - apply Hn. lia.
  - apply Hd. lia.
Defined.

(** ** What [load_aligned_bin_part] leaves alone *)

(** X10. A successful [load_aligned_bin_part] keeps the size of the
    destination buffer and changes nothing after the [points_to_read] rows
    it fills. *)
Theorem load_aligned_bin_part_frame (sz : Z) (f : file) (data : list byte)
    (offset_points points_to_read npts dim : Z) :
  0 < sz <= 8 ->
  read_header f = Some (npts, dim) ->
  file_size f = 8 + npts * dim * sz ->
  file_size f < 2 ^ 63 ->
  0 <= offset_points -> 0 <= points_to_read ->
  offset_points + points_to_read <= npts ->
  points_to_read * (ROUND_UP dim 8 * sz) <= Z.of_nat (length data) ->
  Z.of_nat (length data) < 2 ^ 64 ->
  exists data',
    load_aligned_bin_part sz f data offset_points points_to_read = (Loaded, data') /\
    length data' = length data /\
    drop (Z.to_nat (points_to_read * (ROUND_UP dim 8 * sz))) data'
    = drop (Z.to_nat (points_to_read * (ROUND_UP dim 8 * sz))) data.
Proof.
  intros Hsz Hhdr Hsize Hreal Hoff Hcnt Hrange Hbuf Hmem.
  destruct (load_aligned_bin_part_ok sz f data offset_points points_to_read npts dim)
    as (data' & Hrun & Hlen & _ & Hout); try assumption.
  exists data'. split; [exact Hrun|]. split; [exact Hlen|].
  apply list_eq. intros q. rewrite !lookup_drop. apply Hout.
  destruct (read_header_range _ _ _ Hhdr) as [_ Hd].
  destruct (ROUND_UP_8 dim ltac:(lia)) as (_ & _ & Hrd).
  assert (0 <= points_to_read * (ROUND_UP dim 8 * sz))
    by (apply Z.mul_nonneg_nonneg; [lia | apply Z.mul_nonneg_nonneg; lia]).
  lia.
Qed.

Lemma load_aligned_bin_part_frame_witness :
  exists data',
    load_aligned_bin_part 1 tiny_file (replicate 20 xff) 1 2 = (Loaded, data') /\
    length data' = 20%nat /\
    drop 16 data' = [xff; xff; xff; xff].
Proof.
  destruct (load_aligned_bin_part_frame 1 tiny_file (replicate 20 xff) 1 2 3 2)
    as (data' & H1 & H2 & H3); try lia; try reflexivity.
  - vm_compute. discriminate.
  - exists data'. split; [exact H1|]. split; [exact H2|exact H3].
Defined.

(** ** The calls of [insert_next_batch] *)

(** X11. [insert_next_batch(index, start, end, ...)], for [start] and [end]
    below 2^63 and a vector of labels that is empty or covers the batch:
    whatever the order in which the runtime runs the iterations of the
    parallel loop, as long as it runs each of them once, the function
    returns, having called [insert_point] once for each [j] of
    [start, ..., end - 1] (no order among the calls is fixed), with the tag
    [1 + j] truncated to 32 bits, which is [1 + j] when [end <= 2^32 - 1];
    the calls are made whatever they return and whatever the index holds;
    the function counts those that did not return 0 and never calls the
    consolidator.  With [end <= start] it does nothing. *)
Theorem insert_next_batch_calls (sz : Z) (schedule : list Z -> list Z) (w : World)
    (start end_ : Z) (data : list byte) (aligned_dim : Z) (labels : list (list Z)) :
  runs_each_once schedule ->
  0 <= start < 2 ^ 63 -> 0 <= end_ < 2 ^ 63 ->
  labels = [] \/ end_ - start <= Z.of_nat (length labels) ->
  exists (w' : World) (num_failed : Z) (rs : list (Z * insert_result)),
    insert_next_batch sz schedule w start end_ data aligned_dim labels
    = Some (w', num_failed) /\
    script w' = script w /\
    log w' = log w ++ map (fun tr => EvInsert tr.1 tr.2) rs /\
    rs.*1 ≡ₚ map insert_tag (seqZ start (end_ - start)) /\
    (end_ <= 2 ^ 32 - 1 -> rs.*1 ≡ₚ seqZ (start + 1) (end_ - start)) /\
    num_failed = failed_insertions rs /\
    (end_ <= start -> w' = w /\ num_failed = 0).
Proof.
  intros Hsched Hstart Hend Hlabels. unfold insert_next_batch.
  rewrite !to_int64_small by lia.
  pose proof (Hsched (seqZ start (end_ - start))) as Hperm.
  destruct (insert_loop_defined sz data aligned_dim labels start
              (schedule (seqZ start (end_ - start)))) with (w := w) (num_failed := 0)
    as [[w' nf] Hrun].
  { destruct Hlabels as [Hnone|Hcover]; [left; exact Hnone|right].
    rewrite Hperm. apply Forall_forall. intros j Hj. apply elem_of_seqZ in Hj.
    rewrite wrap_small by lia. lia. }
  destruct (insert_loop_calls _ _ _ _ _ _ _ _ _ _ Hrun)
    as (Hscript & _ & _ & rs & Hlog & Htags & Hfail).
  exists w', nf, rs. split; [exact Hrun|]. split; [exact Hscript|].
  split; [exact Hlog|].
  assert (Hall : rs.*1 ≡ₚ map insert_tag (seqZ start (end_ - start))).
  { rewrite Htags. apply Permutation_map. exact Hperm. }
  split; [exact Hall|]. split; [|split; [lia|]].
  - intros Hsmall. rewrite Hall, <- map_succ_seqZ.
    replace (map insert_tag (seqZ start (end_ - start)))
      with (map (Z.add 1) (seqZ start (end_ - start))); [reflexivity|].
    apply map_ext_in. intros j Hj.
    apply list_elem_of_In, elem_of_seqZ in Hj. symmetry. apply insert_tag_small. lia.
  - intros Hle. rewrite seqZ_nil, (schedule_nil schedule Hsched) in Hrun by lia.
    cbn in Hrun. injection Hrun as <- <-. split; reflexivity.
Qed.

Lemma insert_next_batch_calls_witness :
  exists (w' : World) (num_failed : Z) (rs : list (Z * insert_result)),
    insert_next_batch 1 (@reverse Z) (mkWorld (new_index 2) [] []) 3 6
      (replicate 24 x07) 8 [] = Some (w', num_failed) /\
    log w' = map (fun tr => EvInsert tr.1 tr.2) rs /\
    rs.*1 ≡ₚ [4; 5; 6] /\ num_failed = failed_insertions rs.
Proof.
  destruct (insert_next_batch_calls 1 (@reverse Z) (mkWorld (new_index 2) [] []) 3 6
              (replicate 24 x07) 8 [] runs_each_once_reverse)
    as (w' & nf & rs & H1 & _ & H2 & _ & H3 & H4 & _); [lia|lia|left; reflexivity|].
  exists w', nf, rs. split; [exact H1|]. split; [exact H2|].
  split; [apply H3; lia|exact H4].
Defined.

(** ** A labelled run *)

Lemma Forall_insertion_event_inserts (rs : list (Z * insert_result)) :
  Forall insertion_event (map (fun tr => EvInsert tr.1 tr.2) rs).
Proof. induction rs; constructor; [exact I|assumption]. Qed.

Lemma insert_task_events (sz : Z) (schedule : list Z -> list Z) (f : file)
    (labels : list (list Z)) (aligned_dim start end_ : Z) (data data' : list byte)
    (w w' : World) :
  insert_task sz schedule f labels aligned_dim start end_ data w = Some (data', w') ->
  script w' = script w /\
  tombstoned (index w') = tombstoned (index w) /\
  exists evs, log w' = log w ++ evs /\ Forall insertion_event evs.
Proof.
  intros Htask.
  destruct (insert_task_log _ _ _ _ _ _ _ _ _ _ _ Htask)
    as (Hscript & Htomb & _ & st & rs & Hlog & _).
  split; [exact Hscript|]. split; [exact Htomb|].
  eexists. split; [exact Hlog|].
  constructor; [exact I|apply Forall_insertion_event_inserts].
Qed.

Lemma streaming_loop_labelled (sz : Z) (schedule : list Z -> list Z) (f : file)
    (labels : list (list Z)) (W C aligned_dim N : Z) (fuel : nat) :
  forall (start : Z) (data : list byte) (w : World),
    Forall insertion_event (log w) ->
    let r := streaming_loop sz schedule f labels true W C aligned_dim N fuel start
               data w in
    Forall insertion_event (outcome_log r) /\
    (forall code w', r <> Exited code w') /\
    (forall w', outcome_world r = Some w' ->
                script w' = script w /\ tombstoned (index w') = tombstoned (index w)).
Proof.
  induction fuel as [|fuel IH]; intros start data w Hlog.
  - cbn. destruct (_ <=? _); cbn.
    + split; [exact Hlog|]. split; [discriminate|]. intros w' [= <-]. auto.
    + split; [exact Hlog|]. split; [discriminate|]. intros w' [= <-]. auto.
  - cbn [streaming_loop]. destruct (_ <=? _).
    2:{ cbn. split; [exact Hlog|]. split; [discriminate|]. intros w' [= <-]. auto. }
    destruct (insert_task _ _ _ _ _ _ _ _ _) as [[data1 w1]|] eqn:Htask.
    2:{ cbn. split; [constructor|]. split; discriminate. }
    destruct (insert_task_events _ _ _ _ _ _ _ _ _ _ _ Htask)
      as (Hscript & Htomb & evs & Hlog1 & Hevs).
    cbn [negb].
    assert (Hlog' : Forall insertion_event (log w1)).
    { rewrite Hlog1. apply Forall_app. split; assumption. }
    destruct (IH (SizeT.add start C) data1 w1 Hlog') as (H1 & H2 & H3).
    split; [exact H1|]. split; [exact H2|].
    intros w' Hw'. destruct (H3 w' Hw') as [Ha Hb].
    split; [rewrite Ha; exact Hscript|rewrite Hb; exact Htomb].
Qed.

(** X12. With a label file the driver only loads and inserts: whatever the
    data file, the labels, the parameters, the order of the parallel
    insertions and what the consolidator would answer, no point is ever
    lazy-deleted, the consolidator is never called, the driver never sleeps
    and never leaves through [exit(-1)]; the index holds no tombstone at any
    time the run is observed. *)
Theorem labelled_run_only_inserts (sz : Z) (schedule : list Z -> list Z) (f : file)
    (labels : list (list Z)) (N W C : Z) (answers : list answer) (fuel : nat) :
  let r := build_incremental_index sz schedule f labels true N W C answers fuel in
  Forall insertion_event (outcome_log r) /\
  (forall code w, r <> Exited code w) /\
  (forall w, outcome_world r = Some w ->
             script w = answers /\ tombstoned (index w) = ∅).
Proof.
  intros r. subst r. unfold build_incremental_index.
  destruct (get_bin_metadata f) as [[num_points dim]|].
  2:{ cbn. split; [constructor|]. split; discriminate. }
  destruct (check_parameters num_points N W C) as [e|N'].
  { cbn. split; [constructor|]. split; discriminate. }
  destruct (insert_task _ _ _ _ _ _ _ _ _) as [[data0 w0]|] eqn:Htask.
  2:{ cbn. split; [constructor|]. split; discriminate. }
  destruct (insert_task_events _ _ _ _ _ _ _ _ _ _ _ Htask)
    as (Hscript & Htomb & evs & Hlog0 & Hevs).
  cbn in Hscript, Htomb, Hlog0.
  assert (Hlog' : Forall insertion_event (log w0)) by (rewrite Hlog0; exact Hevs).
  destruct (streaming_loop_labelled sz schedule f labels W C (ROUND_UP dim 8) N' fuel W
              data0 w0 Hlog') as (H1 & H2 & H3).
  split; [exact H1|]. split; [exact H2|].
  intros w Hw. destruct (H3 w Hw) as [Ha Hb].
  split; [rewrite Ha; exact Hscript|rewrite Hb; exact Htomb].
Qed.

(** ** A data file whose size does not fit its header *)

Lemma load_aligned_bin_part_mismatch (sz : Z) (f : file) (data : list byte)
    (offset_points points_to_read npts dim : Z) :
  0 < sz <= 8 ->
  read_header f = Some (npts, dim) ->
  8 + npts * dim * sz < 2 ^ 64 ->
  file_size f <> 8 + npts * dim * sz ->
  load_aligned_bin_part sz f data offset_points points_to_read = (FileSizeMismatch, data).
Proof.
  intros Hsz Hhdr Hfit Hsize. unfold load_aligned_bin_part. rewrite Hhdr.
  destruct (read_header_range _ _ _ Hhdr) as [Hn Hd].
  unfold of_int_as_unsigned. rewrite !u32_small by lia.
  assert (0 <= npts * dim) by (apply Z.mul_nonneg_nonneg; lia).
  assert (0 <= npts * dim * sz) by (apply Z.mul_nonneg_nonneg; lia).
  assert (npts * dim <= npts * dim * sz) by nia.
  rewrite (mul_small npts dim) by lia. rewrite mul_small by lia.
  rewrite add_small by lia.
  destruct (Z.eqb_spec (file_size f) (npts * dim * sz + 2 * 4)); [lia|reflexivity].
Qed.

Lemma load_statuses_app (l1 l2 : list event) :
  load_statuses (l1 ++ l2) = load_statuses l1 ++ load_statuses l2.
Proof. unfold load_statuses. apply flat_map_app. Qed.

Lemma load_statuses_lazy_deletes (n : nat) :
  forall (i : Z) (w : World),
    load_statuses (log (lazy_delete_loop n i w)) = load_statuses (log w) /\
    inserted_tags (log (lazy_delete_loop n i w)) = inserted_tags (log w).
Proof.
  induction n as [|n IH]; intros i w; [split; reflexivity|].
  cbn [lazy_delete_loop]. destruct (IH (i + 1)
    (emit (EvLazyDelete (delete_tag i)) (with_index (lazy_delete (index w) (delete_tag i)) w)))
    as [-> ->].
  cbn [emit log with_index]. rewrite load_statuses_app, inserted_tags_app. cbn.
  rewrite !app_nil_r. split; reflexivity.
Qed.

Lemma load_statuses_backoff (rs : list answer) : load_statuses (backoff_events rs) = [].
Proof. induction rs; [reflexivity|exact IHrs]. Qed.

Lemma lazy_delete_empty (idx : Index) (tag : Z) :
  live idx = ∅ -> lazy_delete idx tag = idx.
Proof. intros Hlive. unfold lazy_delete. rewrite Hlive, lookup_empty. reflexivity. Qed.

Lemma lazy_delete_loop_empty (n : nat) :
  forall (i : Z) (w : World),
    live (index w) = ∅ -> live (index (lazy_delete_loop n i w)) = ∅.
Proof.
  induction n as [|n IH]; intros i w Hlive; [exact Hlive|].
  cbn [lazy_delete_loop]. apply IH. cbn [emit with_index index].
  rewrite lazy_delete_empty by exact Hlive. exact Hlive.
Qed.

Lemma answered_live (a : answer) (idx : Index) : live (answered a idx) = live idx.
Proof. destruct a as [[]| |]; reflexivity. Qed.

(** The deletion task loads and inserts nothing, however it ends. *)
Lemma delete_and_consolidate_loads (w : World) (start end_ : Z) :
  let w' := task_world (delete_and_consolidate w start end_) in
  inserted_tags (log w') = inserted_tags (log w) /\
  load_statuses (log w') = load_statuses (log w).
Proof.
  unfold delete_and_consolidate. cbv zeta.
  set (w1 := lazy_delete_loop _ _ _).
  destruct (consolidate_with_retry_cases (script w1) (index w1) (log w1))
    as (rs & a & rest & _ & _ & _ & ->).
  rewrite task_world_task_end. cbn [index log].
  destruct (load_statuses_lazy_deletes (Z.to_nat (end_ - start)) start w) as [Hl Hi].
  fold w1 in Hl, Hi.
  rewrite !inserted_tags_app, !load_statuses_app, load_statuses_backoff.
  rewrite (proj1 (tags_backoff_events rs)), Hl, Hi.
  destruct a as [st| |]; cbn; rewrite !app_nil_r; split; reflexivity.
Qed.

(** The deletion task on an index without live points, however it ends. *)
Lemma delete_and_consolidate_empty (w : World) (start end_ : Z) :
  live (index w) = ∅ ->
  live (index (task_world (delete_and_consolidate w start end_))) = ∅.
Proof.
  intros Hlive. unfold delete_and_consolidate. cbv zeta.
  set (w1 := lazy_delete_loop _ _ _).
  destruct (consolidate_with_retry_cases (script w1) (index w1) (log w1))
    as (rs & a & rest & _ & _ & _ & ->).
  rewrite task_world_task_end. cbn [index].
  rewrite answered_live. apply lazy_delete_loop_empty. exact Hlive.
Qed.

Lemma insert_task_mismatch (sz : Z) (schedule : list Z -> list Z) (f : file)
    (labels : list (list Z)) (npts dim aligned_dim start end_ : Z) (data : list byte)
    (w : World) :
  0 < sz <= 8 ->
  read_header f = Some (npts, dim) ->
  8 + npts * dim * sz < 2 ^ 64 ->
  file_size f <> 8 + npts * dim * sz ->
  insert_task sz schedule f labels aligned_dim start end_ data w
  = Some (data, emit (EvLoad start (SizeT.sub end_ start) FileSizeMismatch) w).
Proof.
  intros Hsz Hhdr Hfit Hsize. unfold insert_task.
  rewrite (load_aligned_bin_part_mismatch sz f data start _ npts dim) by assumption.
  reflexivity.
Qed.

Lemma nothing_loaded_emit (w : World) (a b : Z) :
  nothing_loaded w -> nothing_loaded (emit (EvLoad a b FileSizeMismatch) w).
Proof.
  intros (Hlive & Hins & Hloads). split; [exact Hlive|]. cbn [emit log]. split.
  - rewrite inserted_tags_app, Hins. reflexivity.
  - rewrite load_statuses_app. apply Forall_app. split; [exact Hloads|].
    cbn. constructor; [reflexivity|constructor].
Qed.

Lemma nothing_loaded_task (w : World) (start end_ : Z) :
  nothing_loaded w ->
  nothing_loaded (task_world (delete_and_consolidate w start end_)).
Proof.
  intros (Hlive & Hins & Hloads).
  destruct (delete_and_consolidate_loads w start end_) as (H2 & H3).
  split; [apply delete_and_consolidate_empty; exact Hlive|].
  split; [rewrite H2; exact Hins|rewrite H3; exact Hloads].
Qed.

Lemma streaming_loop_nothing_loaded (sz : Z) (schedule : list Z -> list Z) (f : file)
    (labels : list (list Z)) (has_labels : bool) (npts dim W C aligned_dim N : Z)
    (fuel : nat) :
  0 < sz <= 8 ->
  read_header f = Some (npts, dim) ->
  8 + npts * dim * sz < 2 ^ 64 ->
  file_size f <> 8 + npts * dim * sz ->
  forall (start : Z) (data : list byte) (w w' : World),
    nothing_loaded w ->
    outcome_world (streaming_loop sz schedule f labels has_labels W C aligned_dim N
                     fuel start data w) = Some w' ->
    nothing_loaded w'.
Proof.
  intros Hsz Hhdr Hfit Hsize.
  induction fuel as [|fuel IH]; intros start data w w' Hw.
  - cbn. destruct (_ <=? _); intros [= <-]; exact Hw.
  - cbn [streaming_loop]. destruct (_ <=? _); [|intros [= <-]; exact Hw].
    rewrite (insert_task_mismatch sz schedule f labels npts dim) by assumption.
    set (w1 := emit _ w).
    assert (Hw1 : nothing_loaded w1) by (apply nothing_loaded_emit; exact Hw).
    destruct has_labels; cbn [negb]; [apply IH; exact Hw1|].
    destruct (_ >=? _); [|apply IH; exact Hw1].
    pose proof (nothing_loaded_task w1
                  (SizeT.sub (SizeT.sub start W) C) (SizeT.sub start W) Hw1) as Hw2.
    destruct (delete_and_consolidate _ _ _) as [w2|code w2|w2|w2]; cbn in Hw2.
    + apply IH; exact Hw2.
    + intros [= <-]; exact Hw2.
    + apply IH; exact Hw2.
    + intros [= <-]; exact Hw2.
Qed.

Lemma delete_and_consolidate_returns (w : World) (start end_ : Z) :
  known_statuses (script w) ->
  1 <= successes (script w) ->
  exists w',
    delete_and_consolidate w start end_ = TaskReturned w' /\
    known_statuses (script w') /\
    successes (script w') = successes (script w) - 1 /\
    load_statuses (log w') = load_statuses (log w).
Proof.
  intros Hknown Hsucc.
  destruct (delete_and_consolidate_loads w start end_) as [_ Hloads].
  unfold delete_and_consolidate in *. cbv zeta in *.
  rewrite lazy_delete_loop_script in *.
  set (w1 := lazy_delete_loop _ _ _) in *.
  destruct (consolidate_with_retry_known (script w) (index w1) (log w1) Hknown)
    as [(_ & rs & rest & Hrs & Hshape & Hrun)|(Hzero & _)]; [|lia].
  rewrite Hrun in *. eexists. split; [reflexivity|]. cbn [script task_world] in *.
  split; [|split; [|exact Hloads]].
  - rewrite Hshape in Hknown. apply known_statuses_app_r in Hknown.
    unfold known_statuses in *. apply Forall_cons in Hknown. tauto.
  - rewrite Hshape, successes_app, (successes_retried rs Hrs). cbn [successes]. lia.
Qed.

Lemma streaming_loop_mismatch (sz : Z) (schedule : list Z -> list Z) (f : file)
    (labels : list (list Z)) (has_labels : bool) (npts dim W C aligned_dim N : Z)
    (fuel : nat) :
  0 < sz <= 8 ->
  read_header f = Some (npts, dim) ->
  npts < 2 ^ 31 ->
  8 + npts * dim * sz < 2 ^ 64 ->
  file_size f <> 8 + npts * dim * sz ->
  0 <= W -> 0 < C -> W + C <= N -> N <= npts ->
  forall (start : Z) (data : list byte) (w : World),
    start = W \/ W + C <= start ->
    start <= N ->
    (N - start) / C < Z.of_nat fuel ->
    has_labels = true \/
    (known_statuses (script w) /\
     (N - start) / C - (if start =? W then 1 else 0) <= successes (script w)) ->
    exists w',
      streaming_loop sz schedule f labels has_labels W C aligned_dim N fuel start data w
      = Finished w' /\
      Z.of_nat (length (load_statuses (log w')))
      = Z.of_nat (length (load_statuses (log w))) + (N - start) / C.
Proof.
  intros Hsz Hhdr Hn Hfit Hsize HW HC HWC HN.
  induction fuel as [|fuel IH]; intros start data w Hstart HstartN Hfuel Hcons.
  { exfalso. assert (0 <= (N - start) / C) by (apply Z.div_pos; lia). lia. }
  cbn [streaming_loop]. rewrite add_small by lia.
  destruct (Z.leb_spec (start + C) N) as [Hgo|Hstop].
  2:{ exists w. rewrite Z.div_small by lia. split; [reflexivity|lia]. }
  rewrite (insert_task_mismatch sz schedule f labels npts dim) by assumption.
  set (w1 := emit _ w).
  assert (Hdiv : (N - (start + C)) / C = (N - start) / C - 1).
  { rewrite (div_step (N - start) C) by lia.
    replace (N - start - C) with (N - (start + C)) by lia. lia. }
  assert (Hcount1 : Z.of_nat (length (load_statuses (log w1)))
                    = Z.of_nat (length (load_statuses (log w))) + 1).
  { unfold w1. cbn [emit log]. rewrite load_statuses_app, length_app. cbn. lia. }
  assert (Hfresh : (start + C =? W) = false) by (apply Z.eqb_neq; lia).
  assert (Hnext : forall w2,
            has_labels = true \/
            (known_statuses (script w2) /\
             (N - start) / C - 1 <= successes (script w2)) ->
            load_statuses (log w2) = load_statuses (log w1) ->
            exists w',
              streaming_loop sz schedule f labels has_labels W C aligned_dim N fuel
                (start + C) data w2 = Finished w' /\
              Z.of_nat (length (load_statuses (log w')))
              = Z.of_nat (length (load_statuses (log w))) + (N - start) / C).
  { intros w2 H1 H2.
    destruct (IH (start + C) data w2) as (w' & Ha & Hb); try lia.
    - rewrite Hdiv, Hfresh. destruct H1 as [H1|H1]; [left; exact H1|right].
      split; [tauto|lia].
    - exists w'. split; [exact Ha|]. rewrite Hb, H2, Hcount1, Hdiv. lia. }
  destruct has_labels eqn:Hlab; cbn [negb].
  { apply Hnext; [left|]; reflexivity. }
  destruct Hcons as [Hcons|[Hknown Hsucc]]; [discriminate|].
  rewrite (add_small W C) by lia.
  destruct (Z.geb_spec start (W + C)) as [Hdel|Hnodel].
  2:{ assert (start = W) as -> by lia. rewrite Z.eqb_refl in Hsucc.
      apply Hnext; [right|reflexivity]. split; [exact Hknown|exact Hsucc]. }
  assert ((start =? W) = false) as Hne by (apply Z.eqb_neq; lia).
  rewrite Hne in Hsucc.
  assert (1 <= (N - start) / C).
  { rewrite (div_step (N - start) C) by lia.
    assert (0 <= (N - start - C) / C) by (apply Z.div_pos; lia). lia. }
  destruct (delete_and_consolidate_returns w1
              (SizeT.sub (SizeT.sub start W) C) (SizeT.sub start W))
    as (w2 & Hrun & Hknown2 & Hsucc2 & Hloads2); [exact Hknown|cbn; lia|].
  rewrite Hrun. apply Hnext; [right|exact Hloads2].
  split; [exact Hknown2|]. rewrite Hsucc2. cbn [w1 emit script]. lia.
Qed.

(** X13. A data file whose size is not the [8 + npts * dim * sizeof(T)]
    its header announces (this size being below 2^64) is never noticed by
    the driver: every load ends in the loader's file-size exception, which
    stays in the future of the insertion task.  So whatever the parameters,
    the labels, the schedule and the consolidator, at every point where the
    run is observed nothing was inserted, the index is empty and every load
    ended in that exception.  When moreover the header words are below
    2^31, [0 <= W], [0 < C], the three checks pass without wrap-around, the
    bound on the iterations is not reached and, without a label file, the
    consolidator answers every call with a named report and reports SUCCESS
    at least [(N' - W) / C - 1] times, the driver leaves the loop as on a
    good file, after [1 + (N' - W) / C] loads. *)
Theorem mismatched_file_inserts_nothing (sz : Z) (schedule : list Z -> list Z)
    (f : file) (labels : list (list Z)) (has_labels : bool) (npts dim N W C : Z)
    (answers : list answer) (fuel : nat) :
  0 < sz <= 8 ->
  read_header f = Some (npts, dim) ->
  8 + npts * dim * sz < 2 ^ 64 ->
  file_size f <> 8 + npts * dim * sz ->
  let run := build_incremental_index sz schedule f labels has_labels N W C answers
               fuel in
  let N' := if N =? 0 then npts else N in
  (forall w, outcome_world run = Some w -> nothing_loaded w) /\
  (npts < 2 ^ 31 -> dim < 2 ^ 31 ->
   0 <= W -> 0 < C ->
   N' <= npts -> W + C <= N' -> N' / 1000 <= C ->
   has_labels = true \/
   (known_statuses answers /\ (N' - W) / C - 1 <= successes answers) ->
   (N' - W) / C < Z.of_nat fuel ->
   exists w,
     run = Finished w /\
     Z.of_nat (length (load_statuses (log w))) = 1 + (N' - W) / C).
Proof.
  intros Hsz Hhdr Hfit Hsize run N'. subst run.
  destruct (read_header_range _ _ _ Hhdr) as [Hn0 Hd0].
  unfold build_incremental_index. split.
  - intros w. destruct (get_bin_metadata f) as [[num_points dim']|]; [|discriminate].
    destruct (check_parameters num_points N W C) as [e|N'']; [discriminate|].
    rewrite (insert_task_mismatch sz schedule f _ npts dim) by assumption.
    apply (streaming_loop_nothing_loaded sz schedule f _ has_labels npts dim);
      try assumption.
    apply nothing_loaded_emit. split; [reflexivity|]. split; [reflexivity|constructor].
  - intros Hn Hd HW HC HN HWC Hthrash Hcons Hfuel.
    assert (Hmeta : get_bin_metadata f = Some (npts, dim)).
    { unfold get_bin_metadata. rewrite Hhdr.
      unfold of_int_sign_extended. rewrite !u32_small by lia.
      destruct (Z.ltb_spec npts (2 ^ 31)), (Z.ltb_spec dim (2 ^ 31)); try lia.
      reflexivity. }
    rewrite Hmeta.
    rewrite (check_parameters_ok npts N W C) by (fold N'; lia). fold N'.
    rewrite (insert_task_mismatch sz schedule f _ npts dim) by assumption.
    set (w0 := emit _ _).
    destruct (streaming_loop_mismatch sz schedule f (if has_labels then labels else [])
                has_labels npts dim W C (ROUND_UP dim 8) N'
                fuel Hsz Hhdr Hn Hfit Hsize HW HC HWC HN W
                (alloc_data sz (ROUND_UP dim 8) W C) w0)
      as (w & Hrun & Hcount); try (left; reflexivity); try lia.
    + rewrite Z.eqb_refl. exact Hcons.
    + exists w. split; [exact Hrun|]. rewrite Hcount. unfold w0. cbn. lia.
Qed.

Lemma mismatched_file_inserts_nothing_witness :
  (forall w,
     outcome_world
       (build_incremental_index 1 (@reverse Z) (take 15 small_file) [] false 0 4 2
          [Reports LOCK_FAIL; Reports SUCCESS; Reports SUCCESS; Reports SUCCESS] 10)
     = Some w -> nothing_loaded w) /\
  exists w,
    build_incremental_index 1 (@reverse Z) (take 15 small_file) [] false 0 4 2
      [Reports LOCK_FAIL; Reports SUCCESS; Reports SUCCESS; Reports SUCCESS] 10
    = Finished w /\
    Z.of_nat (length (load_statuses (log w))) = 5.
Proof.
  destruct (mismatched_file_inserts_nothing 1 (@reverse Z) (take 15 small_file) [] false
              12 1 0 4 2
              [Reports LOCK_FAIL; Reports SUCCESS; Reports SUCCESS; Reports SUCCESS] 10)
    as (Hsafe & Hlive); try (cbn; lia); try reflexivity.
  { vm_compute. discriminate. }
  split; [exact Hsafe|].
  apply Hlive;
    [lia|lia|lia|lia|vm_compute; discriminate|vm_compute; discriminate
    |vm_compute; discriminate| |vm_compute; reflexivity].
  right. split; [repeat constructor|vm_compute; discriminate].
Defined.
(** ** The name of the saved index *)

Lemma append_cons (x : Ascii.ascii) (a b : String.string) :
  String.append (String.String x a) b = String.String x (String.append a b).
Proof. reflexivity. Qed.

Lemma append_nil (b : String.string) : String.append String.EmptyString b = b.
Proof. reflexivity. Qed.

Lemma append_assoc (a b c : String.string) :
  String.append (String.append a b) c = String.append a (String.append b c).
Proof.
  induction a as [|x a IH]; [reflexivity|].
  rewrite !append_cons. f_equal. exact IH.
Qed.

Lemma append_inv_head (s a b : String.string) :
  String.append s a = String.append s b -> a = b.
Proof.
  induction s as [|x s IH]; [rewrite !append_nil; auto|].
  rewrite !append_cons. intros [= H]. apply IH. exact H.
Qed.

Lemma no_dash_string_of_uint (d : Decimal.uint) :
  no_dash (DecimalString.NilEmpty.string_of_uint d).
Proof.
  induction d; simpl; try exact I; (split; [discriminate|assumption]).
Qed.

(** Two strings that agree up to their first [-] and after it. *)
Lemma split_at_dash (a b r1 r2 : String.string) :
  no_dash a -> no_dash b ->
  String.append a (String.String "-" r1) = String.append b (String.String "-" r2) ->
  a = b /\ r1 = r2.
Proof.
  revert b. induction a as [|x a IH]; intros [|y b];
    rewrite ?append_cons, ?append_nil; simpl.
  - intros _ _ [= H]. auto.
  - intros _ [Hy _] [= H _]. exfalso. apply Hy. symmetry. exact H.
  - intros [Hx _] _ [= H _]. exfalso. apply Hx. exact H.
  - intros [_ Ha] [_ Hb] [= Hxy H].
    destruct (IH b Ha Hb H) as [-> ->]. subst y. auto.
Qed.

Lemma to_string_inj (x y : Z) : 0 <= x -> 0 <= y -> to_string x = to_string y -> x = y.
Proof.
  unfold to_string. intros Hx Hy H.
  assert (Hu : N.to_uint (Z.to_N x) = N.to_uint (Z.to_N y)).
  { apply (f_equal DecimalString.NilEmpty.uint_of_string) in H.
    rewrite !DecimalString.NilEmpty.usu in H. injection H as H. exact H. }
  apply (f_equal N.of_uint) in Hu. rewrite !DecimalN.Unsigned.of_to in Hu. lia.
Qed.

(** X14. For one path prefix, [get_save_filename] gives different names to
    different triples of window, interval and number of points: the saved
    index of one run never takes the name of another parameter setting. *)
Theorem get_save_filename_injective (save_path : String.string)
    (W C N W' C' N' : Z) :
  0 <= W -> 0 <= C -> 0 <= N -> 0 <= W' -> 0 <= C' -> 0 <= N' ->
  get_save_filename save_path W C N = get_save_filename save_path W' C' N' ->
  W = W' /\ C = C' /\ N = N'.
Proof.
  intros HW HC HN HW' HC' HN'. unfold get_save_filename.
  rewrite !append_assoc. intros H. apply append_inv_head in H.
  rewrite ?append_cons, ?append_nil in H. injection H as H.
  destruct (split_at_dash _ _ _ _ (no_dash_string_of_uint _) (no_dash_string_of_uint _) H)
    as [HeqW H1].
  rewrite ?append_cons, ?append_nil in H1. injection H1 as H1.
  destruct (split_at_dash _ _ _ _ (no_dash_string_of_uint _) (no_dash_string_of_uint _) H1)
    as [HeqC H2].
  rewrite ?append_cons, ?append_nil in H2. injection H2 as H2.
  split; [|split]; apply to_string_inj; assumption.
Qed.

Lemma get_save_filename_injective_witness :
  get_save_filename "i-"%string 100 20 1000 = "i-act100-cons20-max1000"%string /\
  (100 = 100 /\ 20 = 20 /\ 1000 = 1000).
Proof.
  split; [reflexivity|].
  apply (get_save_filename_injective "i-"%string 100 20 1000 100 20 1000);
    try lia; reflexivity.
Defined.

(** ** [main] *)

Lemma after_driver_not_rejected (r : run_outcome) : after_driver r <> MainReturned (-1).
Proof. destruct r; discriminate. Qed.

(** With arguments that pass the validation, [main] is the driver at the
    element size of the data type. *)
Lemma main_valid (schedule : list Z -> list Z)
    (data_type dist_fn label_type label_file : String.string)
    (start_point_norm : SpecFloat.spec_float) (f : file) (labels : list (list Z))
    (N W C : Z) (answers : list answer) (fuel : nat) :
  valid_arguments data_type dist_fn label_type start_point_norm ->
  main schedule data_type dist_fn label_type label_file start_point_norm f labels N W C
    answers fuel
  = after_driver
      (build_incremental_index (if String.eqb data_type "float" then 4 else 1) schedule f
         labels (negb (String.eqb label_file String.EmptyString)) N W C answers fuel).
Proof.
  intros (Hnorm & Hlt & Hdt & Hdf). unfold main.
  destruct start_point_norm; try (exfalso; eapply Hnorm; reflexivity);
    destruct Hlt as [-> | ->]; destruct Hdt as [-> | [-> | ->]];
    destruct Hdf as [-> | ->]; reflexivity.
Qed.

(** X15. [main] returns -1 exactly when an argument is invalid: a start
    point norm of (plus or minus) zero, a label type other than [ushort] and
    [uint], a data type other than [int8], [uint8] and [float], or a distance
    function other than [l2] and [mips]; it then has read no file.  A
    failure of the driver never shows as a return of -1. *)
Theorem main_rejects_exactly_invalid_arguments (schedule : list Z -> list Z)
    (data_type dist_fn label_type label_file : String.string)
    (start_point_norm : SpecFloat.spec_float) (f : file) (labels : list (list Z))
    (N W C : Z) (answers : list answer) (fuel : nat) :
  main schedule data_type dist_fn label_type label_file start_point_norm f labels N W C
    answers fuel = MainReturned (-1)
  <-> ~ valid_arguments data_type dist_fn label_type start_point_norm.
Proof.
  split.
  - intros Hret Hvalid. rewrite main_valid in Hret by exact Hvalid.
    exact (after_driver_not_rejected _ Hret).
  - intros Hinvalid. unfold main.
    destruct start_point_norm as [s| | |s m e]; [reflexivity| | |];
      (destruct (String.eqb_spec label_type "ushort") as [Hl1|Hl1],
               (String.eqb_spec label_type "uint") as [Hl2|Hl2];
       cbn [negb andb]; try reflexivity;
       destruct (String.eqb_spec data_type "int8") as [Hd1|Hd1],
                (String.eqb_spec data_type "uint8") as [Hd2|Hd2],
                (String.eqb_spec data_type "float") as [Hd3|Hd3];
       cbn [negb andb]; try reflexivity;
       destruct (String.eqb_spec dist_fn "l2") as [Hf1|Hf1],
                (String.eqb_spec dist_fn "mips") as [Hf2|Hf2];
       cbn [negb andb]; try reflexivity;
       exfalso; apply Hinvalid; unfold valid_arguments;
       (split; [intros s'; discriminate|]); auto 10).
Qed.

(** X16. The distance function is validated and then ignored: the driver
    is not given it (the index is constructed with [diskann::L2]), so a run
    with [mips] is the run with [l2]. *)
Theorem main_ignores_dist_fn (schedule : list Z -> list Z)
    (data_type dist_fn dist_fn' label_type label_file : String.string)
    (start_point_norm : SpecFloat.spec_float) (f : file) (labels : list (list Z))
    (N W C : Z) (answers : list answer) (fuel : nat) :
  valid_arguments data_type dist_fn label_type start_point_norm ->
  valid_arguments data_type dist_fn' label_type start_point_norm ->
  main schedule data_type dist_fn label_type label_file start_point_norm f labels N W C
    answers fuel
  = main schedule data_type dist_fn' label_type label_file start_point_norm f labels
      N W C answers fuel.
Proof.
  intros H1 H2. rewrite !main_valid by assumption. reflexivity.
Qed.

Lemma main_ignores_dist_fn_witness :
  main (fun l => l) "uint8"%string "l2"%string "uint"%string String.EmptyString
    (SpecFloat.S754_finite false 1 0) small_file [] 0 4 2 [] 10
  = main (fun l => l) "uint8"%string "mips"%string "uint"%string String.EmptyString
      (SpecFloat.S754_finite false 1 0) small_file [] 0 4 2 [] 10.
Proof.
  apply main_ignores_dist_fn; unfold valid_arguments;
    (split; [intros s; discriminate|]); auto 10.
Defined.


(** ** [GenRandom] *)

Lemma spread_spec (addr : list Z) :
  forall (prev b : Z),
    0 <= prev <= b ->
    Forall (fun x => 0 <= x <= b) addr ->
    b + Z.of_nat (length addr) < 2 ^ 32 ->
    length (spread prev addr) = length addr /\
    Forall (fun x => prev < x <= b + Z.of_nat (length addr)) (spread prev addr) /\
    NoDup (spread prev addr).
Proof.
  induction addr as [|x rest IH]; intros prev b Hprev Hall Hfit.
  - cbn. split; [reflexivity|]. split; constructor.
  - cbn [spread]. apply Forall_cons in Hall as [Hx Hrest].
    cbn [length] in Hfit |- *.
    set (x' := if x <=? prev then U32.wrap (prev + 1) else x).
    assert (Hx' : prev < x' <= b + 1).
    { unfold x'. destruct (Z.leb_spec x prev); [rewrite u32_small by lia|]; lia. }
    destruct (IH x' (b + 1)) as (Hlen & Hbound & Hnd).
    { lia. }
    { eapply Forall_impl; [exact Hrest|]. cbn. intros; lia. }
    { lia. }
    split; [rewrite Hlen; reflexivity|]. split.
    + constructor; [lia|].
      eapply Forall_impl; [exact Hbound|]. cbn. intros; lia.
    + constructor; [|exact Hnd].
      intros Hin. rewrite Forall_forall in Hbound.
      specialize (Hbound x' Hin). lia.
Qed.

Lemma shift_mod_inj (N off a b : Z) :
  0 <= a < N -> 0 <= b < N -> 0 <= off < N ->
  (a + off) mod N = (b + off) mod N -> a = b.
Proof.
  intros Ha Hb Hoff.
  assert (Hmod : forall c, 0 <= c < N ->
            (c + off) mod N = if c + off <? N then c + off else c + off - N).
  { intros c Hc. destruct (Z.ltb_spec (c + off) N).
    - apply Z.mod_small. lia.
    - symmetry. apply (Z.mod_unique _ _ 1); lia. }
  rewrite (Hmod a Ha), (Hmod b Hb).
  destruct (Z.ltb_spec (a + off) N), (Z.ltb_spec (b + off) N); lia.
Qed.

(** X18. For [size < N <= 2^31], [GenRandom] fills [addr] with [size]
    pairwise different values below [N], whatever the generator returns. *)
Theorem GenRandom_distinct (rng : nat -> Z) (size N : Z) :
  0 <= size < N -> N <= 2 ^ 31 ->
  exists addr,
    GenRandom rng size N = Some addr /\
    Z.of_nat (length addr) = size /\
    NoDup addr /\
    Forall (fun a => 0 <= a < N) addr.
Proof.
  intros Hsize HN. unfold GenRandom.
  rewrite (u32_small (N - size)) by lia.
  destruct (Z.eqb_spec (N - size) 0) as [?|_]; [lia|]. rewrite andb_false_r.
  destruct (Z.eqb_spec N 0) as [?|_]; [lia|].
  eexists. split; [reflexivity|].
  set (addr0 := map _ (seq 0 (Z.to_nat size))).
  assert (Hlen0 : length addr0 = Z.to_nat size).
  { unfold addr0. rewrite length_map, length_seq. reflexivity. }
  assert (Hall0 : Forall (fun x => 0 <= x <= N - size - 1) addr0).
  { unfold addr0. apply Forall_forall. intros x Hx.
    apply list_elem_of_In, in_map_iff in Hx as (i & <- & _).
    pose proof (Z.mod_pos_bound (U32.wrap (rng i)) (N - size) ltac:(lia)). lia. }
  pose proof (merge_sort_Permutation Z.le addr0) as Hperm.
  set (sorted := merge_sort Z.le addr0) in *.
  assert (Hlen1 : length sorted = Z.to_nat size) by (rewrite Hperm; exact Hlen0).
  assert (Hall1 : Forall (fun x => 0 <= x <= N - size - 1) sorted) by (rewrite Hperm; exact Hall0).
  set (off := U32.wrap (rng (Z.to_nat size)) mod N).
  assert (Hoff : 0 <= off < N) by (apply Z.mod_pos_bound; lia).
  set (addr2 := match sorted with [] => [] | x :: rest => x :: spread x rest end).
  assert (H2 : length addr2 = Z.to_nat size /\ NoDup addr2 /\
               Forall (fun x => 0 <= x < N) addr2).
  { unfold addr2. destruct sorted as [|x rest].
    - split; [exact Hlen1|]. split; constructor.
    - apply Forall_cons in Hall1 as [Hx Hrest]. cbn [length] in Hlen1.
      destruct (spread_spec rest x (N - size - 1)) as (Hlen & Hbound & Hnd);
        [lia|exact Hrest|lia|].
      split; [cbn [length]; rewrite Hlen; exact Hlen1|]. split.
      + constructor; [|exact Hnd]. intros Hin. rewrite Forall_forall in Hbound.
        specialize (Hbound x Hin). lia.
      + constructor; [lia|]. eapply Forall_impl; [exact Hbound|]. cbn. intros; lia. }
  destruct H2 as (Hlen2 & Hnd2 & Hall2).
  split; [rewrite length_map; lia|]. split.
  - apply NoDup_ListNoDup, List.NoDup_map_NoDup_ForallPairs; [|apply NoDup_ListNoDup; exact Hnd2].
    intros a b Ha Hb. rewrite Forall_forall in Hall2.
    pose proof (Hall2 a (proj2 (list_elem_of_In _ _) Ha)) as Ha'.
    pose proof (Hall2 b (proj2 (list_elem_of_In _ _) Hb)) as Hb'.
    rewrite !u32_small by lia. apply shift_mod_inj; assumption.
  - apply Forall_forall. intros y Hy.
    apply list_elem_of_In, in_map_iff in Hy as (a & <- & _).
    apply Z.mod_pos_bound. lia.
Qed.

Lemma GenRandom_distinct_witness :
  exists addr,
    GenRandom (fun _ => 4) 5 10 = Some addr /\
    Z.of_nat (length addr) = 5 /\ NoDup addr /\ Forall (fun a => 0 <= a < 10) addr.
Proof.
  apply (GenRandom_distinct (fun _ => 4) 5 10); lia.
Defined.

(** ** The zero interval at a concrete input *)

Lemma zero_interval_never_finishes_witness :
  exists w,
    build_incremental_index 1 (fun l => l) small_file [] false 0 4 0 [] 7 = OutOfFuel w.
Proof.
  apply (zero_interval_never_finishes 1 (fun l => l) small_file [] 12 1 0 4 [] 7);
    try (cbn; lia).
  - exact small_file_well_formed.
  - constructor.
Defined.
(** ** [prepare_base_for_inner_products] *)

Lemma foldl_ext_in {A B : Type} (f g : A -> B -> A) (l : list B) :
  (forall a x, x ∈ l -> f a x = g a x) ->
  forall a, foldl f a l = foldl g a l.
Proof.
  induction l as [|x l IH]; intros Hfg a; [reflexivity|].
  cbn. rewrite (Hfg a x) by left. apply IH. intros a' y Hy. apply Hfg. right. exact Hy.
Qed.

Lemma foldl_map {A B C : Type} (f : A -> B -> A) (g : C -> B) (l : list C) :
  forall a, foldl f a (map g l) = foldl (fun a x => f a (g x)) a l.
Proof. induction l as [|x l IH]; intros a; [reflexivity|]. cbn. apply IH. Qed.

(** An element of a block that was read from the file is the element of
    the file at the same place. *)
Lemma read_at_read_at (f : file) (pos n a s : Z) :
  0 <= pos -> 0 <= a -> 0 <= s -> a + s <= n ->
  read_at (read_at f pos n) a s = read_at f (pos + a) s.
Proof.
  intros Hpos Ha Hs Hfit. unfold read_at.
  rewrite (take_drop_commute _ (Z.to_nat s) (Z.to_nat a)).
  rewrite take_take.
  rewrite Nat.min_l by lia.
  rewrite <- take_drop_commute, drop_drop.
  f_equal. f_equal. lia.
Qed.

(** A loop that adds to one cell of an array. *)
Lemma foldl_insert_cell {A B : Type} (d : A) (op : A -> B -> A) (js : list B) (i : nat) :
  forall l : list A,
    (i < length l)%nat ->
    foldl (fun l j => <[i := op (nth i l d) j]> l) l js
    = <[i := foldl op (nth i l d) js]> l.
Proof.
  induction js as [|j js IH]; intros l Hi; cbn.
  - symmetry. apply list_insert_id'. intros _.
    destruct (nth_lookup_or_length l i d) as [H|H]; [exact H|lia].
  - rewrite IH by (rewrite length_insert; exact Hi).
    rewrite (nth_lookup_Some _ _ _ (op (nth i l d) j))
      by (apply list_lookup_insert_eq; exact Hi).
    apply list_insert_insert_eq.
Qed.

(** A loop that fills the cells [P], [P + 1], ... of an array. *)
Lemma foldl_insert_run {A : Type} (g : Z -> A) (P : Z) (n : nat) :
  0 <= P ->
  forall l : list A,
    (Z.to_nat P + n <= length l)%nat ->
    let l' := foldl (fun out j => <[Z.to_nat (P + j) := g j]> out) l
                (seqZ 0 (Z.of_nat n)) in
    length l' = length l /\
    take (Z.to_nat P + n) l' = take (Z.to_nat P) l ++ map g (seqZ 0 (Z.of_nat n)).
Proof.
  intros HP. induction n as [|n IH]; intros l Hfit.
  - cbn. rewrite Nat.add_0_r, app_nil_r. split; reflexivity.
  - cbv zeta. rewrite seqZ_S, foldl_app, map_app. cbn [foldl map].
    destruct (IH l ltac:(lia)) as [Hlen Htake]. cbv zeta in Hlen, Htake.
    set (l' := foldl _ l (seqZ 0 (Z.of_nat n))) in *.
    rewrite Z.add_0_l.
    replace (Z.to_nat (P + Z.of_nat n)) with (Z.to_nat P + n)%nat by lia.
    split; [rewrite length_insert; exact Hlen|].
    replace (Z.to_nat P + S n)%nat with (S (Z.to_nat P + n)) by lia.
    rewrite (take_S_r _ _ (g (Z.of_nat n)))     by (apply list_lookup_insert_eq; lia).
    rewrite take_insert_ge by lia. rewrite Htake, <- app_assoc. reflexivity.
Qed.

Section PrepareBlocks.

Variable T : element_type.
Variable f : file.
Variables npts in_dims : Z.
Hypothesis Hsize : 0 <= sizeof T.
Hypothesis Hnpts : 0 <= npts.
Hypothesis Hdims : 0 <= in_dims.
Hypothesis Hfile : 8 + npts * in_dims * sizeof T <= file_size f.

Lemma base_vectors_lookup (i : nat) :
  Z.of_nat i < npts ->
  base_vectors T f npts in_dims !! i
  = Some (map (fun j => read_at f (8 + (Z.of_nat i * in_dims + j) * sizeof T) (sizeof T))
            (seqZ 0 in_dims)).
Proof.
  intros Hi. unfold base_vectors.
  change (map ?g (seqZ 0 npts)) with (g <$> seqZ 0 npts).
  rewrite list_lookup_fmap, lookup_seqZ_lt by exact Hi. cbn. reflexivity.
Qed.

Lemma length_base_vectors : length (base_vectors T f npts in_dims) = Z.to_nat npts.
Proof. unfold base_vectors. rewrite length_map, length_seqZ. reflexivity. Qed.

(** The block that holds the points [s, ..., s + c - 1]. *)
Lemma element_of_block (s c p j : Z) :
  0 <= s -> 0 <= p < c -> 0 <= j < in_dims ->
  element_at T
    (read_at f (8 + s * in_dims * sizeof T) (c * in_dims * sizeof T))
    (p * in_dims + j)
  = read_at f (8 + ((s + p) * in_dims + j) * sizeof T) (sizeof T).
Proof.
  intros Hs Hp Hj. unfold element_at.
  assert (0 <= s * in_dims) by (apply Z.mul_nonneg_nonneg; lia).
  assert (0 <= s * in_dims * sizeof T) by (apply Z.mul_nonneg_nonneg; lia).
  assert (0 <= p * in_dims) by (apply Z.mul_nonneg_nonneg; lia).
  assert (0 <= (p * in_dims + j) * sizeof T) by (apply Z.mul_nonneg_nonneg; lia).
  assert (p * in_dims + j + 1 <= c * in_dims) by nia.
  assert ((p * in_dims + j + 1) * sizeof T <= c * in_dims * sizeof T)
    by (apply Z.mul_le_mono_nonneg_r; lia).
  rewrite read_at_read_at by lia.
  f_equal. ring.
Qed.

(** One point of the first pass. *)
Lemma norms_point (s c p : nat) :
  (p < c)%nat -> Z.of_nat (s + p) < npts ->
  let block := read_at f (8 + Z.of_nat s * in_dims * sizeof T)
                 (Z.of_nat c * in_dims * sizeof T) in
  let vs := base_vectors T f npts in_dims in
  let st := norms_after T vs npts (s + p) in
  let norms' := add_squares T block in_dims (Z.of_nat p) (Z.of_nat s + Z.of_nat p) st.1 in
  (norms', larger st.2 (nth (Z.to_nat (Z.of_nat s + Z.of_nat p)) norms' Float32.zero))
  = norms_after T vs npts (S (s + p)).
Proof.
  intros Hp Hi block vs st norms'. subst st norms'. unfold norms_after. cbn [fst snd].
  replace (Z.to_nat (Z.of_nat s + Z.of_nat p)) with (s + p)%nat by lia.
  set (i := (s + p)%nat) in *.
  pose proof (base_vectors_lookup i Hi) as Hvi. fold vs in Hvi.
  set (v := map _ (seqZ 0 in_dims)) in Hvi.
  set (norms := map (squared_norm T) (take i vs) ++ replicate (Z.to_nat npts - i) Float32.zero).
  assert (Hlen : length (map (squared_norm T) (take i vs)) = i).
  { rewrite length_map, length_take. unfold vs. rewrite length_base_vectors. lia. }
  assert (Hzero : nth i norms Float32.zero = Float32.zero).
  { rewrite nth_lookup. unfold norms. rewrite lookup_app_r by lia.
    rewrite Hlen, Nat.sub_diag.
    destruct (Z.to_nat npts - i)%nat eqn:E; [lia|reflexivity]. }
  assert (Hlong : (i < length norms)%nat).
  { unfold norms. rewrite length_app, Hlen, length_replicate. lia. }
  unfold add_squares.
  replace (Z.to_nat (Z.of_nat s + Z.of_nat p)) with i by lia.
  rewrite (foldl_insert_cell Float32.zero
             (fun a j => Float32.add a
                           (square T (element_at T block (Z.of_nat p * in_dims + j)))))
    by exact Hlong.
  rewrite Hzero.
  assert (Hnorm : foldl (fun a j => Float32.add a
                           (square T (element_at T block (Z.of_nat p * in_dims + j))))
                    Float32.zero (seqZ 0 in_dims)
                  = squared_norm T v).
  { unfold squared_norm, v. rewrite foldl_map. apply foldl_ext_in.
    intros a j Hj. apply elem_of_seqZ in Hj. f_equal. f_equal.
    unfold block. rewrite element_of_block by lia.
    f_equal. f_equal. unfold i. lia. }
  rewrite Hnorm.
  rewrite (nth_lookup_Some _ _ _ (squared_norm T v))
    by (apply list_lookup_insert_eq; exact Hlong).
  rewrite (take_S_r _ _ _ Hvi), map_app. cbn [map].
  f_equal.
  - unfold norms.
    replace (Z.to_nat npts - i)%nat with (S (Z.to_nat npts - S i)) by lia.
    cbn [replicate]. rewrite <- app_assoc. cbn [app].
    rewrite <- Hlen at 1. rewrite <- (Nat.add_0_r (length _)).
    rewrite insert_app_r. reflexivity.
  - unfold largest_norm. rewrite foldl_app. reflexivity.
Qed.

(** The points of a block, in the first pass. *)
Lemma norms_of_block_after (s c : nat) :
  Z.of_nat (s + c) <= npts ->
  let block := read_at f (8 + Z.of_nat s * in_dims * sizeof T)
                 (Z.of_nat c * in_dims * sizeof T) in
  let vs := base_vectors T f npts in_dims in
  norms_of_block T block in_dims (Z.of_nat s) (Z.of_nat c) (norms_after T vs npts s)
  = norms_after T vs npts (s + c).
Proof.
  intros Hfit block vs. unfold norms_of_block.
  assert (Hrun : forall k : nat, (k <= c)%nat ->
            foldl (fun '(norms, max_norm) p =>
                     let norms' := add_squares T block in_dims p (Z.of_nat s + p) norms in
                     (norms', larger max_norm
                                (nth (Z.to_nat (Z.of_nat s + p)) norms' Float32.zero)))
              (norms_after T vs npts s) (seqZ 0 (Z.of_nat k))
            = norms_after T vs npts (s + k)).
  { induction k as [|k IH]; intros Hk.
    - cbn. rewrite Nat.add_0_r. reflexivity.
    - rewrite seqZ_S, foldl_app, IH by lia. cbn [foldl]. rewrite Z.add_0_l.
      pose proof (norms_point s c k ltac:(lia) ltac:(lia)) as Hstep.
      cbv zeta in Hstep. fold block vs in Hstep.
      destruct (norms_after T vs npts (s + k)) as [norms m] eqn:Est.
      cbn [fst snd] in Hstep. rewrite Hstep.
      f_equal. lia. }
  apply Hrun. lia.
Qed.

(** The first pass over whole blocks: before block [b] the first
    [min (b * block_size) npts] points are done. *)
Lemma norms_pass_after (block_size : Z) (n : nat) :
  0 < block_size ->
  forall b0 : nat,
    ((0 < n)%nat -> (Z.of_nat b0 + Z.of_nat n - 1) * block_size < npts) ->
    let vs := base_vectors T f npts in_dims in
    norms_pass T f npts in_dims block_size (seqZ (Z.of_nat b0) (Z.of_nat n))
      (8 + Z.min (Z.of_nat b0 * block_size) npts * in_dims * sizeof T)
      (norms_after T vs npts (Z.to_nat (Z.min (Z.of_nat b0 * block_size) npts)))
    = Some (norms_after T vs npts
              (Z.to_nat (Z.min ((Z.of_nat b0 + Z.of_nat n) * block_size) npts))).
Proof.
  intros Hbs. induction n as [|n IH]; intros b0 Hlast vs.
  - cbn [Z.of_nat seqZ norms_pass]. rewrite seqZ_nil by lia. cbn [norms_pass].
    rewrite Z.add_0_r. reflexivity.
  - specialize (Hlast ltac:(lia)).
    assert (Hb0 : Z.of_nat b0 * block_size < npts) by nia.
    rewrite seqZ_cons by lia. cbn [norms_pass].
    set (c := block_end npts block_size (Z.of_nat b0) - Z.of_nat b0 * block_size).
    assert (Hend : block_end npts block_size (Z.of_nat b0)
                   = Z.min ((Z.of_nat b0 + 1) * block_size) npts).
    { unfold block_end. destruct (Z.ltb_spec ((Z.of_nat b0 + 1) * block_size) npts); lia. }
    assert (Hc : 0 < c /\ Z.of_nat b0 * block_size + c
                          = Z.min ((Z.of_nat b0 + 1) * block_size) npts).
    { unfold c. rewrite Hend. split; lia. }
    rewrite (Z.min_l (Z.of_nat b0 * block_size) npts) by lia.
    set (s := Z.of_nat b0 * block_size) in *.
    assert (Hs : 0 <= s) by (unfold s; apply Z.mul_nonneg_nonneg; lia).
    assert (H1 : 0 <= s * in_dims) by (apply Z.mul_nonneg_nonneg; lia).
    assert (H2 : 0 <= s * in_dims * sizeof T) by (apply Z.mul_nonneg_nonneg; lia).
    assert (H3 : 0 <= c * in_dims) by (apply Z.mul_nonneg_nonneg; lia).
    assert (H4 : 0 <= c * in_dims * sizeof T) by (apply Z.mul_nonneg_nonneg; lia).
    assert (H5 : (s + c) * in_dims * sizeof T <= npts * in_dims * sizeof T).
    { apply Z.mul_le_mono_nonneg_r; [lia|]. apply Z.mul_le_mono_nonneg_r; lia. }
    rewrite length_read_at by lia.
    rewrite Z.ltb_irrefl.
    pose proof (norms_of_block_after (Z.to_nat s) (Z.to_nat c) ltac:(lia)) as Hblock.
    cbv zeta in Hblock. rewrite !Z2Nat.id in Hblock by lia. fold vs in Hblock.
    rewrite Hblock.
    specialize (IH (S b0)).
    replace (Z.succ (Z.of_nat b0)) with (Z.of_nat (S b0)) by lia.
    replace (Z.pred (Z.of_nat (S n))) with (Z.of_nat n) by lia.
    assert (Hnext : Z.min (Z.of_nat (S b0) * block_size) npts = s + c).
    { rewrite (proj2 Hc). f_equal. lia. }
    cbv zeta in IH. fold vs in IH. rewrite Hnext in IH.
    replace (Z.to_nat s + Z.to_nat c)%nat with (Z.to_nat (s + c)) by lia.
    replace (8 + s * in_dims * sizeof T + c * in_dims * sizeof T)
      with (8 + (s + c) * in_dims * sizeof T) by ring.
    rewrite IH by lia.
    f_equal. f_equal. f_equal. f_equal. lia.
Qed.

(** One point of the second pass: its row of the output block. *)
Lemma scale_point_row (s c p : nat) (max_norm : SpecFloat.spec_float)
    (out_block : list SpecFloat.spec_float) (v : list (list byte)) :
  (p < c)%nat ->
  base_vectors T f npts in_dims !! (s + p)%nat = Some v ->
  Z.of_nat (S p) * (in_dims + 1) <= Z.of_nat (length out_block) ->
  let block := read_at f (8 + Z.of_nat s * in_dims * sizeof T)
                 (Z.of_nat c * in_dims * sizeof T) in
  let norms := map (squared_norm T) (base_vectors T f npts in_dims) in
  let out_block' :=
    scale_point T block in_dims (in_dims + 1) norms max_norm (Z.of_nat s) out_block
      (Z.of_nat p) in
  length out_block' = length out_block /\
  take (Z.to_nat (Z.of_nat (S p) * (in_dims + 1))) out_block'
  = take (Z.to_nat (Z.of_nat p * (in_dims + 1))) out_block ++ augmented T max_norm v.
Proof.
  intros Hp Hv Hroom block norms out_block'. subst out_block'.
  assert (Hi : Z.of_nat (s + p) < npts).
  { apply lookup_lt_Some in Hv. rewrite length_base_vectors in Hv. lia. }
  rewrite (base_vectors_lookup _ Hi) in Hv. injection Hv as Hv.
  set (P := Z.of_nat p * (in_dims + 1)) in *.
  assert (HP : 0 <= P) by (unfold P; apply Z.mul_nonneg_nonneg; lia).
  assert (Hrow : Z.of_nat (S p) * (in_dims + 1) = P + in_dims + 1) by (unfold P; lia).
  unfold scale_point.
  set (g := fun j => Float32.div (to_float T (element_at T block (Z.of_nat p * in_dims + j)))
                       max_norm).
  pose proof (foldl_insert_run g P (Z.to_nat in_dims) HP out_block ltac:(lia)) as Hrun.
  cbv zeta in Hrun. rewrite Z2Nat.id in Hrun by lia.
  destruct Hrun as [Hlen Htake].
  fold P. set (out1 := foldl _ out_block (seqZ 0 in_dims)) in *.
  replace (Z.to_nat (P + (in_dims + 1) - 1)) with (Z.to_nat P + Z.to_nat in_dims)%nat by lia.
  split; [rewrite length_insert; exact Hlen|].
  rewrite Hrow.
  replace (Z.to_nat (P + in_dims + 1)) with (S (Z.to_nat P + Z.to_nat in_dims)) by lia.
  erewrite take_S_r by (apply list_lookup_insert_eq; lia).
  rewrite take_insert_ge by lia. rewrite Htake, <- app_assoc.
  f_equal. unfold augmented. f_equal.
  - rewrite <- Hv, map_map. apply map_ext_in. intros j Hj.
    apply list_elem_of_In, elem_of_seqZ in Hj. unfold g, block.
    rewrite element_of_block by lia.
    do 3 f_equal. lia.
  - f_equal. unfold last_coordinate.
    assert (Hn : nth (Z.to_nat (Z.of_nat s + Z.of_nat p)) norms Float32.zero
                 = squared_norm T v).
    { apply nth_lookup_Some. unfold norms.
      change (map ?h ?l) with (h <$> l).
      rewrite list_lookup_fmap.
      replace (Z.to_nat (Z.of_nat s + Z.of_nat p)) with (s + p)%nat by lia.
      rewrite (base_vectors_lookup _ Hi). cbn. rewrite Hv. reflexivity. }
    rewrite Hn. reflexivity.
Qed.

(** The points of a block, in the second pass. *)
Lemma scale_block_rows (s c : nat) (max_norm : SpecFloat.spec_float)
    (out_block : list SpecFloat.spec_float) :
  Z.of_nat (s + c) <= npts ->
  Z.of_nat c * (in_dims + 1) <= Z.of_nat (length out_block) ->
  let block := read_at f (8 + Z.of_nat s * in_dims * sizeof T)
                 (Z.of_nat c * in_dims * sizeof T) in
  let vs := base_vectors T f npts in_dims in
  let out_block' :=
    foldl (scale_point T block in_dims (in_dims + 1) (map (squared_norm T) vs) max_norm
             (Z.of_nat s))
      out_block (seqZ 0 (Z.of_nat c)) in
  length out_block' = length out_block /\
  take (Z.to_nat (Z.of_nat c * (in_dims + 1))) out_block'
  = flat_map (augmented T max_norm) (take c (drop s vs)).
Proof.
  intros Hfit Hroom block vs.
  assert (Hrun : forall k : nat, (k <= c)%nat ->
            let out_block' :=
              foldl (scale_point T block in_dims (in_dims + 1) (map (squared_norm T) vs)
                       max_norm (Z.of_nat s))
                out_block (seqZ 0 (Z.of_nat k)) in
            length out_block' = length out_block /\
            take (Z.to_nat (Z.of_nat k * (in_dims + 1))) out_block'
            = flat_map (augmented T max_norm) (take k (drop s vs))).
  { induction k as [|k IH]; intros Hk.
    - cbn. split; reflexivity.
    - cbv zeta. rewrite seqZ_S, foldl_app. cbn [foldl]. rewrite Z.add_0_l.
      destruct (IH ltac:(lia)) as [Hlen Htake]. cbv zeta in Hlen, Htake.
      set (out_k := foldl _ out_block (seqZ 0 (Z.of_nat k))) in *.
      assert (Hv : exists v, vs !! (s + k)%nat = Some v).
      { apply lookup_lt_is_Some_2. unfold vs. rewrite length_base_vectors. lia. }
      destruct Hv as [v Hv].
      assert (Hroom' : Z.of_nat (S k) * (in_dims + 1) <= Z.of_nat (length out_k)).
      { rewrite Hlen. etransitivity; [|exact Hroom].
        apply Z.mul_le_mono_nonneg_r; lia. }
      destruct (scale_point_row s c k max_norm out_k v ltac:(lia) Hv Hroom')
        as [Hlen' Htake'].
      cbv zeta in Hlen', Htake'. fold block vs in Hlen', Htake'.
      split; [rewrite Hlen'; exact Hlen|].
      rewrite Htake', Htake.
      rewrite (take_S_r _ _ v) by (rewrite lookup_drop; exact Hv).
      rewrite flat_map_app. cbn [flat_map]. rewrite app_nil_r. reflexivity. }
  apply Hrun. lia.
Qed.

(** The second pass over whole blocks. *)
Lemma scale_pass_after (block_size : Z) (max_norm : SpecFloat.spec_float) (n : nat) :
  0 < block_size ->
  forall (b0 : nat) (out_block : list SpecFloat.spec_float),
    ((0 < n)%nat -> (Z.of_nat b0 + Z.of_nat n - 1) * block_size < npts) ->
    block_size * (in_dims + 1) <= Z.of_nat (length out_block) ->
    let vs := base_vectors T f npts in_dims in
    scale_pass T f npts in_dims (in_dims + 1) block_size (map (squared_norm T) vs)
      max_norm (seqZ (Z.of_nat b0) (Z.of_nat n))
      (8 + Z.min (Z.of_nat b0 * block_size) npts * in_dims * sizeof T) out_block
      (flat_map (augmented T max_norm)
         (take (Z.to_nat (Z.min (Z.of_nat b0 * block_size) npts)) vs))
    = Some (flat_map (augmented T max_norm)
              (take (Z.to_nat (Z.min ((Z.of_nat b0 + Z.of_nat n) * block_size) npts)) vs)).
Proof.
  intros Hbs. induction n as [|n IH]; intros b0 out_block Hlast Hroom vs.
  - cbn [Z.of_nat]. rewrite seqZ_nil by lia. cbn [scale_pass].
    rewrite Z.add_0_r. reflexivity.
  - specialize (Hlast ltac:(lia)).
    assert (Hb0 : Z.of_nat b0 * block_size < npts) by nia.
    rewrite seqZ_cons by lia. cbn [scale_pass].
    set (c := block_end npts block_size (Z.of_nat b0) - Z.of_nat b0 * block_size).
    assert (Hend : block_end npts block_size (Z.of_nat b0)
                   = Z.min ((Z.of_nat b0 + 1) * block_size) npts).
    { unfold block_end. destruct (Z.ltb_spec ((Z.of_nat b0 + 1) * block_size) npts); lia. }
    assert (Hc : 0 < c <= block_size /\
                 Z.of_nat b0 * block_size + c
                 = Z.min ((Z.of_nat b0 + 1) * block_size) npts).
    { unfold c. rewrite Hend. split; lia. }
    rewrite (Z.min_l (Z.of_nat b0 * block_size) npts) by lia.
    set (s := Z.of_nat b0 * block_size) in *.
    assert (Hs : 0 <= s) by (unfold s; apply Z.mul_nonneg_nonneg; lia).
    assert (H1 : 0 <= s * in_dims) by (apply Z.mul_nonneg_nonneg; lia).
    assert (H2 : 0 <= s * in_dims * sizeof T) by (apply Z.mul_nonneg_nonneg; lia).
    assert (H3 : 0 <= c * in_dims) by (apply Z.mul_nonneg_nonneg; lia).
    assert (H4 : 0 <= c * in_dims * sizeof T) by (apply Z.mul_nonneg_nonneg; lia).
    assert (H5 : (s + c) * in_dims * sizeof T <= npts * in_dims * sizeof T).
    { apply Z.mul_le_mono_nonneg_r; [lia|]. apply Z.mul_le_mono_nonneg_r; lia. }
    assert (H6 : c * (in_dims + 1) <= block_size * (in_dims + 1))
      by (apply Z.mul_le_mono_nonneg_r; lia).
    rewrite length_read_at by lia.
    rewrite Z.ltb_irrefl.
    pose proof (scale_block_rows (Z.to_nat s) (Z.to_nat c) max_norm out_block
                  ltac:(lia) ltac:(lia)) as Hblock.
    cbv zeta in Hblock. rewrite !Z2Nat.id in Hblock by lia. fold vs in Hblock.
    destruct Hblock as [Hlen Htake].
    set (out_block' := foldl _ out_block (seqZ 0 c)) in *.
    rewrite Htake, <- flat_map_app, take_take_drop.
    specialize (IH (S b0) out_block').
    replace (Z.succ (Z.of_nat b0)) with (Z.of_nat (S b0)) by lia.
    replace (Z.pred (Z.of_nat (S n))) with (Z.of_nat n) by lia.
    assert (Hnext : Z.min (Z.of_nat (S b0) * block_size) npts = s + c).
    { rewrite (proj2 Hc). f_equal. lia. }
    cbv zeta in IH. fold vs in IH. rewrite Hnext in IH.
    replace (Z.to_nat s + Z.to_nat c)%nat with (Z.to_nat (s + c)) by lia.
    replace (8 + s * in_dims * sizeof T + c * in_dims * sizeof T)
      with (8 + (s + c) * in_dims * sizeof T) by ring.
    rewrite IH by (rewrite ?Hlen; lia).
    do 3 f_equal. lia.
Qed.

End PrepareBlocks.

(** The number of blocks. *)
Lemma number_of_blocks (npts block_size : Z) :
  0 < block_size <= npts -> npts < 2 ^ 63 ->
  let q := DIV_ROUND_UP npts block_size in
  0 < q /\ (q - 1) * block_size < npts <= q * block_size.
Proof.
  intros Hbs Hn q. subst q. unfold DIV_ROUND_UP.
  rewrite wrap_small by lia.
  pose proof (Z.div_mod npts block_size ltac:(lia)) as Hdm.
  pose proof (Z.mod_pos_bound npts block_size ltac:(lia)) as Hm.
  assert (1 <= npts / block_size).
  { apply Z.div_le_lower_bound; lia. }
  assert (npts / block_size <= npts).
  { apply Z.div_le_upper_bound; nia. }
  rewrite add_small by (destruct (_ =? 0); lia).
  destruct (Z.eqb_spec (npts mod block_size) 0) as [Hz|Hz]; nia.
Qed.

(** What the function computes on a base file that holds the points its
    header announces, at least one. *)
Lemma prepare_base_for_inner_products_value (T : element_type) (in_file : file)
    (npts in_dims : Z) :
  0 <= sizeof T ->
  read_header in_file = Some (npts, in_dims) ->
  0 < npts ->
  8 + npts * in_dims * sizeof T <= file_size in_file ->
  let vs := base_vectors T in_file npts in_dims in
  let max_norm := Float32.sqrt (largest_norm T vs) in
  prepare_base_for_inner_products T in_file
  = Prepared max_norm
      {| out_npts := npts;
         out_dims := U32.wrap (in_dims + 1);
         out_values := flat_map (augmented T max_norm) vs |}.
Proof.
  intros Hsize Hhdr Hpos Hfile vs max_norm.
  destruct (read_header_range _ _ _ Hhdr) as [Hn Hd].
  unfold prepare_base_for_inner_products. rewrite Hhdr.
  set (block_size := if npts <=? BLOCK_SIZE then npts else BLOCK_SIZE).
  assert (Hbs : 0 < block_size <= npts).
  { unfold block_size, BLOCK_SIZE. destruct (Z.leb_spec npts 100000); lia. }
  destruct (Z.eqb_spec block_size 0) as [Hz|_]; [lia|].
  destruct (number_of_blocks npts block_size Hbs ltac:(lia)) as (Hq & Hlo & Hhi).
  set (q := DIV_ROUND_UP npts block_size) in *.
  assert (Hall : Z.min ((Z.of_nat 0 + Z.of_nat (Z.to_nat q)) * block_size) npts = npts).
  { rewrite Z2Nat.id by lia. change (Z.of_nat 0) with 0. lia. }
  assert (Htake : take (Z.to_nat npts) vs = vs).
  { apply take_ge. unfold vs. rewrite length_base_vectors. lia. }
  pose proof (norms_pass_after T in_file npts in_dims Hsize ltac:(lia) ltac:(lia) Hfile
                block_size (Z.to_nat q) ltac:(lia) 0%nat) as Hpass1.
  cbv zeta in Hpass1. fold vs in Hpass1. rewrite Hall in Hpass1.
  rewrite Z2Nat.id in Hpass1 by lia.
  change (Z.of_nat 0) with 0 in Hpass1. rewrite Z.mul_0_l, Z.min_l in Hpass1 by lia.
  change (8 + 0 * in_dims * sizeof T) with 8 in Hpass1.
  change (2 * 4) with 8.
  assert (Hinit : norms_after T vs npts (Z.to_nat 0)
                  = (replicate (Z.to_nat npts) Float32.zero, Float32.zero)).
  { unfold norms_after. cbn. rewrite Nat.sub_0_r. reflexivity. }
  rewrite Hinit in Hpass1. rewrite Hpass1 by (intros _; lia).
  unfold norms_after. rewrite Htake, Nat.sub_diag. cbn [replicate]. rewrite app_nil_r.
  fold max_norm.
  pose proof (scale_pass_after T in_file npts in_dims Hsize ltac:(lia) ltac:(lia) Hfile
                block_size max_norm (Z.to_nat q) ltac:(lia) 0%nat
                (replicate (Z.to_nat (block_size * (in_dims + 1))) Float32.zero))
    as Hpass2.
  cbv zeta in Hpass2. fold vs in Hpass2. rewrite Hall in Hpass2.
  rewrite Z2Nat.id in Hpass2 by lia.
  change (Z.of_nat 0) with 0 in Hpass2. rewrite Z.mul_0_l, Z.min_l in Hpass2 by lia.
  change (8 + 0 * in_dims * sizeof T) with 8 in Hpass2.
  change (take (Z.to_nat 0) vs) with (@nil (list (list byte))) in Hpass2.
  cbn [flat_map] in Hpass2.
  rewrite Hpass2.
  - rewrite Htake. reflexivity.
  - intros _. lia.
  - rewrite length_replicate.
    assert (0 <= block_size * (in_dims + 1)) by (apply Z.mul_nonneg_nonneg; lia). lia.
Qed.

(** The rows of a table written row after row. *)
Lemma flat_map_row {A B : Type} (g : A -> list B) (L : nat) (l : list A) :
  Forall (fun x => length (g x) = L) l ->
  forall (i : nat) (x : A),
    l !! i = Some x -> take L (drop (i * L) (flat_map g l)) = g x.
Proof.
  induction l as [|a l IH]; intros Hrows i x Hx; [discriminate|].
  apply Forall_cons in Hrows. destruct Hrows as [Ha Hl].
  cbn [flat_map]. destruct i as [|i]; cbn in Hx.
  - injection Hx as <-. cbn [Nat.mul drop]. apply take_app_length'. symmetry. exact Ha.
  - rewrite drop_app_ge by (rewrite Ha; lia).
    replace (S i * L - length (g a))%nat with (i * L)%nat by (rewrite Ha; lia).
    apply IH; assumption.
Qed.

Lemma length_augmented (T : element_type) (max_norm : SpecFloat.spec_float)
    (v : list (list byte)) :
  length (augmented T max_norm v) = S (length v).
Proof. unfold augmented. rewrite length_app, length_map. cbn. lia. Qed.

Lemma base_vectors_rows (T : element_type) (in_file : file) (npts in_dims : Z) :
  Forall (fun v => length v = Z.to_nat in_dims) (base_vectors T in_file npts in_dims).
Proof.
  unfold base_vectors. apply Forall_forall. intros v Hv.
  change (map ?g (seqZ 0 npts)) with (g <$> seqZ 0 npts) in Hv.
  apply list_elem_of_fmap in Hv. destruct Hv as (i & -> & _).
  rewrite length_map, length_seqZ. reflexivity.
Qed.




(** ** A base without a positive norm *)

Lemma largest_norm_zero (T : element_type) (vs : list (list (list byte))) :
  Forall (fun v => exists s, squared_norm T v = SpecFloat.S754_zero s) vs ->
  exists s, largest_norm T vs = SpecFloat.S754_zero s.
Proof.
  unfold largest_norm.
  assert (Hgen : forall m,
            (exists s, m = SpecFloat.S754_zero s) ->
            Forall (fun v => exists s, squared_norm T v = SpecFloat.S754_zero s) vs ->
            exists s, foldl (fun m v => larger m (squared_norm T v)) m vs
                      = SpecFloat.S754_zero s).
  { induction vs as [|v vs IH]; intros m Hm Hvs; [exact Hm|].
    apply Forall_cons in Hvs. destruct Hvs as [[s Hv] Hvs].
    cbn [foldl]. apply IH; [|exact Hvs].
    destruct Hm as [s0 ->]. rewrite Hv. exists s. reflexivity. }
  intros Hvs. apply Hgen; [exists false; reflexivity|exact Hvs].
Qed.

Lemma last_coordinate_zero (s s' : bool) :
  last_coordinate (SpecFloat.S754_zero s) (Float32.sqrt (SpecFloat.S754_zero s'))
  = SpecFloat.S754_nan.
Proof. destruct s, s'; reflexivity. Qed.

(** X23. On a base none of whose vectors has a positive squared norm (all
    coordinates zero, or so small that their squares vanish: every
    accumulated squared norm is a zero), with at least one point, the
    function returns a [max_norm] of zero and, dividing by it, appends to
    every vector the coordinate NaN. *)
Theorem prepare_zero_base_appends_nan (T : element_type) (in_file : file)
    (npts in_dims : Z) :
  0 < sizeof T ->
  read_header in_file = Some (npts, in_dims) ->
  0 < npts ->
  8 + npts * in_dims * sizeof T <= file_size in_file ->
  Forall (fun v => exists s, squared_norm T v = SpecFloat.S754_zero s)
    (base_vectors T in_file npts in_dims) ->
  exists (s : bool) (out : prepared_file),
    prepare_base_for_inner_products T in_file = Prepared (SpecFloat.S754_zero s) out /\
    forall i : nat,
      Z.of_nat i < npts ->
      out_values out !! (i * Z.to_nat (in_dims + 1) + Z.to_nat in_dims)%nat
      = Some SpecFloat.S754_nan.
Proof.
  intros Hsize Hhdr Hpos Hfile Hzero.
  destruct (read_header_range _ _ _ Hhdr) as [Hn Hd].
  pose proof (prepare_base_for_inner_products_value T in_file npts in_dims
                ltac:(lia) Hhdr Hpos Hfile) as Hrun.
  cbv zeta in Hrun.
  set (vs := base_vectors T in_file npts in_dims) in *.
  destruct (largest_norm_zero T vs Hzero) as [s Hlargest].
  rewrite Hlargest in Hrun.
  assert (Hsqrt : Float32.sqrt (SpecFloat.S754_zero s) = SpecFloat.S754_zero s)
    by (destruct s; reflexivity).
  exists s. eexists. split; [rewrite <- Hsqrt at 1; exact Hrun|].
  cbn [out_values]. intros i Hi.
  set (max_norm := Float32.sqrt (SpecFloat.S754_zero s)).
  assert (Hv : exists v, vs !! i = Some v).
  { apply lookup_lt_is_Some_2. unfold vs. rewrite length_base_vectors. lia. }
  destruct Hv as [v Hv].
  assert (Hrows : Forall (fun v => length (augmented T max_norm v) = Z.to_nat (in_dims + 1)) vs).
  { eapply Forall_impl; [apply base_vectors_rows|].
    intros v' Hv'. cbn beta in Hv'. rewrite length_augmented, Hv'. lia. }
  pose proof (flat_map_row _ _ _ Hrows i v Hv) as Hrow.
  assert (Hlen : length v = Z.to_nat in_dims).
  { pose proof (base_vectors_rows T in_file npts in_dims) as Hall.
    rewrite Forall_forall in Hall. apply Hall. eapply list_elem_of_lookup_2. exact Hv. }
  assert (Hlast : augmented T max_norm v !! Z.to_nat in_dims = Some SpecFloat.S754_nan).
  { unfold augmented. rewrite lookup_app_r by (rewrite length_map; lia).
    rewrite length_map, Hlen, Nat.sub_diag.
    rewrite Forall_forall in Hzero.
    destruct (Hzero v) as [s' Hs']; [eapply list_elem_of_lookup_2; exact Hv|].
    rewrite Hs'. unfold max_norm. rewrite last_coordinate_zero. reflexivity. }
  rewrite <- Hrow in Hlast.
  rewrite lookup_take, decide_True, lookup_drop in Hlast by lia. exact Hlast.
Qed.

Lemma prepare_zero_base_appends_nan_witness :
  exists out,
    prepare_base_for_inner_products float_elements zero_base_file
    = Prepared Float32.zero out /\
    out_values out !! 2%nat = Some SpecFloat.S754_nan /\
    out_values out !! 5%nat = Some SpecFloat.S754_nan.
Proof.
  destruct (prepare_zero_base_appends_nan float_elements zero_base_file 2 2)
    as (s & out & Hrun & Hnan);
    [reflexivity|reflexivity|reflexivity|vm_compute; discriminate| |].
  { repeat constructor; exists false; vm_compute; reflexivity. }
  assert (Hs : s = false).
  { assert (Hc : prepare_base_for_inner_products float_elements zero_base_file
                 = Prepared Float32.zero
                     (mkPrepared 2 3 (replicate 6 SpecFloat.S754_nan)))
      by (vm_compute; reflexivity).
    rewrite Hc in Hrun. unfold Float32.zero in Hrun. congruence. }
  subst s. exists out. split; [exact Hrun|]. split.
  - apply (Hnan 0%nat). lia.
  - apply (Hnan 1%nat). lia.
Defined.

(** X24. On a base file of no points the function divides by zero: the
    block size is [npts = 0], and [DIV_ROUND_UP(npts, block_size)] has no
    defined behaviour. *)
Theorem prepare_empty_base_undefined (T : element_type) (in_file : file) (in_dims : Z) :
  read_header in_file = Some (0, in_dims) ->
  prepare_base_for_inner_products T in_file = PrepareUndefined.
Proof.
  intros Hhdr. unfold prepare_base_for_inner_products. rewrite Hhdr. reflexivity.
Qed.

Lemma prepare_empty_base_undefined_witness :
  prepare_base_for_inner_products float_elements
    [x00; x00; x00; x00; x03; x00; x00; x00] = PrepareUndefined.
Proof. apply (prepare_empty_base_undefined float_elements _ 3). reflexivity. Defined.
